(** * MAST: the public operations of the Merkle search tree (pub.go) and the
    node loader (store.go), embedded as executable Rocq definitions.

    Go values are modelled as follows.
    - [interface{}] keys and values: the type [iface] (nil, an integer or a
      string; all three are comparable with [==]).
    - [uint64], [uint] and [uint8] fields: [Z], with the wrap-around of every
      arithmetic operation written out ([wrap64], [wrap8]); [uint] is taken
      to be 64 bits wide.
    - [[]byte] and [json.RawMessage]: [list byte].
    - a slice: a list whose capacity is its length; indexing and slicing out
      of range panic.
    - a child link ([interface{}] in pub.go, the interface [link] in
      store.go): the sum type [link] -- nil, a content hash, or an inline
      node.
    - [error]: the tree of [fmt.Errorf] calls that built it.
    - a method with receiver [m *Mast] that assigns to fields of [m]: a
      computation in the state monad [M]; a run-time panic is the outcome
      [Panic], which is neither a value nor an [error].
    - the two maintenance loops of [Insert] and [Delete] call [grow] and
      [shrink], which other files define; they are run with a bound on the
      number of rounds, the first argument of [Insert] and [Delete].

    The file has four parts: the data model; the functions of store.go and
    pub.go, over an interface [Helpers] for the functions they call and other
    files define; a model of those helpers from the specification, with a few
    trees and blob stores to run the operations on; the properties.  [Iter],
    [keys] and [toSlice] are embedded over the interface [Traversal], which
    stands for the method [mastNode.iter] of another file.  [Get] is
    embedded for a value argument that is nil or a pointer to an
    [interface{}] variable, and once more, in module [Reflect], for every
    value argument, with the panics of package [reflect].  [DiffIter] and
    [DiffLinks] only hand over to [diff], a function of another file, and
    are not embedded. *)

From Stdlib Require Import ZArith String List Lia.
From Stdlib.Strings Require Import Byte.
From stdpp Require Import base relations list strings pretty.

Open Scope string_scope.
Open Scope list_scope.
Open Scope Z_scope.

(** ** Go values *)

Definition bytes := list byte.

#[global] Instance byte_eq_decision : EqDecision byte := Byte.byte_eq_dec.

(** A value of static type [interface{}]. *)
Inductive iface : Type :=
| INil
| IInt (z : Z)
| IStr (s : string).

#[global] Instance iface_eq_dec : EqDecision iface.
Proof. solve_decision. Defined.

(** [fmt]'s rendering of a value under the verb [%v]. *)
Definition fmtV (v : iface) : string :=
  match v with
  | INil => "<nil>"
  | IInt z => pretty z
  | IStr s => s
  end.

(** [fmt]'s rendering of an [int] index under the verb [%d]. *)
Definition fmtD (i : nat) : string := pretty (Z.of_nat i).

(** An [error] value: [Errorf msg] is [fmt.Errorf(msg)] without [%w];
    [Wrapf msg cause] is [fmt.Errorf(msg + ": %w", cause)]. *)
Inductive error : Type :=
| Errorf (msg : string)
| Wrapf (msg : string) (cause : error).

(** The text [err.Error()] returns. *)
Fixpoint message (e : error) : string :=
  match e with
  | Errorf msg => msg
  | Wrapf msg cause => msg +:+ ": " +:+ message cause
  end.

(** The outcome of a call: a value, an [error], a run-time panic, or (for the
    two maintenance loops, which are run with a bound) an exhausted bound. *)
Inductive res (A : Type) : Type :=
| Ok (a : A)
| Err (e : error)
| Panic (msg : string)
| OutOfFuel.
Arguments Ok {A} a.
Arguments Err {A} e.
Arguments Panic {A} msg.
Arguments OutOfFuel {A}.

Definition bindR {A B} (c : res A) (k : A -> res B) : res B :=
  match c with
  | Ok a => k a
  | Err e => Err e
  | Panic msg => Panic msg
  | OutOfFuel => OutOfFuel
  end.

Definition isOk {A} (r : res A) : bool :=
  match r with Ok _ => true | _ => false end.

(** [wrapR msg c] is the Go idiom
    [x, err := c; if err != nil { return fmt.Errorf(msg + ": %w", err) }]. *)
Definition wrapR {A} (msg : string) (c : res A) : res A :=
  match c with
  | Err e => Err (Wrapf msg e)
  | other => other
  end.

Declare Scope res_scope.
Delimit Scope res_scope with res.
Notation "'let*' x ':=' c 'in' k" := (bindR c (fun x => k))
  (at level 10, x name, c at level 100, k at level 200, only parsing) : res_scope.
Notation "'let*' ' pat ':=' c 'in' k" := (bindR c (fun x => match x with pat => k end))
  (at level 10, pat pattern, c at level 100, k at level 200, only parsing) : res_scope.

Definition wrap64 (z : Z) : Z := z mod 2 ^ 64.
Definition wrap8 (z : Z) : Z := z mod 2 ^ 8.

Definition index_panic : string := "runtime error: index out of range".
Definition slice_panic : string := "runtime error: slice bounds out of range".
Definition nil_panic : string :=
  "runtime error: invalid memory address or nil pointer dereference".

(** [s[i]] *)
Definition index {A} (s : list A) (i : nat) : res A :=
  match s !! i with
  | Some a => Ok a
  | None => Panic index_panic
  end.

(** [s[i] = v] *)
Definition assign {A} (s : list A) (i : nat) (v : A) : res (list A) :=
  if decide (i < length s)%nat then Ok (<[i:=v]> s) else Panic index_panic.

(** [s[:i]] and [s[i:]], for a slice whose capacity is its length. *)
Definition sliceTo {A} (s : list A) (i : nat) : res (list A) :=
  if decide (i <= length s)%nat then Ok (take i s) else Panic slice_panic.
Definition sliceFrom {A} (s : list A) (i : nat) : res (list A) :=
  if decide (i <= length s)%nat then Ok (drop i s) else Panic slice_panic.

(** The builtin [copy(dst, src)]: overwrites the first
    [min(len(dst), len(src))] elements of [dst]. *)
Definition copy_ {A} (dst src : list A) : list A :=
  take (length dst) src ++ drop (length src) dst.

(** [copy(dst[off:], src)], seen from [dst]. *)
Definition copyAt {A} (dst : list A) (off : nat) (src : list A) : res (list A) :=
  if decide (off <= length dst)%nat
  then Ok (take off dst ++ copy_ (drop off dst) src)
  else Panic slice_panic.

(** ** Nodes and links (the struct [mastNode] and what its [Link] slots hold) *)

Inductive link : Type :=
| LNil
| LHash (l : string)
| LNode (n : mastNode)
with mastNode : Type :=
| MkNode (Key : list iface) (Value : list iface) (Link : list link).

Definition Key (n : mastNode) : list iface := let 'MkNode k _ _ := n in k.
Definition Value (n : mastNode) : list iface := let 'MkNode _ v _ := n in v.
Definition Link (n : mastNode) : list link := let 'MkNode _ _ l := n in l.

Definition isNil (l : link) : bool :=
  match l with LNil => true | _ => false end.

(** [stringNodeT]: the serialized node.  A [Link] that was omitted from the
    encoding decodes to the nil slice, [None]. *)
Record stringNodeT : Type := {
  snKey : list bytes;
  snValue : list bytes;
  snLink : option (list string)
}.

(** ** Collaborators *)

(** The interface [Persist].  [PersistLoad] is what [Load] answers for each
    name; the effect of [Store] on the blob store lies outside the tree. *)
Record Persist : Type := {
  PersistStore : string -> bytes -> res unit;
  PersistLoad : string -> res bytes
}.

(** A function of type [func([]byte, interface{}) error].  The loader calls it
    with two kinds of target: a [*stringNodeT] ([intoNode]), and a pointer to a
    fresh value of the type of a prototype ([intoLike proto]). *)
Record unmarshalFn : Type := {
  intoNode : bytes -> res stringNodeT;
  intoLike : iface -> bytes -> res iface
}.

(** A function of type [func(interface{}) ([]byte, error)]. *)
Record marshalFn : Type := {
  ofNode : stringNodeT -> res bytes;
  ofValue : iface -> res bytes
}.

(** The interface [NodeCache], held but never called in the two files. *)
Definition NodeCache := list (string * mastNode).

(** ** The tree *)

(** The struct [Mast], with the fields the two files read and write. *)
Record Mast : Type := {
  root : link;
  zeroKey : iface;
  zeroValue : iface;
  unmarshal : unmarshalFn;
  marshal : marshalFn;
  unmarshalerUsesRegisteredTypes : bool;
  keyOrder : iface -> iface -> res Z;
  keyLayer : iface -> Z -> res Z;
  branchFactor : Z;
  size : Z;
  height : Z;
  persist : option Persist;
  shrinkBelowSize : Z;
  growAfterSize : Z;
  nodeCache : option NodeCache;
  debug : bool
}.

Definition set_root (l : link) (m : Mast) : Mast :=
  {| root := l; zeroKey := zeroKey m; zeroValue := zeroValue m;
     unmarshal := unmarshal m; marshal := marshal m;
     unmarshalerUsesRegisteredTypes := unmarshalerUsesRegisteredTypes m;
     keyOrder := keyOrder m; keyLayer := keyLayer m;
     branchFactor := branchFactor m; size := size m; height := height m;
     persist := persist m; shrinkBelowSize := shrinkBelowSize m;
     growAfterSize := growAfterSize m; nodeCache := nodeCache m;
     debug := debug m |}.

Definition set_size (z : Z) (m : Mast) : Mast :=
  {| root := root m; zeroKey := zeroKey m; zeroValue := zeroValue m;
     unmarshal := unmarshal m; marshal := marshal m;
     unmarshalerUsesRegisteredTypes := unmarshalerUsesRegisteredTypes m;
     keyOrder := keyOrder m; keyLayer := keyLayer m;
     branchFactor := branchFactor m; size := z; height := height m;
     persist := persist m; shrinkBelowSize := shrinkBelowSize m;
     growAfterSize := growAfterSize m; nodeCache := nodeCache m;
     debug := debug m |}.

(** What a caller can observe of the tree between two calls. *)
Definition observable (m : Mast) : link * Z * Z * Z * Z :=
  (root m, size m, height m, growAfterSize m, shrinkBelowSize m).

(** [pathEntry] and [findOptions], as pub.go uses them. *)
Module pathEntry.
Record t : Type := {
  node : mastNode;
  linkIdx : nat
}.
End pathEntry.

Record findOptions : Type := {
  targetLayer : Z;
  currentHeight : Z;
  createMissingNodes : bool;
  path : list pathEntry.t
}.

Module Root.
(** The struct [Root]; a nil [Link] pointer is [None]. *)
Record t : Type := {
  Link : option string;
  Size : Z;
  Height : Z;
  BranchFactor : Z
}.
End Root.

Module RemoteConfig.
(** The struct [RemoteConfig]; a nil function or interface is [None]. *)
Record t : Type := {
  KeysLike : iface;
  ValuesLike : iface;
  StoreImmutablePartsWith : option Persist;
  Unmarshal : option unmarshalFn;
  Marshal : option marshalFn;
  UnmarshalerUsesRegisteredTypes : bool;
  NodeCache : option NodeCache
}.
End RemoteConfig.

Record CreateRemoteOptions : Type := {
  BranchFactor : Z
}.

(** ** The state monad of the methods on [*Mast] *)

Definition M (A : Type) : Type := Mast -> res A * Mast.

Definition retM {A} (a : A) : M A := fun m => (Ok a, m).

Definition bindM {A B} (c : M A) (k : A -> M B) : M B :=
  fun m =>
    match c m with
    | (Ok a, m') => k a m'
    | (Err e, m') => (Err e, m')
    | (Panic msg, m') => (Panic msg, m')
    | (OutOfFuel, m') => (OutOfFuel, m')
    end.

(** Read the receiver. *)
Definition getM : M Mast := fun m => (Ok m, m).

(** Assign to fields of the receiver. *)
Definition modifyM (f : Mast -> Mast) : M unit := fun m => (Ok tt, f m).

(** Run a call that does not assign to the receiver. *)
Definition liftR {A} (c : res A) : M A := fun m => (c, m).

(** [return fmt.Errorf(...)] *)
Definition failM {A} (e : error) : M A := fun m => (Err e, m).

Definition panicM {A} (msg : string) : M A := fun m => (Panic msg, m).

(** [err := c; if err != nil { return fmt.Errorf(msg + ": %w", err) }] for a
    call that may assign to the receiver. *)
Definition wrapM {A} (msg : string) (c : M A) : M A :=
  fun m => let '(r, m') := c m in (wrapR msg r, m').

Declare Scope mast_scope.
Delimit Scope mast_scope with mast.
Notation "'let*' x ':=' c 'in' k" := (bindM c (fun x => k))
  (at level 10, x name, c at level 100, k at level 200, only parsing) : mast_scope.
Notation "'let*' ' pat ':=' c 'in' k" := (bindM c (fun x => match x with pat => k end))
  (at level 10, pat pattern, c at level 100, k at level 200, only parsing) : mast_scope.

(** ** The rest of package mast

    The two files call functions that other files of the package define.
    [Helpers] is their interface: everything below is stated for an arbitrary
    implementation of it.  [findNode], [split], [mergeNodes], [canGrow],
    [checkRoot], [validateNode] and [mastNode_store] receive the tree and
    answer without assigning to it (the specification describes them as pure
    node operations and checks); [savePathForRoot], [grow] and [shrink] are
    the three that assign to the tree.  [savePathForRoot] is handed the slice
    [options.path] and may assign to its elements, so it also hands the slice
    back.  [validateNode] has no result in Go: it answers [Ok tt] or panics.
    [jsonUnmarshal] and [jsonMarshal] are [json.Unmarshal] and
    [json.Marshal]. *)
Class Helpers : Type := {
  findNode : mastNode -> Mast -> iface -> findOptions ->
             res (mastNode * nat * findOptions);
  split : mastNode -> iface -> Mast -> res (link * link);
  mergeNodes : Mast -> link -> link -> res link;
  canGrow : mastNode -> Z -> (iface -> Z -> res Z) -> Z -> res bool;
  savePathForRoot : list pathEntry.t -> M (list pathEntry.t);
  grow : M unit;
  shrink : M unit;
  checkRoot : Mast -> res unit;
  validateNode : mastNode -> Mast -> res unit;
  mastNode_store : mastNode -> Persist -> option NodeCache -> marshalFn ->
                   res string;
  defaultOrder : iface -> iface -> res Z;
  defaultLayer : iface -> Z -> res Z;
  jsonUnmarshal : unmarshalFn;
  jsonMarshal : marshalFn
}.

(** Modelled from the spec: [DefaultBranchFactor] is declared outside the two
    files; scenario S1 gives the branch factor of a new tree as 16. *)
Definition DefaultBranchFactor : Z := 16.

(** Modelled from the spec: [emptyNodePointer] is defined outside the two
    files.  A node with N entries has N+1 links and the empty node has no
    entry, hence one nil link -- the shape [store] in store.go tests for. *)
Definition emptyNodePointer (branchFactor : Z) : mastNode :=
  MkNode [] [] [LNil].

(** Modelled from the spec: [uint8min] is defined outside the two files; the
    effective height of a key is [min(layer(key), H)]. *)
Definition uint8min (a b : Z) : Z := Z.min a b.

(** Modelled from the spec: [mastNode.copy] is defined outside the two files;
    it returns a copy that leaves the original untouched and shares the child
    links.  Nodes are values here, so the copy is the node. *)
Definition copy (n : mastNode) : mastNode := n.

(** A loop body run over the items of a slice, stopping at the first error. *)
Fixpoint foldR {A B} (body : A -> B -> res A) (items : list B) (a : A) : res A :=
  match items with
  | [] => Ok a
  | b :: rest => bindR (body a b) (foldR body rest)
  end.

(** [options.path[len(options.path)-1].node = n] *)
Definition setLastNode (p : list pathEntry.t) (n : mastNode) : res (list pathEntry.t) :=
  match length p with
  | O => Panic index_panic
  | S k =>
      bindR (index p k) (fun e =>
      assign p k {| pathEntry.node := n; pathEntry.linkIdx := pathEntry.linkIdx e |})
  end.

(** [key %v not present in tree] *)
Definition notPresent (key : iface) : error :=
  Errorf ("key " +:+ fmtV key +:+ " not present in tree").

(** [value not present for given key (found=%v, wanted=%v)] *)
Definition valueMismatch (found wanted : iface) : error :=
  Errorf ("value not present for given key (found=" +:+ fmtV found +:+
          ", wanted=" +:+ fmtV wanted +:+ ")").

Definition noPersist : error :=
  Errorf "no persistence mechanism set; set RemoteConfig.StoreImmutablePartsWith".

Definition mismatched (l : string) : error :=
  Errorf ("cannot unmarshal " +:+ l +:+ ": mismatched keys and values").

Definition atKey (i : nat) (l : string) : string :=
  "cannot unmarshal key[" +:+ fmtD i +:+ "] in " +:+ l.

Definition atValue (i : nat) (l : string) : string :=
  "cannot unmarshal value[" +:+ fmtD i +:+ "] in " +:+ l.

(** ** store.go *)

Section Source.
Context {helpers : Helpers}.

Definition defaultUnmarshal : unmarshalFn := jsonUnmarshal.
Definition defaultMarshal : marshalFn := jsonMarshal.

(** [func (node *mastNode) Load(m *Mast) (node, error)] *)
Definition mastNode_Load (n : mastNode) (m : Mast) : res mastNode := Ok n.

(** One round of [for i := 0; i < len(stringNode.Key); i++]. *)
Definition loadEntry (l : string) (m : Mast) (stringNode : stringNodeT)
    (n : mastNode) (i : nat) : res mastNode :=
  (if decide (zeroKey m = INil) then Panic "reflect: New(nil)" else
   let* keyBlob := index (snKey stringNode) i in
   let* newKey := wrapR (atKey i l) (intoLike (unmarshal m) (zeroKey m) keyBlob) in
   let* newValue :=
     (if decide (zeroValue m = INil) then Ok INil else
      let* valueBlob := index (snValue stringNode) i in
      wrapR (atValue i l) (intoLike (unmarshal m) (zeroValue m) valueBlob)) in
   let* ks := assign (Key n) i newKey in
   let* vs := assign (Value n) i newValue in
   Ok (MkNode ks vs (Link n)))%res.

(** [for i, l := range links { if l == "" { node.Link[i] = nil } else
    { node.Link[i] = l } }], with [i] the index of the head of [links]. *)
Fixpoint loadLinks (i : nat) (links : list string) (n : mastNode) : res mastNode :=
  match links with
  | [] => Ok n
  | l :: rest =>
      (let* ls := assign (Link n) i (if decide (l = "") then LNil else LHash l) in
       loadLinks (S i) rest (MkNode (Key n) (Value n) ls))%res
  end.

(** [func (l contentHash) Load(m *Mast) (node, error)] *)
Definition contentHash_Load (l : string) (m : Mast) : res mastNode :=
  match persist m with
  | None => Panic nil_panic
  | Some p =>
    (let* nodeBytes := wrapR ("failed loading " +:+ l) (PersistLoad p l) in
     let* stringNode := wrapR ("failed unmarshaling " +:+ l)
                         (intoNode (unmarshal m) nodeBytes) in
     if negb (length (snKey stringNode) =? length (snValue stringNode))%nat
     then Err (mismatched l)
     else
       let n := MkNode (replicate (length (snKey stringNode)) INil)
                       (replicate (length (snValue stringNode)) INil)
                       (replicate (length (snKey stringNode) + 1) LNil) in
       let* n := foldR (loadEntry l m stringNode)
                  (seq 0 (length (snKey stringNode))) n in
       match snLink stringNode with
       | Some links => loadLinks 0 links n
       | None => Ok n
       end)%res
  end.

(** [func (m *Mast) load(link link) (node, error)]: the method call
    [link.Load(m)] dispatches on what the interface holds, and panics on a
    nil interface. *)
Definition load (m : Mast) (l : link) : res mastNode :=
  match l with
  | LNil => Panic nil_panic
  | LHash h => contentHash_Load h m
  | LNode n => mastNode_Load n m
  end.

(** [func (m *Mast) store(node *mastNode) (link, error)] *)
Definition store (m : Mast) (n : mastNode) : res link :=
  (let* _ := validateNode n m in
   if (length (Link n) =? 1)%nat && isNil (default (LHash "") (Link n !! 0%nat))
   then Err (Errorf "bug! shouldn't be storing empty nodes")
   else Ok (LNode n))%res.

(** ** pub.go *)

(** [for m.size < m.shrinkBelowSize && m.height > 0 { ... m.shrink() ... }] *)
Fixpoint shrinkLoop (fuel : nat) : M unit :=
  fun m =>
    if (size m <? shrinkBelowSize m) && (0 <? height m) then
      match fuel with
      | O => (OutOfFuel, m)
      | S fuel' => (let* _ := wrapM "shrink" shrink in shrinkLoop fuel')%mast m
      end
    else (Ok tt, m).

(** [func (m *Mast) Delete(key interface{}, value interface{}) error], lines
    62 to 119: from the entry to the assignment to the last element of
    [options.path].  Nothing here assigns to [m]; the result is the path
    handed to [savePathForRoot]. *)
Definition Delete_plan (key value : iface) (m : Mast) : res (list pathEntry.t) :=
  (if isNil (root m) then Err (notPresent key) else
   let* n := wrapR "load root" (load m (root m)) in
   let* keyLayer_ := wrapR "layer" (keyLayer m key (branchFactor m)) in
   let options := {| targetLayer := uint8min keyLayer_ (height m);
                     currentHeight := height m;
                     createMissingNodes := false;
                     path := [] |} in
   let* '(n, i, options) := wrapR "findNode" (findNode n m key options) in
   if negb (targetLayer options =? currentHeight options)
      || (i =? length (Key n))%nat
   then Err (notPresent key) else
   let* ki := index (Key n) i in
   let* cmp := wrapR "keyCompare" (keyOrder m ki key) in
   if negb (cmp =? 0) then Err (notPresent key) else
   let* vi := index (Value n) i in
   if negb (bool_decide (vi = value)) then Err (valueMismatch vi value) else
   let oldNode := n in
   let* k1 := sliceTo (Key oldNode) i in
   let* k2 := sliceFrom (Key oldNode) (i + 1) in
   let* v1 := sliceTo (Value oldNode) i in
   let* v2 := sliceFrom (Value oldNode) (i + 1) in
   let* l1 := sliceTo (Link oldNode) i in
   let* l2 := sliceFrom (Link oldNode) (i + 1) in
   let n := MkNode (k1 ++ k2) (v1 ++ v2) (l1 ++ l2) in
   let* a := index (Link oldNode) i in
   let* b := index (Link oldNode) (i + 1) in
   let* mergedLink := wrapR "merge" (mergeNodes m a b) in
   let* ls := assign (Link n) i mergedLink in
   let n := MkNode (Key n) (Value n) ls in
   let* _ := validateNode n m in
   setLastNode (path options) n)%res.

(** [Delete], lines 120 to 131: save the path, decrement the size, shrink. *)
Definition Delete (fuel : nat) (key value : iface) : M unit :=
  (let* m := getM in
   let* p := liftR (Delete_plan key value m) in
   let* _ := wrapM "savePathForRoot" (savePathForRoot p) in
   let* _ := modifyM (fun m => set_size (wrap64 (size m - 1)) m) in
   shrinkLoop fuel)%mast.

(** [func (m *Mast) flush() (string, error)] *)
Definition flush : M string :=
  (let* m := getM in
   match persist m with
   | None => failM noPersist
   | Some p =>
     let* n := liftR (wrapR "load root" (load m (root m))) in
     let* str := liftR (mastNode_store n p (nodeCache m) (marshal m)) in
     let* _ := modifyM (set_root (LHash str)) in
     retM str
   end)%mast.

(** [func (m *Mast) Get(k interface{}, value interface{}) (bool, error)].
    [value] is nil ([None]) or a pointer to a variable of type [interface{}];
    [Some old] gives the variable's contents, and the result gives its
    contents after the call next to the boolean. *)
Definition Get (k : iface) (value : option iface) : M (bool * option iface) :=
  (let* m := getM in
   if isNil (root m) then retM (false, value) else
   let* n := liftR (load m (root m)) in
   let* keyLayer_ := liftR (wrapR "layer" (keyLayer m k (branchFactor m))) in
   let options := {| targetLayer := uint8min keyLayer_ (height m);
                     currentHeight := height m;
                     createMissingNodes := false;
                     path := [] |} in
   let* '(n, i, options) := liftR (findNode n m k options) in
   if (length (Key n) <=? i)%nat
      || negb (targetLayer options =? currentHeight options)
   then retM (false, value) else
   let* ki := liftR (index (Key n) i) in
   let* cmp := liftR (wrapR "keyCompare" (keyOrder m ki k)) in
   if negb (cmp =? 0) then retM (false, value) else
   match value with
   | Some old =>
       let* vi := liftR (index (Value n) i) in
       if bool_decide (vi = INil) then retM (true, Some old)
       else retM (true, Some vi)
   | None => retM (true, None)
   end)%mast.

(** [for m.size >= m.growAfterSize { ... canGrow ... m.grow() ... }], with
    [p] the slice [options.path]. *)
Fixpoint growLoop (fuel : nat) (p : list pathEntry.t) : M unit :=
  fun m =>
    if growAfterSize m <=? size m then
      match fuel with
      | O => (OutOfFuel, m)
      | S fuel' =>
          (let* e := liftR (index p 0) in
           let* canGrow_ := liftR (wrapR "canGrow"
                         (canGrow (pathEntry.node e) (height m) (keyLayer m)
                                  (branchFactor m))) in
           if negb canGrow_ then retM tt else
           let* _ := wrapM "grow" grow in
           growLoop fuel' p)%mast m
      end
    else (Ok tt, m).

(** The three ways [Insert] can leave lines 218 to 295: [return nil] at line
    246 (the key is there with this very value), the path to save for a
    replaced value (line 250), the path to save for an added entry (line
    295). *)
Inductive insertPlan : Type :=
| NoChange
| Replace (p : list pathEntry.t)
| Add (p : list pathEntry.t).

(** [func (m *Mast) Insert(key interface{}, value interface{}) error], lines
    218 to 295.  Nothing here assigns to [m]. *)
Definition Insert_plan (key value : iface) (m : Mast) : res insertPlan :=
  (let* keyLayer_ := wrapR "layer" (keyLayer m key (branchFactor m)) in
   let options := {| targetLayer := uint8min keyLayer_ (height m);
                     currentHeight := height m;
                     createMissingNodes := true;
                     path := [] |} in
   let* n := load m (root m) in
   let* '(n, i, options) := findNode n m key options in
   if negb (targetLayer options =? currentHeight options)
   then Panic "dunno why we didn't land in the right layer" else
   let* found :=
     (if (i <? length (Key n))%nat then
        let* ki := index (Key n) i in
        let* cmp := wrapR "keyCompare" (keyOrder m ki key) in
        Ok (cmp =? 0)
      else Ok false) in
   if found : bool then
     let* vi := index (Value n) i in
     if bool_decide (vi = value) then Ok NoChange else
     let n := copy n in
     let* vs := assign (Value n) i value in
     let n := MkNode (Key n) vs (Link n) in
     let* p := setLastNode (path options) n in
     Ok (Replace p)
   else
     let oldKeys := Key n in
     let n := copy n in
     let* ks := sliceTo oldKeys i in
     let* ks := assign (copy_ (replicate (length oldKeys + 1) INil) ks) i key in
     let oldValues := Value n in
     let* vs := sliceTo oldValues i in
     let* vs := assign (copy_ (replicate (length oldValues + 1) INil) vs) i value in
     let oldLinks := Link n in
     let* ls := sliceTo oldLinks i in
     let ls := copy_ (replicate (length oldLinks + 1) LNil) ls in
     let* '(ks, vs, ls) :=
        (if (i <? length ks)%nat then
           let* src := sliceFrom oldKeys i in
           let* ks := copyAt ks (i + 1) src in
           let* src := sliceFrom oldValues i in
           let* vs := copyAt vs (i + 1) src in
           let* src := sliceFrom oldLinks (i + 1) in
           let* ls := copyAt ls (i + 2) src in
           Ok (ks, vs, ls)
         else Ok (ks, vs, ls)) in
     let* old_i := index oldLinks i in
     let* '(leftLink, rightLink) :=
        (if negb (isNil old_i) then
           let* child := load m old_i in
           wrapR "split" (split child key m)
         else
           let* r := index ls i in
           Ok (LNil, r)) in
     let* ls := assign ls i leftLink in
     let* ls := assign ls (i + 1) rightLink in
     let n := MkNode ks vs ls in
     let* p := setLastNode (path options) n in
     Ok (Add p))%res.

(** [Insert], the returns at lines 246 and 251 and lines 296 to 319: save the
    path, grow while the size calls for it, increment the size. *)
Definition Insert (fuel : nat) (key value : iface) : M unit :=
  (let* m := getM in
   let* plan := liftR (Insert_plan key value m) in
   match plan with
   | NoChange => retM tt
   | Replace p =>
       let* _ := savePathForRoot p in
       retM tt
   | Add p =>
       let* p := wrapM "save new root" (savePathForRoot p) in
       let* _ := growLoop fuel p in
       modifyM (fun m => set_size (wrap64 (size m + 1)) m)
   end)%mast.

(** The loop [for i := 0; i < int(r.Height); i++ { shrinkSize *= uint64(r.BranchFactor) }]
    started from [shrinkSize := uint64(1)]. *)
Definition shrinkSizeLoop (height_ branchFactor_ : Z) : Z :=
  Nat.iter (Z.to_nat height_) (fun shrinkSize => wrap64 (shrinkSize * branchFactor_)) 1.

(** [func (r *Root) LoadMast(config RemoteConfig) (tree, error)] *)
Definition LoadMast (r : Root.t) (config : RemoteConfig.t) : res Mast :=
  let link_ :=
    match Root.Link r with
    | Some l => LHash l
    | None => LNode (emptyNodePointer (Root.BranchFactor r))
    end in
  let shrinkSize := shrinkSizeLoop (Root.Height r) (Root.BranchFactor r) in
  let m :=
    {| root := link_;
       zeroKey := RemoteConfig.KeysLike config;
       zeroValue := RemoteConfig.ValuesLike config;
       unmarshal := match RemoteConfig.Unmarshal config with
                    | Some f => f
                    | None => defaultUnmarshal
                    end;
       marshal := match RemoteConfig.Marshal config with
                  | Some f => f
                  | None => defaultMarshal
                  end;
       unmarshalerUsesRegisteredTypes :=
         RemoteConfig.UnmarshalerUsesRegisteredTypes config;
       keyOrder := defaultOrder;
       keyLayer := defaultLayer;
       branchFactor := Root.BranchFactor r;
       size := 0;
       height := Root.Height r;
       persist := RemoteConfig.StoreImmutablePartsWith config;
       shrinkBelowSize := shrinkSize;
       growAfterSize := wrap64 (shrinkSize * Root.BranchFactor r);
       nodeCache := RemoteConfig.NodeCache config;
       debug := false |} in
  (let* _ := wrapR "checkRoot" (checkRoot m) in
   Ok m)%res.

(** [func (m *Mast) MakeRoot() (root, error)] *)
Definition MakeRoot : M Root.t :=
  (let* link_ := wrapM "flush" flush in
   let* m := getM in
   retM {| Root.Link := Some link_;
           Root.Size := size m;
           Root.Height := height m;
           Root.BranchFactor := branchFactor m |})%mast.

(** [func NewInMemory() Mast] *)
Definition NewInMemory : Mast :=
  {| root := LNode (emptyNodePointer DefaultBranchFactor);
     zeroKey := INil;
     zeroValue := INil;
     unmarshal := defaultUnmarshal;
     marshal := defaultMarshal;
     unmarshalerUsesRegisteredTypes := false;
     keyOrder := defaultOrder;
     keyLayer := defaultLayer;
     branchFactor := DefaultBranchFactor;
     size := 0;
     height := 0;
     persist := None;
     shrinkBelowSize := 1;
     growAfterSize := DefaultBranchFactor;
     nodeCache := None;
     debug := false |}.

(** [func NewRoot(remoteOptions *CreateRemoteOptions) *Root] *)
Definition NewRoot (remoteOptions : option CreateRemoteOptions) : Root.t :=
  let branchFactor_ :=
    match remoteOptions with
    | Some o => if 0 <? BranchFactor o then BranchFactor o else DefaultBranchFactor
    | None => DefaultBranchFactor
    end in
  {| Root.Link := None; Root.Size := 0; Root.Height := 0;
     Root.BranchFactor := branchFactor_ |}.

(** [func (m Mast) Size() uint64] *)
Definition Size (m : Mast) : Z := size m.

End Source.

(** ** The helpers, modelled from the specification

    The specification describes what the functions behind [Helpers] do.  The
    module below writes those descriptions out as executable definitions and
    collects them in one implementation, [Spec.helpers], on which the
    operations can be run. *)

Module Spec.

(** Modelled from the spec: [mastNode.isEmpty] lies outside the two files; an
    empty subtree is represented as nil, and the empty node is the one with
    no entry and a single nil link. *)
Definition isEmpty (n : mastNode) : bool :=
  match n with
  | MkNode [] _ [LNil] => true
  | _ => false
  end.

Definition linkTo (n : mastNode) : link :=
  if isEmpty n then LNil else LNode n.

(** Modelled from the spec: the search for the insertion point of [key] among
    the keys of a node lies outside the two files (section 4.3, step 1); the
    insertion point is the first index whose key is not below [key]. *)
Fixpoint search (order : iface -> iface -> res Z) (keys : list iface)
    (key : iface) : res nat :=
  match keys with
  | [] => Ok 0%nat
  | k :: rest =>
      (let* c := order k key in
       if c <? 0 then (let* i := search order rest key in Ok (S i))
       else Ok 0%nat)%res
  end.

(** Modelled from the spec: [mastNode.findNode] lies outside the two files
    (section 4.3): search the node, record [(node, i)] on the path, stop at
    the target height, otherwise follow [Link[i]], which is loaded, or, when
    it is nil, materialized as an empty node if [createMissingNodes] is set;
    with the flag unset the descent stops above the target. *)
Fixpoint findNodeFrom (fuel : nat) (n : mastNode) (m : Mast) (key : iface)
    (options : findOptions) : res (mastNode * nat * findOptions) :=
  (let* i := search (keyOrder m) (Key n) key in
   let here := {| targetLayer := targetLayer options;
                  currentHeight := currentHeight options;
                  createMissingNodes := createMissingNodes options;
                  path := path options ++
                          [{| pathEntry.node := n; pathEntry.linkIdx := i |}] |} in
   if currentHeight options =? targetLayer options then Ok (n, i, here) else
   let* child := index (Link n) i in
   if isNil child && negb (createMissingNodes options) then Ok (n, i, here) else
   let* c := (if isNil child then Ok (emptyNodePointer (branchFactor m))
              else load m child) in
   match fuel with
   | O => OutOfFuel
   | S fuel' =>
       findNodeFrom fuel' c m key
         {| targetLayer := targetLayer here;
            currentHeight := currentHeight here - 1;
            createMissingNodes := createMissingNodes here;
            path := path here |}
   end)%res.

Definition findNode (n : mastNode) (m : Mast) (key : iface)
    (options : findOptions) : res (mastNode * nat * findOptions) :=
  findNodeFrom (Z.to_nat (currentHeight options)) n m key options.

(** Modelled from the spec: [split] lies outside the two files (section 4.2):
    entries below the pivot go left, entries above it go right, the child
    that straddles the pivot is split in turn, and a side left empty is
    nil. *)
Fixpoint splitFrom (fuel : nat) (n : mastNode) (key : iface) (m : Mast)
    : res (link * link) :=
  (let* i := search (keyOrder m) (Key n) key in
   let* child := index (Link n) i in
   let* '(l, r) :=
     (if isNil child then Ok (LNil, LNil) else
      match fuel with
      | O => OutOfFuel
      | S fuel' => let* c := load m child in splitFrom fuel' c key m
      end) in
   Ok (linkTo (MkNode (take i (Key n)) (take i (Value n))
                      (take i (Link n) ++ [l])),
       linkTo (MkNode (drop i (Key n)) (drop i (Value n))
                      (r :: drop (S i) (Link n)))))%res.

Definition split (n : mastNode) (key : iface) (m : Mast) : res (link * link) :=
  splitFrom (Z.to_nat (height m)) n key m.

(** Modelled from the spec: [mergeNodes] lies outside the two files (section
    4.2): the entries of the two nodes are concatenated and the one pair of
    inner children that meet in the middle is merged in turn. *)
Fixpoint mergeFrom (fuel : nat) (m : Mast) (a b : link) : res link :=
  match a, b with
  | LNil, _ => Ok b
  | _, LNil => Ok a
  | _, _ =>
      match fuel with
      | O => OutOfFuel
      | S fuel' =>
          (let* x := load m a in
           let* y := load m b in
           let* mid := mergeFrom fuel' m (List.last (Link x) LNil)
                                 (List.hd LNil (Link y)) in
           Ok (LNode (MkNode (Key x ++ Key y) (Value x ++ Value y)
                             (removelast (Link x) ++ mid :: List.tl (Link y)))))%res
      end
  end.

Definition mergeNodes (m : Mast) (a b : link) : res link :=
  mergeFrom (S (Z.to_nat (height m))) m a b.

(** Modelled from the spec: [mastNode.canGrow] lies outside the two files
    (section 4.4, step 5): the node can grow when it holds an entry whose
    layer exceeds the height. *)
Fixpoint canGrowKeys (keys : list iface) (height_ : Z)
    (keyLayer_ : iface -> Z -> res Z) (branchFactor_ : Z) : res bool :=
  match keys with
  | [] => Ok false
  | k :: rest =>
      (let* layer := keyLayer_ k branchFactor_ in
       if height_ <? layer then Ok true
       else canGrowKeys rest height_ keyLayer_ branchFactor_)%res
  end.

Definition canGrow (n : mastNode) (height_ : Z)
    (keyLayer_ : iface -> Z -> res Z) (branchFactor_ : Z) : res bool :=
  canGrowKeys (Key n) height_ keyLayer_ branchFactor_.

(** Modelled from the spec: [savePathForRoot] lies outside the two files
    (section 4.4, step 4): walk the path from the leaf to the root, replacing
    each parent's link to the changed child with the new child; the head of
    the path becomes the root. *)
Fixpoint relink (p : list pathEntry.t) : res (list pathEntry.t) :=
  match p with
  | [] => Ok []
  | e :: rest =>
      (let* rest' := relink rest in
       match rest' with
       | [] => Ok [e]
       | c :: _ =>
           let n := pathEntry.node e in
           let* ls := assign (Link n) (pathEntry.linkIdx e)
                             (linkTo (pathEntry.node c)) in
           Ok ({| pathEntry.node := MkNode (Key n) (Value n) ls;
                  pathEntry.linkIdx := pathEntry.linkIdx e |} :: rest')
       end)%res
  end.

Definition savePathForRoot (p : list pathEntry.t) : M (list pathEntry.t) :=
  (let* p' := liftR (relink p) in
   let* e := liftR (index p' 0) in
   let* _ := modifyM (set_root (LNode (pathEntry.node e))) in
   retM p')%mast.

Definition reshape (l : link) (height_ shrinkBelowSize_ growAfterSize_ : Z)
    (m : Mast) : Mast :=
  {| root := l; zeroKey := zeroKey m; zeroValue := zeroValue m;
     unmarshal := unmarshal m; marshal := marshal m;
     unmarshalerUsesRegisteredTypes := unmarshalerUsesRegisteredTypes m;
     keyOrder := keyOrder m; keyLayer := keyLayer m;
     branchFactor := branchFactor m; size := size m; height := height_;
     persist := persist m; shrinkBelowSize := shrinkBelowSize_;
     growAfterSize := growAfterSize_; nodeCache := nodeCache m;
     debug := debug m |}.

(** Modelled from the spec: [grow] lies outside the two files (section 4.6):
    a new root one level up keeps the entries of the old root whose layer
    exceeds the old height; the runs of entries between them stay below, each
    as one child of the new root; the height and both thresholds are
    updated. *)
Fixpoint growParts (layerOf : iface -> res Z) (height_ : Z)
    (keys values : list iface) (links : list link) (cur : mastNode)
    : res mastNode :=
  match keys, values, links with
  | k :: ks, v :: vs, l :: ls =>
      let cur := MkNode (Key cur) (Value cur) (Link cur ++ [l]) in
      (let* layer := layerOf k in
       if height_ <? layer then
         let* rest := growParts layerOf height_ ks vs ls (MkNode [] [] []) in
         Ok (MkNode (k :: Key rest) (v :: Value rest) (linkTo cur :: Link rest))
       else
         growParts layerOf height_ ks vs ls
                   (MkNode (Key cur ++ [k]) (Value cur ++ [v]) (Link cur)))%res
  | [], [], [l] =>
      Ok (MkNode [] [] [linkTo (MkNode (Key cur) (Value cur) (Link cur ++ [l]))])
  | _, _, _ => Panic index_panic
  end.

Definition grow : M unit :=
  (let* m := getM in
   let* n := liftR (load m (root m)) in
   let* newRoot := liftR (growParts (fun k => keyLayer m k (branchFactor m))
                                    (height m) (Key n) (Value n) (Link n)
                                    (MkNode [] [] [])) in
   modifyM (reshape (LNode newRoot) (wrap8 (height m + 1))
                    (wrap64 (shrinkBelowSize m * branchFactor m))
                    (wrap64 (growAfterSize m * branchFactor m))))%mast.

(** Modelled from the spec: [shrink] lies outside the two files (section
    4.6): the entries of the old root are folded down, between its children,
    into one node a level lower; the height and both thresholds are
    updated. *)
Fixpoint foldDown (m : Mast) (keys values : list iface) (links : list link)
    : res mastNode :=
  match links with
  | [] => Panic index_panic
  | l :: ls =>
      (let* c := (if isNil l then Ok (MkNode [] [] [LNil]) else load m l) in
       match keys, values with
       | k :: ks, v :: vs =>
           let* rest := foldDown m ks vs ls in
           Ok (MkNode (Key c ++ k :: Key rest) (Value c ++ v :: Value rest)
                      (Link c ++ Link rest))
       | [], [] => match ls with [] => Ok c | _ => Panic index_panic end
       | _, _ => Panic index_panic
       end)%res
  end.

Definition shrink : M unit :=
  (let* m := getM in
   let* n := liftR (load m (root m)) in
   let* newRoot := liftR (foldDown m (Key n) (Value n) (Link n)) in
   if branchFactor m =? 0 then panicM "runtime error: integer divide by zero" else
   modifyM (reshape (LNode newRoot) (wrap8 (height m - 1))
                    (shrinkBelowSize m / branchFactor m)
                    (growAfterSize m / branchFactor m)))%mast.

(** Modelled from the spec: [checkRoot] lies outside the two files (section
    4.7): it verifies that the root node loads and parses. *)
Definition checkRoot (m : Mast) : res unit :=
  (let* _ := load m (root m) in Ok tt)%res.

(** Modelled from the spec: [validateNode] lies outside the two files; a
    failed structural invariant is fatal.  The check is invariant 1 of
    section 3. *)
Definition validateNode (n : mastNode) (m : Mast) : res unit :=
  if (length (Key n) =? length (Value n))%nat
     && (length (Link n) =? length (Key n) + 1)%nat
  then Ok tt else Panic "invalid node".

Fixpoint mapR {A B} (f : A -> res B) (l : list A) : res (list B) :=
  match l with
  | [] => Ok []
  | a :: rest => (let* b := f a in let* bs := mapR f rest in Ok (b :: bs))%res
  end.

(** Modelled from the spec: the identifier of a stored node is a content hash
    whose choice is left to the collaborator (section 4.7, step 3).  Here it
    is the 64-bit FNV-1 hash of the encoding, written in decimal. *)
Definition contentId (encoded : bytes) : string :=
  pretty (fold_left (fun h b => Z.lxor (wrap64 (h * 1099511628211))
                                       (Z.of_N (Byte.to_N b)))
                    encoded 14695981039346656037).

(** Modelled from the spec: [mastNode.store] lies outside the two files
    (section 4.7, flush): children first, each inline child replaced by its
    identifier; then the node is serialized, stored under its identifier, and
    the identifier returned.  A [Link] array of nils is omitted (section
    6). *)
Fixpoint storeFrom (fuel : nat) (n : mastNode) (p : Persist)
    (marshal_ : marshalFn) : res string :=
  match fuel with
  | O => OutOfFuel
  | S fuel' =>
      (let* links := mapR (fun l => match l with
                                    | LNil => Ok ""
                                    | LHash h => Ok h
                                    | LNode c => storeFrom fuel' c p marshal_
                                    end) (Link n) in
       let* keys := mapR (ofValue marshal_) (Key n) in
       let* values := mapR (ofValue marshal_) (Value n) in
       let* encoded := ofNode marshal_
                         {| snKey := keys; snValue := values;
                            snLink := if forallb (String.eqb "") links
                                      then None else Some links |} in
       let* _ := PersistStore p (contentId encoded) encoded in
       Ok (contentId encoded))%res
  end.

Definition mastNode_store (n : mastNode) (p : Persist)
    (cache : option NodeCache) (marshal_ : marshalFn) : res string :=
  storeFrom 257 n p marshal_.

(** *** A small codec, standing where [encoding/json] stands

    A key or value is written as [null], as a decimal numeral or as a string
    between double quotes; a node is written as three lines (keys, values,
    links), every item followed by a semicolon, and a dash for an omitted
    [Link]. *)

Definition bytesOf (s : string) : bytes := list_byte_of_string s.

Definition semicolon : byte := "059"%byte.
Definition newline : byte := "010"%byte.
Definition dash : byte := "045"%byte.
Definition quote : byte := "034"%byte.

Definition codecError : error := Errorf "invalid character".

Fixpoint digitsFrom (bs : bytes) (acc : Z) : option Z :=
  match bs with
  | [] => Some acc
  | b :: rest =>
      let d := Z.of_N (Byte.to_N b) - 48 in
      if (0 <=? d) && (d <=? 9) then digitsFrom rest (acc * 10 + d) else None
  end.

Definition parseInt (bs : bytes) : res iface :=
  match bs with
  | [] => Err codecError
  | b :: rest =>
      if Byte.eqb b dash then
        match rest with
        | [] => Err codecError
        | _ => match digitsFrom rest 0 with
               | Some z => Ok (IInt (- z))
               | None => Err codecError
               end
        end
      else match digitsFrom bs 0 with
           | Some z => Ok (IInt z)
           | None => Err codecError
           end
  end.

Fixpoint splitOn (sep : byte) (bs : bytes) : list bytes :=
  match bs with
  | [] => [[]]
  | b :: rest =>
      let segs := splitOn sep rest in
      if Byte.eqb b sep then [] :: segs
      else match segs with
           | s :: t => (b :: s) :: t
           | [] => [[b]]
           end
  end.

Definition items (section : bytes) : res (list bytes) :=
  let segs := splitOn semicolon section in
  match List.last segs [] with
  | [] => Ok (removelast segs)
  | _ => Err codecError
  end.

Definition writeItems (l : list bytes) : bytes :=
  concat (map (fun x => x ++ [semicolon]) l).

Definition codecMarshal : marshalFn :=
  {| ofNode := fun sn =>
       Ok (writeItems (snKey sn) ++ [newline] ++
           writeItems (snValue sn) ++ [newline] ++
           match snLink sn with
           | Some links => writeItems (map bytesOf links)
           | None => [dash]
           end);
     ofValue := fun v => Ok (match v with
                             | INil => bytesOf "null"
                             | IInt z => bytesOf (pretty z)
                             | IStr s => quote :: bytesOf s ++ [quote]
                             end) |}.

Definition parseString (bs : bytes) : res iface :=
  match bs with
  | b :: rest =>
      if Byte.eqb b quote && Byte.eqb (List.last rest dash) quote
      then Ok (IStr (string_of_list_byte (removelast rest)))
      else Err codecError
  | [] => Err codecError
  end.

Definition codecUnmarshal : unmarshalFn :=
  {| intoNode := fun bs =>
       match splitOn newline bs with
       | [ks; vs; ls] =>
           (let* keys := items ks in
            let* values := items vs in
            let* links := (if decide (ls = [dash]) then Ok None else
                           let* l := items ls in
                           Ok (Some (map string_of_list_byte l))) in
            Ok {| snKey := keys; snValue := values; snLink := links |})%res
       | _ => Err codecError
       end;
     intoLike := fun proto blob =>
       match proto with
       | INil => Err (Errorf "Unmarshal(nil)")
       | IInt _ => parseInt blob
       | IStr _ => parseString blob
       end |}.

Fixpoint lexCompare (a b : bytes) : Z :=
  match a, b with
  | [], [] => 0
  | [], _ :: _ => -1
  | _ :: _, [] => 1
  | x :: a', y :: b' =>
      if (Byte.to_N x <? Byte.to_N y)%N then -1
      else if (Byte.to_N y <? Byte.to_N x)%N then 1
      else lexCompare a' b'
  end.

(** Modelled from the spec: [defaultOrder] lies outside the two files
    (section 4.1): the default order compares the serialized forms. *)
Definition defaultOrder (a b : iface) : res Z :=
  (let* x := ofValue codecMarshal a in
   let* y := ofValue codecMarshal b in
   Ok (lexCompare x y))%res.

Fixpoint trailingZeros (fuel : nat) (base z : Z) : Z :=
  match fuel with
  | O => 0
  | S fuel' =>
      if (1 <? base) && (0 <? z) && (z mod base =? 0)
      then 1 + trailingZeros fuel' base (z / base)
      else 0
  end.

(** Modelled from the spec: [defaultLayer] lies outside the two files
    (section 4.1): hash the serialized key, read the digest as a numeral in
    base [branchFactor], count its trailing zero digits.  The digest here is
    the serialized key read as a big-endian number. *)
Definition defaultLayer (key : iface) (branchFactor_ : Z) : res Z :=
  (let* b := ofValue codecMarshal key in
   Ok (trailingZeros 255 branchFactor_
         (fold_left (fun acc x => acc * 256 + Z.of_N (Byte.to_N x)) b 0)))%res.

End Spec.

(** The implementation of [Helpers] that module [Spec] makes up. *)
Definition specHelpers : Helpers :=
  {| findNode := Spec.findNode;
     split := Spec.split;
     mergeNodes := Spec.mergeNodes;
     canGrow := Spec.canGrow;
     savePathForRoot := Spec.savePathForRoot;
     grow := Spec.grow;
     shrink := Spec.shrink;
     checkRoot := Spec.checkRoot;
     validateNode := Spec.validateNode;
     mastNode_store := Spec.mastNode_store;
     defaultOrder := Spec.defaultOrder;
     defaultLayer := Spec.defaultLayer;
     jsonUnmarshal := Spec.codecUnmarshal;
     jsonMarshal := Spec.codecMarshal |}.

(** ** Trees and stores to run the operations on *)

Module Fixture.

(** [NewInMemory()] *)
Definition empty : Mast := NewInMemory (helpers := specHelpers).

(** [Insert(k, 100*k)] for each [k] of [keys] in turn, stopping at the first
    call that does not return nil. *)
Fixpoint insertInts (keys : list Z) (m : Mast) : res unit * Mast :=
  match keys with
  | [] => (Ok tt, m)
  | k :: rest =>
      match Insert (helpers := specHelpers) 256 (IInt k) (IInt (100 * k)) m with
      | (Ok _, m') => insertInts rest m'
      | other => other
      end
  end.

(** The tree after [Insert(k, 100*k)] for [k = 1 .. 15]. *)
Definition fifteen : Mast :=
  snd (insertInts (map Z.of_nat (seq 1 15)) empty).

(** A blob store that holds [blobs]; every other [Load] fails. *)
Definition storeOf (blobs : list (string * bytes)) : Persist :=
  {| PersistStore := fun _ _ => Ok tt;
     PersistLoad := fun name =>
       match List.find (fun b => String.eqb (fst b) name) blobs with
       | Some b => Ok (snd b)
       | None => Err (Errorf ("no blob named " +:+ name))
       end |}.

(** The encoding of a node under the small codec. *)
Definition encode (keys values : list string) (links : option (list string)) : bytes :=
  Spec.writeItems (map Spec.bytesOf keys) ++ [Spec.newline] ++
  Spec.writeItems (map Spec.bytesOf values) ++ [Spec.newline] ++
  match links with
  | Some l => Spec.writeItems (map Spec.bytesOf l)
  | None => [Spec.dash]
  end.

(** [m.persist = p], as a test in the package sets it. *)
Definition withPersist (p : Persist) (m : Mast) : Mast :=
  {| root := root m; zeroKey := zeroKey m; zeroValue := zeroValue m;
     unmarshal := unmarshal m; marshal := marshal m;
     unmarshalerUsesRegisteredTypes := unmarshalerUsesRegisteredTypes m;
     keyOrder := keyOrder m; keyLayer := keyLayer m;
     branchFactor := branchFactor m; size := size m; height := height m;
     persist := Some p; shrinkBelowSize := shrinkBelowSize m;
     growAfterSize := growAfterSize m; nodeCache := nodeCache m;
     debug := debug m |}.

(** A persisted tree of height 1: the root [R] holds the key 10 (layer 1)
    between the leaves [A] and [B]; the store can serve [R] and [A], and
    fails on [B]. *)
Definition flaky : Persist :=
  storeOf [("R", encode ["10"] ["1000"] (Some ["A"; "B"]));
           ("A", encode ["1"] ["100"] None)].

Definition intConfig (p : Persist) : RemoteConfig.t :=
  {| RemoteConfig.KeysLike := IInt 0;
     RemoteConfig.ValuesLike := IInt 0;
     RemoteConfig.StoreImmutablePartsWith := Some p;
     RemoteConfig.Unmarshal := None;
     RemoteConfig.Marshal := None;
     RemoteConfig.UnmarshalerUsesRegisteredTypes := false;
     RemoteConfig.NodeCache := None |}.

(** The same configuration without [ValuesLike]: a set of keys. *)
Definition keysOnlyConfig (p : Persist) : RemoteConfig.t :=
  {| RemoteConfig.KeysLike := IInt 0;
     RemoteConfig.ValuesLike := INil;
     RemoteConfig.StoreImmutablePartsWith := Some p;
     RemoteConfig.Unmarshal := None;
     RemoteConfig.Marshal := None;
     RemoteConfig.UnmarshalerUsesRegisteredTypes := false;
     RemoteConfig.NodeCache := None |}.

Definition handleR : Root.t :=
  {| Root.Link := Some "R"; Root.Size := 3; Root.Height := 1;
     Root.BranchFactor := 16 |}.

(** The tree [LoadMast] builds for a root handle, or the empty in-memory tree
    where [LoadMast] fails. *)
Definition loaded (r : Root.t) (config : RemoteConfig.t) : Mast :=
  match LoadMast (helpers := specHelpers) r config with
  | Ok m => m
  | _ => empty
  end.

(** [handleR] loaded from the flaky store, then [Insert(-5, -500)]. *)
Definition flakyTree : Mast :=
  snd (insertInts [-5] (loaded handleR (intConfig flaky))).

(** Serialized nodes that are malformed, each in its own way. *)
Definition malformed : Persist :=
  storeOf [("long", encode [] [] (Some ["a"; "b"]));
           ("uneven", encode ["1"; "2"] ["100"] None);
           ("badkey", encode ["1"; "x"] ["100"; "200"] None);
           ("badvalue", encode ["1"; "2"] ["100"; "y"] (Some ["a"; ""; "c"]))].

Definition malformedTree : Mast :=
  withPersist malformed
    (loaded (NewRoot None) (intConfig malformed)).

Definition malformedKeysOnly : Mast :=
  withPersist malformed
    (loaded (NewRoot None) (keysOnlyConfig malformed)).

(** A root handle whose height makes the thresholds overflow 64 bits. *)
Definition tallHandle : Root.t :=
  {| Root.Link := None; Root.Size := 0; Root.Height := 16;
     Root.BranchFactor := 16 |}.

(** What the blobs [long] and [badvalue] of [malformed] decode to. *)
Definition longNode : stringNodeT :=
  {| snKey := []; snValue := []; snLink := Some ["a"; "b"] |}.

Definition badvalueNode : stringNodeT :=
  {| snKey := [Spec.bytesOf "1"; Spec.bytesOf "2"];
     snValue := [Spec.bytesOf "100"; Spec.bytesOf "y"];
     snLink := Some ["a"; ""; "c"] |}.

(** [NewInMemory()], then [Insert(5, nil)]. *)
Definition withNil : Mast :=
  snd (Insert (helpers := specHelpers) 256 (IInt 5) INil empty).

(** The path [Insert(16, 1600)] saves on the tree [fifteen]. *)
Definition addPath : list pathEntry.t :=
  Eval vm_compute in
    match Insert_plan (helpers := specHelpers) (IInt 16) (IInt 1600) fifteen with
    | Ok (Add p) => p
    | _ => []
    end.

End Fixture.

(** ** Presence of a key, as the operations decide it *)

Section Presence.
Context {helpers : Helpers}.

(** The place [findNode] reaches for [key] from the root, called the way
    [Get] and [Delete] call it ([create = false]) or the way [Insert] calls
    it ([create = true]): the node, the index in it, and the options as
    [findNode] leaves them. *)
Definition reach (create : bool) (m : Mast) (key : iface)
    : res (mastNode * nat * findOptions) :=
  (let* n := load m (root m) in
   let* keyLayer_ := keyLayer m key (branchFactor m) in
   findNode n m key {| targetLayer := uint8min keyLayer_ (height m);
                       currentHeight := height m;
                       createMissingNodes := create;
                       path := [] |})%res.

(** The place is in the layer of [key] and holds an entry whose key compares
    equal to [key] and whose value is [value]. *)
Definition entryAt (m : Mast) (place : mastNode * nat * findOptions)
    (key value : iface) : Prop :=
  let '(n, i, options) := place in
  targetLayer options = currentHeight options
  /\ exists ki, Key n !! i = Some ki
                /\ keyOrder m ki key = Ok 0
                /\ Value n !! i = Some value.

(** The place holds no entry for [key]: the search stopped above the layer of
    [key], or at the end of the node, or at a key that compares different. *)
Definition noEntryAt (m : Mast) (place : mastNode * nat * findOptions)
    (key : iface) : Prop :=
  let '(n, i, options) := place in
  targetLayer options <> currentHeight options
  \/ i = length (Key n)
  \/ exists ki c, Key n !! i = Some ki /\ keyOrder m ki key = Ok c /\ c <> 0.

(** [key] is in the tree with value [value]. *)
Definition present (m : Mast) (key value : iface) : Prop :=
  exists place, reach false m key = Ok place /\ entryAt m place key value.

(** [key] is not in the tree: the tree has no root, or the search for [key]
    ends at a place without an entry for it. *)
Definition absent (m : Mast) (key : iface) : Prop :=
  root m = LNil
  \/ exists place, reach false m key = Ok place /\ noEntryAt m place key.

(** The node [Delete] puts in the place of [n] to remove entry [i], with
    [mergedLink] for the two children around it. *)
Definition without (n : mastNode) (i : nat) (mergedLink : link) : mastNode :=
  MkNode (delete i (Key n)) (delete i (Value n))
         (<[i:=mergedLink]> (delete i (Link n))).

(** The node [Insert] puts in the place of [n] to replace the value of entry
    [i], and the one it puts there to add an entry at index [i], between the
    links [leftLink] and [rightLink]. *)
Definition withValue (n : mastNode) (i : nat) (value : iface) : mastNode :=
  MkNode (Key n) (<[i:=value]> (Value n)) (Link n).

Definition withEntry (n : mastNode) (i : nat) (key value : iface)
    (leftLink rightLink : link) : mastNode :=
  MkNode (take i (Key n) ++ key :: drop i (Key n))
         (take i (Value n) ++ value :: drop i (Value n))
         (take i (Link n) ++ leftLink :: rightLink :: drop (S i) (Link n)).

End Presence.

(** ** The nodes of a tree *)

(** [c] is the node behind one of the links of [n]. *)
Definition child (m : Mast) (n c : mastNode) : Prop :=
  exists j l, Link n !! j = Some l /\ isNil l = false /\ load m l = Ok c.

(** [n] is a node of the tree [m]: the root node, or a node reached from it
    through links. *)
Definition nodeOf (m : Mast) (n : mastNode) : Prop :=
  exists n0, load m (root m) = Ok n0 /\ rtc (child m) n0 n.

(** Some node of the tree holds a key that compares equal to [key]. *)
Definition holdsKey (m : Mast) (key : iface) : Prop :=
  exists n i ki, nodeOf m n /\ Key n !! i = Some ki /\ keyOrder m ki key = Ok 0.

(** ** What the loader decodes *)

(** The blobs of entry [j] decode: the key against [zeroKey], and the value
    against [zeroValue] when there is one. *)
Definition parsesAt (m : Mast) (sn : stringNodeT) (j : nat) : Prop :=
  zeroKey m <> INil
  /\ (exists kb k, snKey sn !! j = Some kb
                   /\ intoLike (unmarshal m) (zeroKey m) kb = Ok k)
  /\ (zeroValue m = INil
      \/ exists vb v, snValue sn !! j = Some vb
                      /\ intoLike (unmarshal m) (zeroValue m) vb = Ok v).

(** Entry [j] of node [n] holds what the blobs of entry [j] decode to. *)
Definition decodedAt (m : Mast) (sn : stringNodeT) (n : mastNode) (j : nat) : Prop :=
  exists kb k, snKey sn !! j = Some kb
    /\ intoLike (unmarshal m) (zeroKey m) kb = Ok k
    /\ Key n !! j = Some k
    /\ ((zeroValue m = INil /\ Value n !! j = Some INil)
        \/ (zeroValue m <> INil
            /\ exists vb v, snValue sn !! j = Some vb
                 /\ intoLike (unmarshal m) (zeroValue m) vb = Ok v
                 /\ Value n !! j = Some v)).

(** The node before the two loops: as many nil keys and values as there are
    key blobs, and one nil link more. *)
Definition blank (sn : stringNodeT) : mastNode :=
  MkNode (replicate (length (snKey sn)) INil)
         (replicate (length (snValue sn)) INil)
         (replicate (length (snKey sn) + 1) LNil).

(** A computation that hands the tree back as it received it. *)
Definition readonly {A} (c : M A) : Prop :=
  forall m r m', c m = (r, m') -> m' = m.

(** ** Iteration (pub.go) *)

(** A callback of [Iter], of Go type [func(key, value interface{}) error],
    together with the variables it closes over: [St] is the type of their
    contents, which every call may assign to. *)
Definition callback (St : Type) : Type := St -> iface -> iface -> res St.

(** [Iter], [keys] and [toSlice] rest on two things the two files do not
    define: the method [mastNode.iter] of another file of the package, and the
    bound [maxAlloc] of the Go runtime on the bytes of one allocation. *)
Class Traversal : Type := {
  mastNode_iter : forall St : Type, callback St -> mastNode -> Mast -> St -> res St;
  maxAlloc : Z
}.

(** The struct [entry]. *)
Module entry.
Record t : Type := {
  Key : iface;
  Value : iface
}.
End entry.

(** The size in bytes of an [interface{}] and of an [entry], for 64-bit
    words. *)
Definition ifaceSize : Z := 16.
Definition entrySize : Z := 32.

Definition makeslice_panic : string := "runtime error: makeslice: len out of range".

Section Iteration.
Context {traversal : Traversal}.

(** [make([]T, n)] for [n] of type [uint64] and elements of [elemSize] bytes:
    a slice of [n] zero values; the call panics when [n] is no [int] or the
    slice would take more than [maxAlloc] bytes. *)
Definition make_ {A} (elemSize : Z) (zero : A) (n : Z) : res (list A) :=
  if (n <? 2 ^ 63) && (n * elemSize <=? maxAlloc)
  then Ok (replicate (Z.to_nat n) zero)
  else Panic makeslice_panic.

(** [func (m *Mast) Iter(f func(interface{}, interface{}) error) error] *)
Definition Iter {St : Type} (f : callback St) (m : Mast) (s : St) : res St :=
  (let* n := load m (root m) in
   mastNode_iter St f n m s)%res.

(** The callback of [keys] and [toSlice], which closes over [array] and [i]:
    [array[i] = g(key, value); i++; return nil]. *)
Definition collect {A} (g : iface -> iface -> A) : callback (list A * nat) :=
  fun '(array, i) key value =>
    (let* array := assign array i (g key value) in
     Ok (array, S i))%res.

(** [func (m *Mast) keys() ([]interface{}, error)] *)
Definition keys (m : Mast) : res (list iface) :=
  (let* array := make_ ifaceSize INil (size m) in
   let* '(array, _) := Iter (collect (fun key _ => key)) m (array, 0%nat) in
   Ok array)%res.

(** [func (m Mast) toSlice() ([]entry, error)] *)
Definition toSlice (m : Mast) : res (list entry.t) :=
  (let* array := make_ entrySize {| entry.Key := INil; entry.Value := INil |}
                       (size m) in
   let* '(array, _) :=
     Iter (collect (fun key value => {| entry.Key := key; entry.Value := value |}))
          m (array, 0%nat) in
   Ok array)%res.

(** [node.iter(f, m)] calls [f] on the entries [es] in turn, as long as [f]
    returns nil, and then returns [tail]: nil, or an error of its own. *)
Definition visits (n : mastNode) (m : Mast) (es : list (iface * iface))
    (tail : option error) : Prop :=
  forall (St : Type) (f : callback St) (s : St),
    mastNode_iter St f n m s
    = bindR (foldR (fun s e => f s e.1 e.2) es s)
            (fun s' => match tail with None => Ok s' | Some e => Err e end).

End Iteration.

(** Modelled from the spec: [mastNode.iter] is defined outside the two files;
    [Iter] emits the entries in ascending key order, that is, subtree [Link[j]]
    before entry [j] and the last subtree after the last entry.  [fuel] bounds
    the depth. *)
Module SpecIter.

(** The entries of one node, with [descend] for the subtree behind a link
    that is not nil. *)
Fixpoint walk {St : Type} (descend : link -> St -> res St) (f : callback St)
    (links : list link) (ks vs : list iface) (s : St) : res St :=
  match links with
  | [] => Ok s
  | l :: links' =>
      (let* s := (if isNil l then Ok s else descend l s) in
       match ks, vs with
       | k :: ks', v :: vs' =>
           let* s := f s k v in
           walk descend f links' ks' vs' s
       | _, _ => Ok s
       end)%res
  end.

Fixpoint iterFrom (fuel : nat) {St : Type} (f : callback St) (n : mastNode)
    (m : Mast) (s : St) : res St :=
  walk (fun l s =>
          match fuel with
          | O => OutOfFuel
          | S fuel' => (let* c := load m l in iterFrom fuel' f c m s)%res
          end)
       f (Link n) (Key n) (Value n) s.

Definition iter (St : Type) (f : callback St) (n : mastNode) (m : Mast)
    (s : St) : res St :=
  iterFrom 256 f n m s.

End SpecIter.

(** The traversal of the model, with the bound of a 64-bit Go runtime on the
    bytes of one allocation. *)
Definition specTraversal : Traversal :=
  {| mastNode_iter := SpecIter.iter; maxAlloc := 2 ^ 48 |}.

(** ** Shape of a node *)

(** Invariant 1 of the tree: as many values as keys, and one link more. *)
Definition wellFormed (n : mastNode) : Prop :=
  length (Value n) = length (Key n)
  /\ length (Link n) = S (length (Key n)).

(** The search for [key] ends, in the layer of [key], at a key that compares
    equal to it. *)
Definition lands {helpers : Helpers} (m : Mast) (key : iface) : Prop :=
  exists n i o ki,
    reach false m key = Ok (n, i, o)
    /\ targetLayer o = currentHeight o
    /\ Key n !! i = Some ki
    /\ keyOrder m ki key = Ok 0.

(** The errors of [Delete]: the two it makes itself, and the errors of the
    functions it calls, each under the prefix of its call. *)
Definition DeleteError (key value : iface) (e : error) : Prop :=
  e = notPresent key
  \/ (exists found, e = valueMismatch found value)
  \/ exists prefix cause,
       e = Wrapf prefix cause
       /\ In prefix ["load root"; "layer"; "findNode"; "keyCompare"; "merge";
                     "savePathForRoot"; "shrink"].

(** An outcome that is a value or an [error]: no panic. *)
Definition returns {A} (r : res A) : Prop :=
  (exists a, r = Ok a) \/ (exists e, r = Err e).

(** A computation that assigns to no field of the tree but [root]. *)
Definition onlyRoot {A} (c : M A) : Prop :=
  forall m r m', c m = (r, m') -> m' = set_root (root m') m.

(** ** More trees and stores to run the operations on *)

Module Sample.

(** The root node of [Fixture.fifteen], and its entries in the order of the
    node. *)
Definition fifteenRoot : mastNode :=
  Eval vm_compute in
    match root Fixture.fifteen with
    | LNode n => n
    | _ => MkNode [] [] [LNil]
    end.

Definition fifteenEntries : list (iface * iface) :=
  Eval vm_compute in zip (Key fifteenRoot) (Value fifteenRoot).

(** A blob store that holds the root node of [Fixture.fifteen] under the
    identifier [mastNode.store] gives it. *)
Definition shelf : Persist :=
  Fixture.storeOf
    [("3367093192628496948",
      Fixture.encode
        ["1"; "10"; "11"; "12"; "13"; "14"; "15"; "2"; "3"; "4"; "5"; "6";
         "7"; "8"; "9"]
        ["100"; "1000"; "1100"; "1200"; "1300"; "1400"; "1500"; "200"; "300";
         "400"; "500"; "600"; "700"; "800"; "900"]
        None)].

(** [Fixture.fifteen] with that store as its [Persist], and the handle
    [MakeRoot] returns for it. *)
Definition fifteenPersisted : Mast := Fixture.withPersist shelf Fixture.fifteen.

Definition handle15 : Root.t :=
  {| Root.Link := Some "3367093192628496948"; Root.Size := 15;
     Root.Height := 0; Root.BranchFactor := 16 |}.

(** The leaf [A] of the store [Fixture.flaky] as a tree of its own: one
    entry, height 0. *)
Definition handleA : Root.t :=
  {| Root.Link := Some "A"; Root.Size := 1; Root.Height := 0;
     Root.BranchFactor := 16 |}.

Definition leafTree : Mast :=
  Fixture.loaded handleA (Fixture.intConfig Fixture.flaky).

(** The tree of height 1 behind [Fixture.handleR]. *)
Definition tallTree : Mast :=
  Fixture.loaded Fixture.handleR (Fixture.intConfig Fixture.flaky).

(** A tree whose root is nil. *)
Definition noRoot : Mast := set_root LNil Fixture.empty.

(** An in-memory tree with a [Persist] and no [KeysLike]. *)
Definition untyped : Mast := Fixture.withPersist Fixture.malformed Fixture.empty.

(** The paths that [Insert(7, 1)] and [Delete(7, 700)] save on the tree
    [Fixture.fifteen]. *)
Definition replacePath : list pathEntry.t :=
  Eval vm_compute in
    match Insert_plan (helpers := specHelpers) (IInt 7) (IInt 1) Fixture.fifteen with
    | Ok (Replace p) => p
    | _ => []
    end.

Definition deletePath : list pathEntry.t :=
  Eval vm_compute in
    match Delete_plan (helpers := specHelpers) (IInt 7) (IInt 700) Fixture.fifteen with
    | Ok p => p
    | _ => []
    end.

(** The tree of 1..15 after [Insert(16, 1600)], and the path that
    [Delete(16, 1600)] saves on it. *)
Definition sixteen : Mast :=
  snd (Insert (helpers := specHelpers) 256 (IInt 16) (IInt 1600) Fixture.fifteen).

Definition undoPath : list pathEntry.t :=
  Eval vm_compute in
    match Delete_plan (helpers := specHelpers) (IInt 16) (IInt 1600) sixteen with
    | Ok p => p
    | _ => []
    end.

End Sample.

(** ** Get, for every value argument

    [Get] above takes its argument [value] to be nil or a pointer to a
    variable of type [interface{}], to which every value can be assigned.
    The argument has the type [interface{}], so a caller may also pass a
    pointer to a variable of another type, a nil pointer, or something that
    is no pointer; line 208 of pub.go then goes through package [reflect],
    which panics where the assignment is not possible.  Module [Reflect]
    embeds [Get] once more with all these arguments. *)
Module Reflect.

(** The type of the variable behind a pointer: [int], [string], the empty
    interface, or another type, named as [reflect] prints it, to which
    neither an [int] nor a [string] can be assigned. *)
Inductive goType : Type :=
| TInt
| TString
| TInterface
| TOther (name : string).

Definition goTypeName (ty : goType) : string :=
  match ty with
  | TInt => "int"
  | TString => "string"
  | TInterface => "interface {}"
  | TOther name => name
  end.

(** The dynamic type of a value, as [reflect] prints it. *)
Definition typeName (v : iface) : string :=
  match v with
  | INil => "<nil>"
  | IInt _ => "int"
  | IStr _ => "string"
  end.

(** Whether a value that is not nil can be assigned to a variable of type
    [ty]. *)
Definition assignable (v : iface) (ty : goType) : bool :=
  match ty, v with
  | TInterface, _ => true
  | TInt, IInt _ => true
  | TString, IStr _ => true
  | _, _ => false
  end.

(** The argument [value interface{}] of [Get]: the nil interface; a value
    that is no pointer, of the [reflect] kind [kind]; a nil pointer; or a
    pointer to a variable of type [ty] that holds [contents]. *)
Inductive target : Type :=
| ArgNil
| ArgNotPointer (kind : string)
| ArgNilPointer
| ArgPointer (ty : goType) (contents : iface).

(** The argument that [Get] above takes. *)
Definition ofPointer (value : option iface) : target :=
  match value with
  | None => ArgNil
  | Some old => ArgPointer TInterface old
  end.

(** [reflect.ValueOf(value).Elem().Set(reflect.ValueOf(v))] for a value [v]
    that is not nil; the result is the argument after the call.  [Elem]
    panics on what is no pointer and answers the zero [Value] for a nil
    pointer, on which [Set] panics; [Set] panics when [v] cannot be assigned
    to the variable. *)
Definition reflectSet (value : target) (v : iface) : res target :=
  match value with
  | ArgNil => Panic "reflect: call of reflect.Value.Elem on zero Value"
  | ArgNotPointer kind =>
      Panic ("reflect: call of reflect.Value.Elem on " +:+ kind +:+ " Value")
  | ArgNilPointer => Panic "reflect: call of reflect.Value.Set on zero Value"
  | ArgPointer ty _ =>
      if assignable v ty then Ok (ArgPointer ty v)
      else Panic ("reflect.Set: value of type " +:+ typeName v +:+
                  " is not assignable to type " +:+ goTypeName ty)
  end.

(** [func (m *Mast) Get(k interface{}, value interface{}) (bool, error)]; the
    result gives the argument after the call next to the boolean. *)
Definition Get {helpers : Helpers} (k : iface) (value : target)
    : M (bool * target) :=
  (let* m := getM in
   if isNil (root m) then retM (false, value) else
   let* n := liftR (load m (root m)) in
   let* keyLayer_ := liftR (wrapR "layer" (keyLayer m k (branchFactor m))) in
   let options := {| targetLayer := uint8min keyLayer_ (height m);
                     currentHeight := height m;
                     createMissingNodes := false;
                     path := [] |} in
   let* '(n, i, options) := liftR (findNode n m k options) in
   if (length (Key n) <=? i)%nat
      || negb (targetLayer options =? currentHeight options)
   then retM (false, value) else
   let* ki := liftR (index (Key n) i) in
   let* cmp := liftR (wrapR "keyCompare" (keyOrder m ki k)) in
   if negb (cmp =? 0) then retM (false, value) else
   match value with
   | ArgNil => retM (true, ArgNil)
   | _ =>
       let* vi := liftR (index (Value n) i) in
       if bool_decide (vi = INil) then retM (true, value)
       else
         let* value := liftR (reflectSet value vi) in
         retM (true, value)
   end)%mast.

End Reflect.

(** * Properties *)

(** ** Reading outcomes *)

Lemma bindR_Ok {A B} (c : res A) (k : A -> res B) (b : B) :
  bindR c k = Ok b -> exists a, c = Ok a /\ k a = Ok b.
Proof. destruct c; simpl; intros E; try discriminate. eauto. Qed.

Lemma wrapR_Ok {A} (msg : string) (c : res A) (a : A) :
  wrapR msg c = Ok a -> c = Ok a.
Proof. destruct c; simpl; congruence. Qed.

Lemma pair_of_fst {A} (x : res A * Mast) (r : res A) :
  fst x = r -> x = (r, snd x).
Proof. destruct x; simpl; congruence. Qed.

Lemma loaded_Ok (r : Root.t) (config : RemoteConfig.t) :
  isOk (LoadMast (helpers := specHelpers) r config) = true ->
  LoadMast (helpers := specHelpers) r config = Ok (Fixture.loaded r config).
Proof.
  unfold Fixture.loaded.
  destruct (LoadMast r config); simpl; intros E; try discriminate; reflexivity.
Qed.

(** ** LoadMast: the thresholds *)

Lemma shrinkSizeLoop_pow (n : nat) (b : Z) :
  Nat.iter n (fun shrinkSize => wrap64 (shrinkSize * b)) 1
  = (b ^ Z.of_nat n) mod 2 ^ 64.
Proof.
  induction n as [|n IH].
  - reflexivity.
  - rewrite Nat2Z.inj_succ, Z.pow_succ_r by lia.
    simpl. rewrite IH. unfold wrap64.
    rewrite Z.mul_mod_idemp_l by lia. f_equal. lia.
Qed.

Lemma pow_below (b h : Z) :
  0 <= b -> 0 <= h -> b ^ (h + 1) < 2 ^ 64 -> 0 <= b ^ h < 2 ^ 64.
Proof.
  intros Hb Hh Hlt. split; [apply Z.pow_nonneg; lia|].
  destruct (Z.eq_dec b 0) as [->|Hne].
  - destruct (Z.eq_dec h 0) as [->|Hh0]; [reflexivity|].
    rewrite Z.pow_0_l by lia. lia.
  - replace (h + 1) with (Z.succ h) in Hlt by lia.
    rewrite Z.pow_succ_r in Hlt by lia.
    assert (0 < b ^ h) by (apply Z.pow_pos_nonneg; lia). nia.
Qed.

Section LoadMast_properties.
Context {helpers : Helpers}.

(** C7 (amended).  The thresholds [LoadMast] computes are the powers of the
    branch factor reduced modulo 2^64: [shrinkBelowSize] is
    [BranchFactor ^ Height mod 2^64] and [growAfterSize] is
    [BranchFactor ^ (Height + 1) mod 2^64].  They are the exact powers
    whenever [BranchFactor ^ (Height + 1)] fits 64 bits.  A nil [Link] gives
    an empty in-memory root node, a non-nil one the content hash. *)
Theorem LoadMast_thresholds (r : Root.t) (config : RemoteConfig.t) (m : Mast) :
  0 <= Root.Height r ->
  LoadMast r config = Ok m ->
  shrinkBelowSize m = (Root.BranchFactor r ^ Root.Height r) mod 2 ^ 64
  /\ growAfterSize m = (Root.BranchFactor r ^ (Root.Height r + 1)) mod 2 ^ 64
  /\ (0 <= Root.BranchFactor r ->
      Root.BranchFactor r ^ (Root.Height r + 1) < 2 ^ 64 ->
      shrinkBelowSize m = Root.BranchFactor r ^ Root.Height r
      /\ growAfterSize m = Root.BranchFactor r ^ (Root.Height r + 1))
  /\ (Root.Link r = None -> root m = LNode (MkNode [] [] [LNil]))
  /\ (forall l, Root.Link r = Some l -> root m = LHash l).
Proof.
  intros Hh E. unfold LoadMast in E.
  apply bindR_Ok in E as (_ & _ & E). injection E as <-. simpl.
  unfold shrinkSizeLoop. rewrite shrinkSizeLoop_pow, Z2Nat.id by lia.
  assert (G : wrap64 ((Root.BranchFactor r ^ Root.Height r) mod 2 ^ 64
                      * Root.BranchFactor r)
              = (Root.BranchFactor r ^ (Root.Height r + 1)) mod 2 ^ 64).
  { unfold wrap64. rewrite Z.mul_mod_idemp_l by lia.
    rewrite Z.pow_add_r by lia. f_equal. lia. }
  rewrite G. repeat split.
  - apply Z.mod_small. apply pow_below; assumption.
  - apply Z.mod_small. split; [apply Z.pow_nonneg|]; lia.
  - intros ->. reflexivity.
  - intros l ->. reflexivity.
Qed.

End LoadMast_properties.

(** [NewRoot(nil)] loads with the thresholds 16^0 and 16^1. *)
Lemma LoadMast_thresholds_witness :
  let r := NewRoot None in
  let m := Fixture.loaded r (Fixture.intConfig Fixture.flaky) in
  shrinkBelowSize m = (16 ^ 0) mod 2 ^ 64
  /\ growAfterSize m = (16 ^ (0 + 1)) mod 2 ^ 64
  /\ (0 <= 16 -> 16 ^ (0 + 1) < 2 ^ 64 ->
      shrinkBelowSize m = 16 ^ 0 /\ growAfterSize m = 16 ^ (0 + 1))
  /\ (Root.Link r = None -> root m = LNode (MkNode [] [] [LNil]))
  /\ (forall l, Root.Link r = Some l -> root m = LHash l).
Proof.
  apply (LoadMast_thresholds (helpers := specHelpers) (NewRoot None)
           (Fixture.intConfig Fixture.flaky)).
  - simpl. lia.
  - apply loaded_Ok. vm_compute. reflexivity.
Defined.

(** C7, as stated, fails: with [BranchFactor = 16] and [Height = 16] the
    product wraps around, and both thresholds are 0 instead of 16^16 and
    16^17. *)
Lemma LoadMast_thresholds_overflow :
  exists m,
    LoadMast (helpers := specHelpers) Fixture.tallHandle
             (Fixture.intConfig Fixture.flaky) = Ok m
    /\ shrinkBelowSize m = 0
    /\ growAfterSize m = 0
    /\ shrinkBelowSize m <> 16 ^ 16
    /\ growAfterSize m <> 16 ^ (16 + 1).
Proof.
  eexists. split.
  - apply loaded_Ok. vm_compute. reflexivity.
  - vm_compute. repeat split; discriminate.
Qed.

(** ** Calls that do not assign to the tree *)

Lemma readonly_retM {A} (a : A) : readonly (retM a).
Proof. intros m r m' E. injection E as _ <-. reflexivity. Qed.

Lemma readonly_liftR {A} (c : res A) : readonly (liftR c).
Proof. intros m r m' E. injection E as _ <-. reflexivity. Qed.

Lemma readonly_getM : readonly getM.
Proof. intros m r m' E. injection E as _ <-. reflexivity. Qed.

Lemma readonly_bindM {A B} (c : M A) (k : A -> M B) :
  readonly c -> (forall a, readonly (k a)) -> readonly (bindM c k).
Proof.
  intros Hc Hk m r m' E. unfold bindM in E.
  destruct (c m) as [[a| | |] m1] eqn:Ec; pose proof (Hc _ _ _ Ec) as ->;
    try (injection E as _ <-; reflexivity).
  exact (Hk _ _ _ _ E).
Qed.

Create HintDb readonly.
#[local] Hint Resolve readonly_retM readonly_liftR readonly_getM : readonly.

Ltac readonly_step :=
  match goal with
  | |- readonly (bindM _ _) => apply readonly_bindM; [|intros ?]
  | |- readonly (if ?b then _ else _) => destruct b
  | |- readonly (match ?x with _ => _ end) => destruct x
  | |- readonly _ => solve [auto with readonly]
  end.

Section Error_properties.
Context {helpers : Helpers}.

Lemma Get_readonly (k : iface) (value : option iface) : readonly (Get k value).
Proof. unfold Get. repeat readonly_step. Qed.

Lemma flush_not_Ok (m m' : Mast) (r : res string) :
  flush m = (r, m') -> isOk r = false -> m' = m.
Proof.
  unfold flush, bindM, getM, failM, liftR, modifyM, retM.
  destruct (persist m) as [p|]; [|intros E _; injection E as _ <-; reflexivity].
  destruct (wrapR "load root" (load m (root m))) as [n| | |];
    try (intros E _; injection E as _ <-; reflexivity).
  destruct (mastNode_store n p (nodeCache m) (marshal m)) as [str| | |];
    try (intros E _; injection E as _ <-; reflexivity).
  intros E Hr. injection E as <- _. discriminate.
Qed.

Lemma MakeRoot_not_Ok (m m' : Mast) (r : res Root.t) :
  MakeRoot m = (r, m') -> isOk r = false -> m' = m.
Proof.
  unfold MakeRoot, bindM, wrapM, getM, retM.
  destruct (flush m) as [[str| | |] m1] eqn:Ef; simpl;
    try (intros E _; injection E as _ <-;
         exact (flush_not_Ok _ _ _ Ef eq_refl)).
  intros E Hr. injection E as <- _. discriminate.
Qed.

Lemma Insert_plan_Err (fuel : nat) (key value : iface) (m : Mast) (e : error) :
  Insert_plan key value m = Err e -> Insert fuel key value m = (Err e, m).
Proof. intros E. unfold Insert, bindM, getM, liftR. rewrite E. reflexivity. Qed.

Lemma Delete_plan_Err (fuel : nat) (key value : iface) (m : Mast) (e : error) :
  Delete_plan key value m = Err e -> Delete fuel key value m = (Err e, m).
Proof. intros E. unfold Delete, bindM, getM, liftR. rewrite E. reflexivity. Qed.

(** C1 (amended).  [Get] never assigns to the tree; [MakeRoot] assigns to it
    only when it succeeds; every error that [Insert] or [Delete] returns from
    the part that precedes the call of [savePathForRoot] leaves the tree as
    it was; and an error of [Insert] or [Delete] that comes with a changed
    tree comes from [savePathForRoot] or from what follows it. *)
Theorem errors_before_save_leave_tree (fuel : nat) (key value : iface)
    (ptr : option iface) (m : Mast) :
  (forall r m', Get key ptr m = (r, m') -> m' = m)
  /\ (forall r m', MakeRoot m = (r, m') -> isOk r = false -> m' = m)
  /\ (forall e, Insert_plan key value m = Err e ->
                Insert fuel key value m = (Err e, m))
  /\ (forall e, Delete_plan key value m = Err e ->
                Delete fuel key value m = (Err e, m))
  /\ (forall e m', Insert fuel key value m = (Err e, m') -> m' <> m ->
        exists p, Insert_plan key value m = Ok (Replace p)
                  \/ Insert_plan key value m = Ok (Add p))
  /\ (forall e m', Delete fuel key value m = (Err e, m') -> m' <> m ->
        exists p, Delete_plan key value m = Ok p).
Proof.
  repeat split.
  - intros r m'. apply Get_readonly.
  - intros r m'. apply MakeRoot_not_Ok.
  - intros e. apply Insert_plan_Err.
  - intros e. apply Delete_plan_Err.
  - intros e m' E Hne. unfold Insert, bindM, getM, liftR in E.
    destruct (Insert_plan key value m) as [[|p|p]| | |]; eauto;
      injection E as _ <-; contradiction.
  - intros e m' E Hne. unfold Delete, bindM, getM, liftR in E.
    destruct (Delete_plan key value m) as [p| | |]; eauto;
      injection E as _ <-; contradiction.
Qed.

(** C5 (amended).  [MakeRoot] on an empty tree -- no entry, height 0, a
    [Persist] configured, the root an empty in-memory node -- returns a root
    handle whose [Link] is not nil: it points to the identifier under which
    the empty root node was stored, which is now also the root of the tree;
    [Size] and [Height] are 0. *)
Theorem MakeRoot_empty (m : Mast) (p : Persist) (bf : Z) (str : string) :
  persist m = Some p ->
  root m = LNode (emptyNodePointer bf) ->
  size m = 0 ->
  height m = 0 ->
  mastNode_store (emptyNodePointer bf) p (nodeCache m) (marshal m) = Ok str ->
  MakeRoot m
  = (Ok {| Root.Link := Some str; Root.Size := 0; Root.Height := 0;
           Root.BranchFactor := branchFactor m |},
     set_root (LHash str) m).
Proof.
  intros Hp Hr Hs Hh Hst.
  unfold MakeRoot, flush, bindM, wrapM, getM, liftR, modifyM, retM.
  rewrite Hp, Hr. simpl. rewrite Hst. simpl. rewrite Hs, Hh. reflexivity.
Qed.

End Error_properties.

(** [NewInMemory()] with a store set: the handle links to the stored empty
    node. *)
Lemma MakeRoot_empty_witness :
  let m := Fixture.withPersist Fixture.flaky Fixture.empty in
  MakeRoot (helpers := specHelpers) m
  = (Ok {| Root.Link := Some "15648614629258706738"; Root.Size := 0;
           Root.Height := 0; Root.BranchFactor := branchFactor m |},
     set_root (LHash "15648614629258706738") m).
Proof.
  apply (MakeRoot_empty (helpers := specHelpers) _ Fixture.flaky 16).
  - reflexivity.
  - reflexivity.
  - reflexivity.
  - reflexivity.
  - vm_compute. reflexivity.
Defined.

(** C5, as stated, fails: [MakeRoot] on the empty tree returns a handle with
    [Size] 0 and [Height] 0 whose [Link] is not nil. *)
Lemma MakeRoot_empty_Link_not_nil :
  let out := MakeRoot (helpers := specHelpers)
               (Fixture.withPersist Fixture.flaky Fixture.empty) in
  exists r, fst out = Ok r
            /\ Root.Size r = 0 /\ Root.Height r = 0
            /\ Root.Link r = Some "15648614629258706738"
            /\ Root.Link r <> None.
Proof.
  eexists. split; [vm_compute; reflexivity|].
  simpl. repeat split. discriminate.
Qed.

(** C1, as stated, fails.  The tree [Fixture.flakyTree] holds the entry
    (-5, -500) and has size 1.  [Delete(-5, -500)] returns an error, because
    shrinking needs the leaf [B], which the store fails to load; by then the
    entry is gone from the root and the size is 0. *)
Lemma Delete_error_after_assignment :
  let m := Fixture.flakyTree in
  let out := Delete (helpers := specHelpers) 256 (IInt (-5)) (IInt (-500)) m in
  fst out = Err (Wrapf "shrink" (Wrapf "failed loading B"
                                       (Errorf "no blob named B")))
  /\ observable m
     = (LNode (MkNode [IInt 10] [IInt 1000]
                [LNode (MkNode [IInt (-5); IInt 1] [IInt (-500); IInt 100]
                               [LNil; LNil; LNil]);
                 LHash "B"]), 1, 1, 256, 16)
  /\ observable (snd out)
     = (LNode (MkNode [IInt 10] [IInt 1000]
                [LNode (MkNode [IInt 1] [IInt 100] [LNil; LNil]);
                 LHash "B"]), 0, 1, 256, 16)
  /\ observable (snd out) <> observable m.
Proof.
  vm_compute. repeat split. discriminate.
Qed.

(** ** The node loader *)

Lemma foldR_app {A B} (body : A -> B -> res A) (xs ys : list B) (a : A) :
  foldR body (xs ++ ys) a = bindR (foldR body xs a) (foldR body ys).
Proof.
  revert a. induction xs as [|x xs IH]; intros a; simpl; [reflexivity|].
  destruct (body a x); simpl; auto.
Qed.

Lemma assign_Ok {A} (s : list A) (i : nat) (v : A) :
  (i < length s)%nat -> assign s i v = Ok (<[i:=v]> s).
Proof. intros H. unfold assign. destruct (decide (i < length s)%nat); [reflexivity|lia]. Qed.

Lemma assign_Ok_inv {A} (s s' : list A) (i : nat) (v : A) :
  assign s i v = Ok s' -> (i < length s)%nat /\ s' = <[i:=v]> s.
Proof. unfold assign. destruct (decide (i < length s)%nat); intros E; [injection E as <-; auto|discriminate]. Qed.

Lemma assign_Panic {A} (s : list A) (i : nat) (v : A) :
  (length s <= i)%nat -> assign s i v = Panic index_panic.
Proof. intros H. unfold assign. destruct (decide (i < length s)%nat); [lia|reflexivity]. Qed.

Lemma index_Ok {A} (s : list A) (i : nat) (a : A) :
  index s i = Ok a <-> s !! i = Some a.
Proof. unfold index. destruct (s !! i); split; congruence. Qed.

Section Loader.
Variables (l : string) (m : Mast) (sn : stringNodeT).

Lemma loadEntry_Ok_inv (n n' : mastNode) (i : nat) :
  loadEntry l m sn n i = Ok n' ->
  parsesAt m sn i /\ decodedAt m sn n' i
  /\ (i < length (Key n))%nat /\ (i < length (Value n))%nat
  /\ length (Key n') = length (Key n) /\ length (Value n') = length (Value n)
  /\ Link n' = Link n
  /\ (forall j, j <> i -> Key n' !! j = Key n !! j /\ Value n' !! j = Value n !! j).
Proof.
  unfold loadEntry. destruct (decide (zeroKey m = INil)) as [|Hk]; [discriminate|].
  intros E.
  apply bindR_Ok in E as (kb & Ekb & E). apply index_Ok in Ekb.
  apply bindR_Ok in E as (k & Ek & E). apply wrapR_Ok in Ek.
  apply bindR_Ok in E as (v & Ev & E).
  apply bindR_Ok in E as (ks & Eks & E). apply assign_Ok_inv in Eks as (Hik & ->).
  apply bindR_Ok in E as (vs & Evs & E). apply assign_Ok_inv in Evs as (Hiv & ->).
  injection E as <-. simpl.
  assert (Hv : (zeroValue m = INil /\ v = INil)
               \/ (zeroValue m <> INil
                   /\ exists vb, snValue sn !! i = Some vb
                        /\ intoLike (unmarshal m) (zeroValue m) vb = Ok v)).
  { destruct (decide (zeroValue m = INil)) as [Hz|Hz].
    - left. split; [assumption|congruence].
    - right. split; [assumption|].
      apply bindR_Ok in Ev as (vb & Evb & Ev). apply index_Ok in Evb.
      apply wrapR_Ok in Ev. eauto. }
  split_and!.
  - split_and!; [assumption|eauto|].
    destruct Hv as [[Hz _]|[_ (vb & ? & ?)]]; [left|right]; eauto.
  - exists kb, k. split_and!; try assumption.
    + apply list_lookup_insert_eq. assumption.
    + destruct Hv as [[Hz ->]|[Hz (vb & ? & ?)]]; [left|right]; split; try assumption.
      * apply list_lookup_insert_eq. assumption.
      * exists vb, v. split_and!; try assumption.
        apply list_lookup_insert_eq. assumption.
  - assumption.
  - assumption.
  - apply length_insert.
  - apply length_insert.
  - reflexivity.
  - intros j Hj. split; apply list_lookup_insert_ne; congruence.
Qed.

Lemma loadEntry_Ok (n : mastNode) (i : nat) :
  parsesAt m sn i -> (i < length (Key n))%nat -> (i < length (Value n))%nat ->
  exists n', loadEntry l m sn n i = Ok n'.
Proof.
  intros (Hk & (kb & k & Ekb & Ek) & Hv) Hik Hiv. unfold loadEntry.
  destruct (decide (zeroKey m = INil)); [contradiction|].
  apply index_Ok in Ekb. rewrite Ekb. simpl. rewrite Ek. simpl.
  destruct (decide (zeroValue m = INil)) as [Hz|Hz].
  - simpl. rewrite !assign_Ok by assumption. simpl. eauto.
  - destruct Hv as [|(vb & v & Evb & Ev)]; [contradiction|].
    apply index_Ok in Evb. rewrite Evb. simpl. rewrite Ev. simpl.
    rewrite !assign_Ok by assumption. simpl. eauto.
Qed.

Lemma entries_loop_inv (cnt : nat) : forall (k : nat) (n n' : mastNode),
  foldR (loadEntry l m sn) (seq k cnt) n = Ok n' ->
  (k + cnt <= length (Key n) \/ cnt = 0)%nat
  /\ length (Key n') = length (Key n) /\ length (Value n') = length (Value n)
  /\ Link n' = Link n
  /\ (forall j, (k <= j < k + cnt)%nat -> parsesAt m sn j /\ decodedAt m sn n' j)
  /\ (forall j, (j < k \/ k + cnt <= j)%nat ->
        Key n' !! j = Key n !! j /\ Value n' !! j = Value n !! j).
Proof.
  induction cnt as [|cnt IH]; intros k n n' E; simpl in E.
  - injection E as <-. split_and!; auto; intros; lia.
  - apply bindR_Ok in E as (n1 & E1 & E).
    apply loadEntry_Ok_inv in E1 as (Hp & Hd & Hik & Hiv & Hlk & Hlv & Hl & Hother).
    apply IH in E as (Hrange & Hlk' & Hlv' & Hl' & Hin & Hout).
    split_and!.
    + left. destruct Hrange as [Hrange| ->]; lia.
    + congruence.
    + congruence.
    + congruence.
    + intros j Hj. destruct (decide (j = k)) as [->|Hne]; [|apply Hin; lia].
      split; [assumption|].
      destruct Hd as (kb & k0 & ? & ? & HK & HV).
      destruct (Hout k) as [HK' HV']; [lia|].
      exists kb, k0. split_and!; try assumption; [congruence|].
      destruct HV as [[? ?]|[? (vb & v & ? & ? & ?)]]; [left|right]; split;
        try assumption; [congruence|].
      exists vb, v. split_and!; try assumption. congruence.
    + intros j Hj. destruct (Hout j) as [-> ->]; [lia|]. apply Hother. lia.
Qed.

Lemma entries_loop_Ok (cnt : nat) : forall (k : nat) (n : mastNode),
  (k + cnt <= length (Key n))%nat -> (k + cnt <= length (Value n))%nat ->
  (forall j, (k <= j < k + cnt)%nat -> parsesAt m sn j) ->
  exists n', foldR (loadEntry l m sn) (seq k cnt) n = Ok n'.
Proof.
  induction cnt as [|cnt IH]; intros k n Hk Hv Hp; simpl; [eauto|].
  destruct (loadEntry_Ok n k) as (n1 & E1); [apply Hp; lia|lia|lia|].
  rewrite E1. simpl.
  apply loadEntry_Ok_inv in E1 as (_ & _ & _ & _ & Hlk & Hlv & _ & _).
  apply IH; [lia|lia|]. intros j Hj. apply Hp. lia.
Qed.

Lemma loadLinks_Ok_inv (links : list string) : forall (i : nat) (n n' : mastNode),
  loadLinks i links n = Ok n' ->
  (i + length links <= length (Link n) \/ links = [])%nat
  /\ Key n' = Key n /\ Value n' = Value n
  /\ length (Link n') = length (Link n)
  /\ (forall j s, links !! j = Some s ->
        Link n' !! (i + j)%nat = Some (if decide (s = "") then LNil else LHash s))
  /\ (forall j, (j < i \/ i + length links <= j)%nat -> Link n' !! j = Link n !! j).
Proof.
  induction links as [|s0 links IH]; intros i n n' E; simpl in E.
  - injection E as <-. split_and!; auto. intros j s Hs. discriminate.
  - apply bindR_Ok in E as (ls & Els & E).
    apply assign_Ok_inv in Els as (Hi & ->).
    apply IH in E as (Hrange & HK & HV & Hlen & Hin & Hout). simpl in *.
    rewrite length_insert in Hlen, Hrange.
    split_and!; try assumption.
    + left. destruct Hrange as [Hrange| ->]; simpl; lia.
    + intros [|j] s Hs; simpl in Hs.
      * injection Hs as <-. rewrite Nat.add_0_r, Hout by lia.
        apply list_lookup_insert_eq. assumption.
      * replace (i + S j)%nat with (S i + j)%nat by lia. apply Hin. assumption.
    + intros j Hj. rewrite Hout by lia. apply list_lookup_insert_ne. lia.
Qed.

Lemma loadLinks_Panic (links : list string) : forall (i : nat) (n : mastNode),
  (i <= length (Link n))%nat ->
  (length (Link n) < i + length links)%nat ->
  loadLinks i links n = Panic index_panic.
Proof.
  induction links as [|s0 links IH]; intros i n Hle H; simpl in *; [lia|].
  destruct (decide (i < length (Link n))%nat) as [Hi|Hi].
  - rewrite assign_Ok by assumption. simpl.
    apply IH; simpl; rewrite length_insert; lia.
  - rewrite assign_Panic by lia. reflexivity.
Qed.

Lemma loadLinks_Ok (links : list string) : forall (i : nat) (n : mastNode),
  (i + length links <= length (Link n))%nat ->
  exists n', loadLinks i links n = Ok n'.
Proof.
  induction links as [|s0 links IH]; intros i n H; simpl in *; [eauto|].
  rewrite assign_Ok by lia. simpl. apply IH. simpl. rewrite length_insert. lia.
Qed.

End Loader.

Section Loader_properties.
Variables (l : string) (m : Mast) (p : Persist) (nodeBytes : bytes)
          (sn : stringNodeT).
Hypothesis Hpersist : persist m = Some p.
Hypothesis Hload : PersistLoad p l = Ok nodeBytes.
Hypothesis Hnode : intoNode (unmarshal m) nodeBytes = Ok sn.

Lemma contentHash_Load_unfold :
  contentHash_Load l m
  = if negb (length (snKey sn) =? length (snValue sn))%nat
    then Err (mismatched l)
    else bindR (foldR (loadEntry l m sn) (seq 0 (length (snKey sn))) (blank sn))
               (fun n => match snLink sn with
                         | Some links => loadLinks 0 links n
                         | None => Ok n
                         end).
Proof.
  unfold contentHash_Load. rewrite Hpersist, Hload. simpl.
  rewrite Hnode. simpl. reflexivity.
Qed.

Lemma Load_mismatched :
  length (snKey sn) <> length (snValue sn) ->
  contentHash_Load l m = Err (mismatched l).
Proof.
  intros H. rewrite contentHash_Load_unfold.
  destruct (Nat.eqb_spec (length (snKey sn)) (length (snValue sn)));
    [contradiction|reflexivity].
Qed.

Lemma Load_entries_before (i : nat) :
  length (snKey sn) = length (snValue sn) ->
  (i < length (snKey sn))%nat ->
  (forall j, (j < i)%nat -> parsesAt m sn j) ->
  exists n,
    foldR (loadEntry l m sn) (seq 0 i) (blank sn) = Ok n
    /\ length (Key n) = length (snKey sn)
    /\ length (Value n) = length (snKey sn)
    /\ contentHash_Load l m
       = bindR (foldR (loadEntry l m sn)
                      (seq i (length (snKey sn) - i)) n)
               (fun n => match snLink sn with
                         | Some links => loadLinks 0 links n
                         | None => Ok n
                         end).
Proof.
  intros Hlen Hi Hp.
  destruct (entries_loop_Ok l m sn i 0 (blank sn)) as (n & En).
  - simpl. rewrite length_replicate. lia.
  - simpl. rewrite length_replicate. lia.
  - intros j Hj. apply Hp. lia.
  - exists n. pose proof (entries_loop_inv l m sn _ _ _ _ En)
      as (_ & Hk & Hv & _).
    simpl in Hk, Hv. rewrite length_replicate in Hk, Hv.
    split_and!; [assumption|lia|lia|].
    rewrite contentHash_Load_unfold.
    destruct (Nat.eqb_spec (length (snKey sn)) (length (snValue sn)));
      [simpl|contradiction].
    replace (length (snKey sn)) with (i + (length (snKey sn) - i))%nat at 1 by lia.
    rewrite seq_app, foldR_app, En. reflexivity.
Qed.

Lemma Load_bad_key (i : nat) (blob : bytes) (e : error) :
  length (snKey sn) = length (snValue sn) ->
  zeroKey m <> INil ->
  (forall j, (j < i)%nat -> parsesAt m sn j) ->
  snKey sn !! i = Some blob ->
  intoLike (unmarshal m) (zeroKey m) blob = Err e ->
  contentHash_Load l m = Err (Wrapf (atKey i l) e).
Proof.
  intros Hlen Hk Hp Hblob He.
  assert (Hi : (i < length (snKey sn))%nat) by (eapply lookup_lt_Some; eassumption).
  destruct (Load_entries_before i Hlen Hi Hp) as (n & _ & _ & _ & ->).
  replace (length (snKey sn) - i)%nat with (S (length (snKey sn) - i - 1)) by lia.
  simpl. unfold loadEntry at 1.
  destruct (decide (zeroKey m = INil)); [contradiction|].
  apply index_Ok in Hblob. rewrite Hblob. simpl. rewrite He. reflexivity.
Qed.

Lemma Load_bad_value (i : nat) (kb blob : bytes) (k : iface) (e : error) :
  length (snKey sn) = length (snValue sn) ->
  zeroKey m <> INil ->
  zeroValue m <> INil ->
  (forall j, (j < i)%nat -> parsesAt m sn j) ->
  snKey sn !! i = Some kb ->
  intoLike (unmarshal m) (zeroKey m) kb = Ok k ->
  snValue sn !! i = Some blob ->
  intoLike (unmarshal m) (zeroValue m) blob = Err e ->
  contentHash_Load l m = Err (Wrapf (atValue i l) e).
Proof.
  intros Hlen Hk Hz Hp Hkb Hkk Hblob He.
  assert (Hi : (i < length (snKey sn))%nat) by (eapply lookup_lt_Some; eassumption).
  destruct (Load_entries_before i Hlen Hi Hp) as (n & _ & _ & _ & ->).
  replace (length (snKey sn) - i)%nat with (S (length (snKey sn) - i - 1)) by lia.
  simpl. unfold loadEntry at 1.
  destruct (decide (zeroKey m = INil)); [contradiction|].
  apply index_Ok in Hkb. rewrite Hkb. simpl. rewrite Hkk. simpl.
  destruct (decide (zeroValue m = INil)); [contradiction|].
  apply index_Ok in Hblob. rewrite Hblob. simpl. rewrite He. reflexivity.
Qed.

Lemma Load_Ok_inv (n : mastNode) :
  contentHash_Load l m = Ok n ->
  length (snKey sn) = length (snValue sn)
  /\ length (Key n) = length (snKey sn)
  /\ length (Value n) = length (snKey sn)
  /\ length (Link n) = (length (snKey sn) + 1)%nat
  /\ (forall i, (i < length (snKey sn))%nat ->
        parsesAt m sn i /\ decodedAt m sn n i)
  /\ match snLink sn with
     | None => Link n = replicate (length (snKey sn) + 1) LNil
     | Some links =>
         (length links <= length (snKey sn) + 1)%nat
         /\ (forall j s, links !! j = Some s ->
               Link n !! j = Some (if decide (s = "") then LNil else LHash s))
         /\ (forall j, (length links <= j < length (snKey sn) + 1)%nat ->
               Link n !! j = Some LNil)
     end.
Proof.
  rewrite contentHash_Load_unfold.
  destruct (Nat.eqb_spec (length (snKey sn)) (length (snValue sn)))
    as [Hlen|]; [simpl|discriminate].
  intros E. apply bindR_Ok in E as (n1 & E1 & E).
  apply entries_loop_inv in E1 as (_ & Hk & Hv & Hl & Hin & _).
  simpl in Hk, Hv, Hl. rewrite length_replicate in Hk, Hv.
  destruct (snLink sn) as [links|].
  - apply loadLinks_Ok_inv in E as (Hrange & HK & HV & HL & Hlin & Hlout).
    rewrite Hl, length_replicate in HL, Hrange.
    split_and!; try congruence.
    + intros i Hi. destruct (Hin i) as [Hp Hd]; [lia|]. split; [assumption|].
      unfold decodedAt in *. rewrite HK, HV. assumption.
    + destruct Hrange as [?| ->]; simpl in *; lia.
    + intros j s Hs. apply (Hlin j s Hs).
    + intros j Hj. rewrite Hlout, Hl by (simpl; lia).
      apply lookup_replicate. split; [reflexivity|lia].
  - injection E as <-. rewrite Hl, length_replicate.
    split_and!; try congruence. intros i Hi. apply Hin. lia.
Qed.

Lemma Load_long_Link (links : list string) :
  length (snKey sn) = length (snValue sn) ->
  (forall j, (j < length (snKey sn))%nat -> parsesAt m sn j) ->
  snLink sn = Some links ->
  (length (snKey sn) + 1 < length links)%nat ->
  contentHash_Load l m = Panic index_panic.
Proof.
  intros Hlen Hp Hlinks Hlong. rewrite contentHash_Load_unfold.
  destruct (Nat.eqb_spec (length (snKey sn)) (length (snValue sn)));
    [simpl|contradiction].
  destruct (entries_loop_Ok l m sn (length (snKey sn)) 0 (blank sn)) as (n & En).
  - simpl. rewrite length_replicate. lia.
  - simpl. rewrite length_replicate. lia.
  - intros j Hj. apply Hp. lia.
  - rewrite En. simpl. rewrite Hlinks.
    apply entries_loop_inv in En as (_ & _ & _ & Hl & _).
    apply loadLinks_Panic; rewrite Hl; simpl; rewrite length_replicate; lia.
Qed.

Lemma Load_Ok :
  length (snKey sn) = length (snValue sn) ->
  (forall j, (j < length (snKey sn))%nat -> parsesAt m sn j) ->
  (forall links, snLink sn = Some links ->
                 (length links <= length (snKey sn) + 1)%nat) ->
  exists n, contentHash_Load l m = Ok n.
Proof.
  intros Hlen Hp Hfit. rewrite contentHash_Load_unfold.
  destruct (Nat.eqb_spec (length (snKey sn)) (length (snValue sn)));
    [simpl|contradiction].
  destruct (entries_loop_Ok l m sn (length (snKey sn)) 0 (blank sn)) as (n & En).
  - simpl. rewrite length_replicate. lia.
  - simpl. rewrite length_replicate. lia.
  - intros j Hj. apply Hp. lia.
  - rewrite En. simpl.
    apply entries_loop_inv in En as (_ & _ & _ & Hl & _).
    destruct (snLink sn) as [links|]; [|eauto].
    apply loadLinks_Ok. rewrite Hl. simpl. rewrite length_replicate.
    specialize (Hfit links eq_refl). lia.
Qed.

(** C8 (amended).  Once the bytes of the node are loaded and decoded into
    key, value and link arrays, loading fails with a decoding error when the
    key and value arrays differ in length, when a key blob does not decode,
    or -- provided a [ValuesLike] prototype is configured ([zeroValue] is not
    nil) -- when a value blob does not decode; the error names the first
    such index and the node ([cannot unmarshal key[i] in l]).  Without a
    prototype the value blobs are not decoded at all, and every value is
    nil.  On success the node has one link more than it has keys; an empty
    string decodes to a nil link, and so does every slot the [Link] array
    does not reach, all of them when the array is omitted. *)
Theorem contentHash_Load_decoding :
  (length (snKey sn) <> length (snValue sn) ->
   contentHash_Load l m = Err (mismatched l))
  /\ (forall i blob e,
        length (snKey sn) = length (snValue sn) ->
        zeroKey m <> INil ->
        (forall j, (j < i)%nat -> parsesAt m sn j) ->
        snKey sn !! i = Some blob ->
        intoLike (unmarshal m) (zeroKey m) blob = Err e ->
        contentHash_Load l m = Err (Wrapf (atKey i l) e))
  /\ (forall i kb blob k e,
        length (snKey sn) = length (snValue sn) ->
        zeroKey m <> INil ->
        zeroValue m <> INil ->
        (forall j, (j < i)%nat -> parsesAt m sn j) ->
        snKey sn !! i = Some kb ->
        intoLike (unmarshal m) (zeroKey m) kb = Ok k ->
        snValue sn !! i = Some blob ->
        intoLike (unmarshal m) (zeroValue m) blob = Err e ->
        contentHash_Load l m = Err (Wrapf (atValue i l) e))
  /\ (length (snKey sn) = length (snValue sn) ->
      (forall j, (j < length (snKey sn))%nat -> parsesAt m sn j) ->
      (forall links, snLink sn = Some links ->
                     (length links <= length (snKey sn) + 1)%nat) ->
      exists n, contentHash_Load l m = Ok n)
  /\ (forall n, contentHash_Load l m = Ok n ->
        length (snKey sn) = length (snValue sn)
        /\ length (Key n) = length (snKey sn)
        /\ length (Value n) = length (snKey sn)
        /\ length (Link n) = (length (snKey sn) + 1)%nat
        /\ (forall i, (i < length (snKey sn))%nat ->
              parsesAt m sn i /\ decodedAt m sn n i)
        /\ match snLink sn with
           | None => Link n = replicate (length (snKey sn) + 1) LNil
           | Some links =>
               (length links <= length (snKey sn) + 1)%nat
               /\ (forall j s, links !! j = Some s ->
                     Link n !! j
                     = Some (if decide (s = "") then LNil else LHash s))
               /\ (forall j, (length links <= j < length (snKey sn) + 1)%nat ->
                     Link n !! j = Some LNil)
           end).
Proof.
  split; [exact Load_mismatched|].
  split; [exact Load_bad_key|].
  split; [exact Load_bad_value|].
  split; [exact Load_Ok|exact Load_Ok_inv].
Qed.

(** C10.  Loading is not total: when the decoded [Link] array is longer than
    the decoded [Key] array plus one (and the keys and values decode), the
    assignment to [node.Link[i]] runs past the end of the slice and the call
    panics with an index out of range, returning neither a node nor an
    error. *)
Theorem contentHash_Load_long_Link_panics (links : list string) :
  length (snKey sn) = length (snValue sn) ->
  (forall j, (j < length (snKey sn))%nat -> parsesAt m sn j) ->
  snLink sn = Some links ->
  (length (snKey sn) + 1 < length links)%nat ->
  contentHash_Load l m = Panic index_panic.
Proof. exact (Load_long_Link links). Qed.

End Loader_properties.

(** ** Get and Delete *)

Section Lookup_properties.
Context {helpers : Helpers}.

Lemma reach_inv (create : bool) (m : Mast) (key : iface)
    (place : mastNode * nat * findOptions) :
  reach create m key = Ok place ->
  exists n0 layer,
    isNil (root m) = false
    /\ load m (root m) = Ok n0
    /\ keyLayer m key (branchFactor m) = Ok layer
    /\ findNode n0 m key {| targetLayer := uint8min layer (height m);
                            currentHeight := height m;
                            createMissingNodes := create;
                            path := [] |} = Ok place.
Proof.
  unfold reach. intros E.
  apply bindR_Ok in E as (n0 & E0 & E). apply bindR_Ok in E as (layer & El & E).
  exists n0, layer. split_and!; try assumption.
  destruct (root m); [discriminate|reflexivity|reflexivity].
Qed.

(** C6.  For a key that is not in the tree -- the tree has no root, or the
    search ends where there is no entry for the key -- [Get] returns false
    with a nil error, and leaves the tree and the variable behind the value
    pointer as they were. *)
Theorem Get_absent (k : iface) (ptr : option iface) (m : Mast) :
  absent m k -> Get k ptr m = (Ok (false, ptr), m).
Proof.
  intros [Hnil|([[n i] o] & Hreach & Hno)]; unfold Get, bindM, getM, retM, liftR.
  - rewrite Hnil. reflexivity.
  - apply reach_inv in Hreach as (n0 & layer & Hroot & Hload & Hlayer & Hfind).
    rewrite Hroot, Hload, Hlayer. simpl. rewrite Hfind.
    destruct Hno as [Hl|[Hi|(ki & c & Hki & Hc & Hne)]].
    + destruct (Nat.leb_spec (length (Key n)) i); simpl; [reflexivity|].
      destruct (Z.eqb_spec (targetLayer o) (currentHeight o)); [contradiction|reflexivity].
    + subst i. rewrite Nat.leb_refl. reflexivity.
    + assert (Hlt : (i < length (Key n))%nat) by (eapply lookup_lt_Some; eassumption).
      destruct (Nat.leb_spec (length (Key n)) i); [lia|]. simpl.
      destruct (negb (targetLayer o =? currentHeight o)); [reflexivity|].
      apply index_Ok in Hki. rewrite Hki, Hc. simpl.
      destruct (Z.eqb_spec c 0); [contradiction|reflexivity].
Qed.

(** Every error of [Get] is an error of loading the root, of [keyLayer], of
    [findNode] or of [keyOrder]. *)
Lemma Get_Err (k : iface) (ptr : option iface) (m m' : Mast) (e : error) :
  Get k ptr m = (Err e, m') ->
  load m (root m) = Err e
  \/ (exists c, keyLayer m k (branchFactor m) = Err c /\ e = Wrapf "layer" c)
  \/ (exists n0 options, findNode n0 m k options = Err e)
  \/ (exists ki c, keyOrder m ki k = Err c /\ e = Wrapf "keyCompare" c).
Proof.
  unfold Get, bindM, getM, retM, liftR.
  destruct (isNil (root m)); [discriminate|].
  destruct (load m (root m)) as [n0| | |]; try discriminate;
    [|intros E; injection E as <- _; auto].
  destruct (keyLayer m k (branchFactor m)) as [layer| c | |] eqn:El; simpl;
    try discriminate; [|intros E; injection E as <- _; eauto].
  match goal with |- context [findNode n0 m k ?o] =>
    destruct (findNode n0 m k o) as [[[n i] o']| | |] eqn:Ef end;
    try discriminate; [|intros E; injection E as <- _; eauto 6].
  destruct (_ || _); [discriminate|].
  unfold index. destruct (Key n !! i) as [ki|]; [|discriminate].
  destruct (keyOrder m ki k) as [c|c| |] eqn:Ec; simpl; try discriminate.
  - destruct (negb (c =? 0)); [discriminate|].
    destruct ptr; [|discriminate].
    destruct (Value n !! i); [|discriminate].
    destruct (bool_decide _); discriminate.
  - intros E. injection E as <- _. eauto 8.
Qed.

(** C9.  When the tree holds key [k] with a nil value and [Get] is given a
    value pointer, [Get] returns true with a nil error and leaves the
    variable behind the pointer, and the tree, as they were. *)
Theorem Get_nil_value (k old : iface) (m : Mast) :
  present m k INil -> Get k (Some old) m = (Ok (true, Some old), m).
Proof.
  intros ([[n i] o] & Hreach & Hl & ki & Hki & Hc & Hv).
  unfold Get, bindM, getM, retM, liftR.
  apply reach_inv in Hreach as (n0 & layer & Hroot & Hload & Hlayer & Hfind).
  rewrite Hroot, Hload, Hlayer. simpl. rewrite Hfind.
  assert (Hlt : (i < length (Key n))%nat) by (eapply lookup_lt_Some; eassumption).
  destruct (Nat.leb_spec (length (Key n)) i); [lia|]. simpl.
  rewrite Hl, Z.eqb_refl. simpl.
  apply index_Ok in Hki, Hv. rewrite Hki, Hc, Hv. simpl. reflexivity.
Qed.

End Lookup_properties.

Section Delete_properties.
Context {helpers : Helpers}.

Lemma sliceTo_Ok {A} (s : list A) (i : nat) :
  (i <= length s)%nat -> sliceTo s i = Ok (take i s).
Proof. intros H. unfold sliceTo. destruct (decide (i <= length s)%nat); [reflexivity|lia]. Qed.

Lemma sliceFrom_Ok {A} (s : list A) (i : nat) :
  (i <= length s)%nat -> sliceFrom s i = Ok (drop i s).
Proof. intros H. unfold sliceFrom. destruct (decide (i <= length s)%nat); [reflexivity|lia]. Qed.

Lemma sliceTo_Ok_inv {A} (s s' : list A) (i : nat) :
  sliceTo s i = Ok s' -> (i <= length s)%nat /\ s' = take i s.
Proof. unfold sliceTo. destruct (decide (i <= length s)%nat); intros E; [injection E as <-; auto|discriminate]. Qed.

Lemma sliceFrom_Ok_inv {A} (s s' : list A) (i : nat) :
  sliceFrom s i = Ok s' -> (i <= length s)%nat /\ s' = drop i s.
Proof. unfold sliceFrom. destruct (decide (i <= length s)%nat); intros E; [injection E as <-; auto|discriminate]. Qed.


Lemma Delete_plan_at (key value found : iface) (m : Mast) (n : mastNode)
    (i : nat) (o : findOptions) :
  reach false m key = Ok (n, i, o) ->
  entryAt m (n, i, o) key found ->
  Delete_plan key value m
  = if negb (bool_decide (found = value)) then Err (valueMismatch found value)
    else
      (let* k1 := sliceTo (Key n) i in
       let* k2 := sliceFrom (Key n) (i + 1) in
       let* v1 := sliceTo (Value n) i in
       let* v2 := sliceFrom (Value n) (i + 1) in
       let* l1 := sliceTo (Link n) i in
       let* l2 := sliceFrom (Link n) (i + 1) in
       let* a := index (Link n) i in
       let* b := index (Link n) (i + 1) in
       let* mergedLink := wrapR "merge" (mergeNodes m a b) in
       let* ls := assign (l1 ++ l2) i mergedLink in
       let* _ := validateNode (MkNode (k1 ++ k2) (v1 ++ v2) ls) m in
       setLastNode (path o) (MkNode (k1 ++ k2) (v1 ++ v2) ls))%res.
Proof.
  intros Hreach (Hl & ki & Hki & Hc & Hv). unfold Delete_plan.
  apply reach_inv in Hreach as (n0 & layer & Hroot & Hload & Hlayer & Hfind).
  rewrite Hroot, Hload, Hlayer. simpl. rewrite Hfind. simpl.
  assert (Hlt : (i < length (Key n))%nat) by (eapply lookup_lt_Some; eassumption).
  rewrite Hl, Z.eqb_refl. simpl.
  destruct (Nat.eqb_spec i (length (Key n))); [lia|]. simpl.
  apply index_Ok in Hki, Hv. rewrite Hki. simpl. rewrite Hc. simpl.
  rewrite Hv. simpl. reflexivity.
Qed.


Lemma Delete_plan_Ok (key value : iface) (m : Mast) (p : list pathEntry.t) :
  Delete_plan key value m = Ok p <->
  exists n i o a b mergedLink,
    reach false m key = Ok (n, i, o)
    /\ entryAt m (n, i, o) key value
    /\ Link n !! i = Some a /\ Link n !! S i = Some b
    /\ mergeNodes m a b = Ok mergedLink
    /\ validateNode (without n i mergedLink) m = Ok tt
    /\ setLastNode (path o) (without n i mergedLink) = Ok p.
Proof.
  split.
  - intros E. unfold Delete_plan in E.
    destruct (isNil (root m)) eqn:Hroot; [discriminate|].
    apply bindR_Ok in E as (n0 & Hload & E). apply wrapR_Ok in Hload.
    apply bindR_Ok in E as (layer & Hlayer & E). apply wrapR_Ok in Hlayer.
    apply bindR_Ok in E as ([[n i] o] & Hfind & E). apply wrapR_Ok in Hfind.
    destruct (Z.eqb_spec (targetLayer o) (currentHeight o)) as [Hl|]; [|discriminate].
    destruct (Nat.eqb_spec i (length (Key n))); [discriminate|]. simpl in E.
    apply bindR_Ok in E as (ki & Hki & E). apply index_Ok in Hki.
    apply bindR_Ok in E as (c & Hc & E). apply wrapR_Ok in Hc.
    destruct (Z.eqb_spec c 0) as [->|]; [|discriminate]. simpl in E.
    apply bindR_Ok in E as (vi & Hvi & E). apply index_Ok in Hvi.
    destruct (bool_decide_reflect (vi = value)) as [->|]; [|discriminate]. simpl in E.
    apply bindR_Ok in E as (k1 & Hk1 & E). apply sliceTo_Ok_inv in Hk1 as (_ & ->).
    apply bindR_Ok in E as (k2 & Hk2 & E). apply sliceFrom_Ok_inv in Hk2 as (_ & ->).
    apply bindR_Ok in E as (v1 & Hv1 & E). apply sliceTo_Ok_inv in Hv1 as (_ & ->).
    apply bindR_Ok in E as (v2 & Hv2 & E). apply sliceFrom_Ok_inv in Hv2 as (_ & ->).
    apply bindR_Ok in E as (l1 & Hl1 & E). apply sliceTo_Ok_inv in Hl1 as (_ & ->).
    apply bindR_Ok in E as (l2 & Hl2 & E). apply sliceFrom_Ok_inv in Hl2 as (_ & ->).
    apply bindR_Ok in E as (a & Ha & E). apply index_Ok in Ha.
    apply bindR_Ok in E as (b & Hb & E). apply index_Ok in Hb.
    apply bindR_Ok in E as (mergedLink & Hm & E). apply wrapR_Ok in Hm.
    apply bindR_Ok in E as (ls & Hls & E). apply assign_Ok_inv in Hls as (_ & ->).
    apply bindR_Ok in E as ([] & Hval & E).
    rewrite Nat.add_1_r in *. rewrite <- !delete_take_drop in *.
    exists n, i, o, a, b, mergedLink. split_and!; try assumption.
    + unfold reach. rewrite Hload. simpl. rewrite Hlayer. simpl. exact Hfind.
    + split; [assumption|]. eauto.
  - intros (n & i & o & a & b & mergedLink & Hreach & Hentry & Ha & Hb & Hm & Hval & Hp).
    rewrite (Delete_plan_at _ _ _ _ _ _ _ Hreach Hentry).
    rewrite bool_decide_eq_true_2 by reflexivity. simpl.
    destruct Hentry as (_ & ki & Hki & _ & Hvi).
    apply lookup_lt_Some in Hki, Hvi. pose proof (lookup_lt_Some _ _ _ Hb) as HLb.
    rewrite !sliceTo_Ok, !sliceFrom_Ok by lia. simpl.
    apply index_Ok in Ha, Hb. rewrite Nat.add_1_r. rewrite Ha, Hb. simpl.
    rewrite Hm. simpl. rewrite <- !delete_take_drop.
    rewrite assign_Ok by (rewrite length_delete by (apply lookup_lt_is_Some; lia); lia).
    simpl. fold (without n i mergedLink). rewrite Hval. simpl. exact Hp.
Qed.


End Delete_properties.

(** ** Insert *)

Section Splice.
Context {A : Type}.

Lemma copy_fresh (d : A) (s : list A) (i k : nat) :
  (i <= length s)%nat -> (i <= k)%nat ->
  copy_ (replicate k d) (take i s) = take i s ++ replicate (k - i) d.
Proof.
  intros Hi Hk. unfold copy_. rewrite length_replicate, length_take.
  rewrite Nat.min_l by lia. rewrite take_take. rewrite Nat.min_r by lia.
  rewrite drop_replicate. reflexivity.
Qed.

Lemma copy_over (d : A) (s : list A) :
  copy_ (replicate (length s) d) s = s.
Proof.
  unfold copy_. rewrite length_replicate, firstn_all, drop_replicate, Nat.sub_diag.
  simpl. apply app_nil_r.
Qed.

(** [make], [copy] of the head, assignment at [i], [copy] of the tail one
    place further: the new element is spliced in at [i]. *)
Lemma splice_entry (d v : A) (s : list A) (i : nat) :
  (i <= length s)%nat ->
  copyAt (<[i:=v]> (copy_ (replicate (length s + 1) d) (take i s))) (i + 1)
         (drop i s)
  = Ok (take i s ++ v :: drop i s).
Proof.
  intros Hi. rewrite copy_fresh by lia.
  replace (length s + 1 - i)%nat with (S (length s - i)) by lia.
  rewrite insert_app_r_alt by (rewrite length_take; lia).
  rewrite length_take, Nat.min_l, Nat.sub_diag by lia. simpl.
  unfold copyAt.
  destruct (decide _) as [_|Hn];
    [|exfalso; apply Hn; rewrite length_app, length_take; simpl;
      rewrite length_replicate; lia].
  f_equal.
  replace (i + 1)%nat with (length (take i s ++ [v]))
    by (rewrite length_app, length_take; simpl; lia).
  replace (take i s ++ v :: replicate (length s - i) d)
    with ((take i s ++ [v]) ++ replicate (length s - i) d)
    by (rewrite <- app_assoc; reflexivity).
  rewrite take_app_length, drop_app_length.
  replace (length s - i)%nat with (length (drop i s)) by (rewrite length_drop; lia).
  rewrite copy_over, <- app_assoc. reflexivity.
Qed.

(** The same for the links, where two fresh slots open at [i] and [i+1]. *)
Lemma splice_links (d : A) (s : list A) (i : nat) :
  (i + 1 <= length s)%nat ->
  copyAt (copy_ (replicate (length s + 1) d) (take i s)) (i + 2)
         (drop (i + 1) s)
  = Ok (take i s ++ d :: d :: drop (S i) s).
Proof.
  intros Hi. rewrite copy_fresh by lia.
  replace (length s + 1 - i)%nat with (S (S (length s - i - 1))) by lia.
  simpl. unfold copyAt.
  destruct (decide _) as [_|Hn];
    [|exfalso; apply Hn; rewrite length_app, length_take; simpl;
      rewrite length_replicate; lia].
  f_equal.
  replace (i + 2)%nat with (length (take i s ++ [d; d]))
    by (rewrite length_app, length_take; simpl; lia).
  replace (take i s ++ d :: d :: replicate (length s - i - 1) d)
    with ((take i s ++ [d; d]) ++ replicate (length s - i - 1) d)
    by (rewrite <- app_assoc; reflexivity).
  rewrite take_app_length, drop_app_length.
  replace (length s - i - 1)%nat with (length (drop (i + 1) s))
    by (rewrite length_drop; lia).
  rewrite copy_over, <- app_assoc, Nat.add_1_r. reflexivity.
Qed.

End Splice.

Section Insert_properties.
Context {helpers : Helpers}.

Lemma reach_create (m : Mast) (key : iface) (n0 : mastNode) (layer : Z)
    (place : mastNode * nat * findOptions) :
  load m (root m) = Ok n0 ->
  keyLayer m key (branchFactor m) = Ok layer ->
  findNode n0 m key {| targetLayer := uint8min layer (height m);
                       currentHeight := height m;
                       createMissingNodes := true;
                       path := [] |} = Ok place ->
  reach true m key = Ok place.
Proof. intros Hl Hk Hf. unfold reach. rewrite Hl. simpl. rewrite Hk. exact Hf. Qed.


Lemma Insert_plan_Ok_inv (key value : iface) (m : Mast) (plan : insertPlan) :
  Insert_plan key value m = Ok plan ->
  exists n i o,
    reach true m key = Ok (n, i, o)
    /\ targetLayer o = currentHeight o
    /\ match plan with
       | NoChange => entryAt m (n, i, o) key value
       | Replace p =>
           exists old, entryAt m (n, i, o) key old /\ old <> value
                       /\ setLastNode (path o) (withValue n i value) = Ok p
       | Add p =>
           noEntryAt m (n, i, o) key
           /\ exists leftLink rightLink,
                setLastNode (path o)
                            (withEntry n i key value leftLink rightLink) = Ok p
                /\ ((Link n !! i = Some LNil
                     /\ leftLink = LNil /\ rightLink = LNil)
                    \/ exists c child,
                         Link n !! i = Some c /\ isNil c = false
                         /\ load m c = Ok child
                         /\ split child key m = Ok (leftLink, rightLink))
       end.
Proof.
  unfold Insert_plan. intros E.
  apply bindR_Ok in E as (layer & Hlayer & E). apply wrapR_Ok in Hlayer.
  apply bindR_Ok in E as (n0 & Hload & E).
  apply bindR_Ok in E as ([[n i] o] & Hfind & E).
  destruct (Z.eqb_spec (targetLayer o) (currentHeight o)) as [Hl|]; [|discriminate].
  simpl in E. apply bindR_Ok in E as (found & Hfound & E).
  exists n, i, o. split; [eapply reach_create; eassumption|]. split; [assumption|].
  assert (Hf : (found = true /\ exists ki, Key n !! i = Some ki
                                           /\ keyOrder m ki key = Ok 0)
               \/ (found = false /\ noEntryAt m (n, i, o) key
                   /\ ((length (Key n) <= i)%nat \/ (i < length (Key n))%nat))).
  { destruct (Nat.ltb_spec i (length (Key n))) as [Hlt|Hge].
    - apply bindR_Ok in Hfound as (ki & Hki & Hfound). apply index_Ok in Hki.
      apply bindR_Ok in Hfound as (c & Hc & Hfound). apply wrapR_Ok in Hc.
      injection Hfound as <-. destruct (Z.eqb_spec c 0) as [->|Hne].
      + left. eauto.
      + right. split; [reflexivity|]. split; [|right; assumption].
        right. right. eauto.
    - injection Hfound as <-. right. split; [reflexivity|].
      split; [|left; assumption].
      unfold sliceTo in E. destruct (decide (i <= length (Key n))%nat);
        [|discriminate].
      right. left. lia. }
  destruct Hf as [[-> (ki & Hki & Hc)]|[-> [Hno _]]].
  - apply bindR_Ok in E as (vi & Hvi & E). apply index_Ok in Hvi.
    destruct (bool_decide_reflect (vi = value)) as [->|Hne].
    + injection E as <-. split; [assumption|]. eauto.
    + apply bindR_Ok in E as (vs & Hvs & E). apply assign_Ok_inv in Hvs as (_ & ->).
      apply bindR_Ok in E as (p & Hp & E). injection E as <-.
      exists vi. split; [split; [assumption|eauto]|]. split; assumption.
  - unfold copy in E.
    apply bindR_Ok in E as (ks0 & Hks0 & E). apply sliceTo_Ok_inv in Hks0 as (HiK & ->).
    apply bindR_Ok in E as (ks1 & Hks1 & E). apply assign_Ok_inv in Hks1 as (_ & ->).
    apply bindR_Ok in E as (vs0 & Hvs0 & E). apply sliceTo_Ok_inv in Hvs0 as (HiV & ->).
    apply bindR_Ok in E as (vs1 & Hvs1 & E). apply assign_Ok_inv in Hvs1 as (_ & ->).
    apply bindR_Ok in E as (ls0 & Hls0 & E). apply sliceTo_Ok_inv in Hls0 as (HiL & ->).
    apply bindR_Ok in E as ([[ks vs] ls] & Hcopy & E).
    rewrite length_insert in Hcopy.
    rewrite copy_fresh with (s := Key n) in Hcopy by lia.
    rewrite length_app, length_take, length_replicate in Hcopy.
    destruct (Nat.ltb_spec i (i `min` length (Key n) + (length (Key n) + 1 - i)));
      [|lia].
    rewrite <- copy_fresh in Hcopy by lia.
    apply bindR_Ok in Hcopy as (src & Hsrc & Hcopy). apply sliceFrom_Ok_inv in Hsrc as (_ & ->).
    rewrite splice_entry in Hcopy by lia. simpl in Hcopy.
    apply bindR_Ok in Hcopy as (src & Hsrc & Hcopy). apply sliceFrom_Ok_inv in Hsrc as (_ & ->).
    rewrite splice_entry in Hcopy by lia. simpl in Hcopy.
    apply bindR_Ok in Hcopy as (src & Hsrc & Hcopy). apply sliceFrom_Ok_inv in Hsrc as (HiL1 & ->).
    rewrite splice_links in Hcopy by lia. simpl in Hcopy.
    injection Hcopy as <- <- <-.
    apply bindR_Ok in E as (old_i & Hold & E). apply index_Ok in Hold.
    apply bindR_Ok in E as ([leftLink rightLink] & Hsplit & E).
    apply bindR_Ok in E as (ls1 & Hls1 & E). apply assign_Ok_inv in Hls1 as (_ & ->).
    apply bindR_Ok in E as (ls2 & Hls2 & E). apply assign_Ok_inv in Hls2 as (_ & ->).
    apply bindR_Ok in E as (p & Hp & E). injection E as <-.
    split; [assumption|]. exists leftLink, rightLink.
    assert (Hshape : <[(i + 1)%nat:=rightLink]>
                       (<[i:=leftLink]>
                          (take i (Link n) ++ LNil :: LNil :: drop (S i) (Link n)))
                     = take i (Link n) ++ leftLink :: rightLink :: drop (S i) (Link n)).
    { rewrite insert_app_r_alt by (rewrite length_take; lia).
      rewrite length_take, Nat.min_l, Nat.sub_diag by lia. simpl.
      rewrite insert_app_r_alt by (rewrite length_take; lia).
      rewrite length_take, Nat.min_l by lia.
      replace (i + 1 - i)%nat with 1%nat by lia. reflexivity. }
    rewrite Hshape in Hp. split; [exact Hp|].
    destruct (isNil old_i) eqn:Hnil; simpl in Hsplit.
    + left. destruct old_i; try discriminate.
      apply bindR_Ok in Hsplit as (r & Hr & Hsplit). apply index_Ok in Hr.
      rewrite lookup_app_r in Hr by (rewrite length_take; lia).
      rewrite length_take, Nat.min_l, Nat.sub_diag in Hr by lia. simpl in Hr.
      injection Hr as <-. injection Hsplit as <- <-. auto.
    + right. apply bindR_Ok in Hsplit as (child & Hchild & Hsplit).
      apply wrapR_Ok in Hsplit. eauto 7.
Qed.





(** What the specification says of the helpers that assign to the tree:
    saving a path and growing leave the number of entries alone. *)
Hypothesis savePathForRoot_size :
  forall p m r m', savePathForRoot p m = (r, m') -> size m' = size m.
Hypothesis grow_size :
  forall m r m', grow m = (r, m') -> size m' = size m.

Lemma growLoop_size (fuel : nat) (p : list pathEntry.t) :
  forall m r m', growLoop fuel p m = (r, m') -> size m' = size m.
Proof.
  induction fuel as [|fuel IH]; intros m r m' E; simpl in E.
  - destruct (growAfterSize m <=? size m); injection E as _ <-; reflexivity.
  - destruct (growAfterSize m <=? size m); [|injection E as _ <-; reflexivity].
    unfold bindM, liftR, wrapM, retM in E.
    destruct (index p 0) as [e| | |]; try (injection E as _ <-; reflexivity).
    destruct (wrapR "canGrow" _) as [[|]| | |];
      try (injection E as _ <-; reflexivity).
    simpl in E. destruct (grow m) as [[[]| | |] m1] eqn:Eg; simpl in E;
      try (injection E as _ <-; eapply grow_size; eassumption).
    apply IH in E. rewrite E. eapply grow_size; eassumption.
Qed.

Lemma growLoop_exit (fuel : nat) (p : list pathEntry.t) :
  forall m m', growLoop fuel p m = (Ok tt, m') ->
    size m' < growAfterSize m'
    \/ exists e, p !! 0%nat = Some e
                 /\ canGrow (pathEntry.node e) (height m') (keyLayer m')
                            (branchFactor m') = Ok false.
Proof.
  induction fuel as [|fuel IH]; intros m m' E; simpl in E.
  - destruct (Z.leb_spec (growAfterSize m) (size m)); [discriminate|].
    injection E as <-. left. assumption.
  - destruct (Z.leb_spec (growAfterSize m) (size m));
      [|injection E as <-; left; assumption].
    unfold bindM, liftR, wrapM, retM in E.
    destruct (index p 0) as [e| | |] eqn:Ee; try discriminate.
    apply index_Ok in Ee.
    destruct (canGrow (pathEntry.node e) (height m) (keyLayer m) (branchFactor m))
      as [[|]| | |] eqn:Ec; simpl in E; try discriminate.
    + destruct (grow m) as [[[]| | |] m1] eqn:Eg; simpl in E; try discriminate.
      apply IH in E. exact E.
    + injection E as <-. right. eauto.
Qed.


(** What [Insert] guarantees about growing.  When it adds a new entry, the
    grow loop runs first, on the size as it was before the call, and the size
    is incremented last.  So on return the size before the increment is below
    [growAfterSize], or the node at the head of the saved path cannot grow at
    the height reached; the size after the increment may equal
    [growAfterSize]. *)
Theorem Insert_grows_before_increment (fuel : nat) (key value : iface)
    (m m' : Mast) (p0 : list pathEntry.t) :
  Insert_plan key value m = Ok (Add p0) ->
  Insert fuel key value m = (Ok tt, m') ->
  exists p m1 m2,
    savePathForRoot p0 m = (Ok p, m1)
    /\ growLoop fuel p m1 = (Ok tt, m2)
    /\ m' = set_size (wrap64 (size m + 1)) m2
    /\ (size m < growAfterSize m'
        \/ exists e, p !! 0%nat = Some e
                     /\ canGrow (pathEntry.node e) (height m') (keyLayer m')
                                (branchFactor m') = Ok false).
Proof.
  intros Ep E. unfold Insert, bindM, getM, liftR, wrapM, modifyM in E.
  rewrite Ep in E.
  destruct (savePathForRoot p0 m) as [[p| | |] m1] eqn:Es; simpl in E;
    try discriminate.
  destruct (growLoop fuel p m1) as [[[]| | |] m2] eqn:Eg; try discriminate.
  injection E as <-. exists p, m1, m2.
  pose proof (growLoop_size _ _ _ _ _ Eg) as Hs2.
  pose proof (savePathForRoot_size _ _ _ _ Es) as Hs1.
  split; [reflexivity|]. split; [exact Eg|].
  split; [f_equal; f_equal; lia|].
  simpl. apply growLoop_exit in Eg as [Hlt|Hcan]; [left; lia|right; assumption].
Qed.

End Insert_properties.

(** ** The operations on concrete trees *)

Lemma Spec_savePathForRoot_size (p : list pathEntry.t) (m : Mast)
    (r : res (list pathEntry.t)) (m' : Mast) :
  savePathForRoot (Helpers := specHelpers) p m = (r, m') -> size m' = size m.
Proof.
  simpl. unfold Spec.savePathForRoot, bindM, liftR, modifyM, retM.
  destruct (Spec.relink p) as [p'| | |]; try (intros E; injection E as _ <-; reflexivity).
  destruct (index p' 0) as [e| | |]; intros E; injection E as _ <-; reflexivity.
Qed.

Lemma Spec_grow_size (m : Mast) (r : res unit) (m' : Mast) :
  grow (Helpers := specHelpers) m = (r, m') -> size m' = size m.
Proof.
  simpl. unfold Spec.grow, bindM, getM, liftR, modifyM.
  destruct (load m (root m)) as [n| | |]; try (intros E; injection E as _ <-; reflexivity).
  destruct (Spec.growParts _ _ _ _ _ _) as [n'| | |];
    intros E; injection E as _ <-; reflexivity.
Qed.


(** After that call the root is another node, and [Get] finds the key with
    its value. *)
Lemma Insert_then_Get :
  let m' := snd (Insert (helpers := specHelpers) 256 (IInt 16) (IInt 1600)
                        Fixture.fifteen) in
  root m' <> root Fixture.fifteen
  /\ fst (Get (helpers := specHelpers) (IInt 16) (Some INil) m')
     = Ok (true, Some (IInt 1600)).
Proof. split; [vm_compute; discriminate|vm_compute; reflexivity]. Qed.

(** The same call, read for the order of growing and counting. *)
Lemma Insert_grows_before_increment_witness :
  let m := Fixture.fifteen in
  let m' := snd (Insert (helpers := specHelpers) 256 (IInt 16) (IInt 1600) m) in
  exists p m1 m2,
    savePathForRoot (Helpers := specHelpers) Fixture.addPath m = (Ok p, m1)
    /\ growLoop (helpers := specHelpers) 256 p m1 = (Ok tt, m2)
    /\ m' = set_size (wrap64 (size m + 1)) m2
    /\ (size m < growAfterSize m'
        \/ exists e, p !! 0%nat = Some e
             /\ canGrow (Helpers := specHelpers) (pathEntry.node e) (height m')
                        (keyLayer m') (branchFactor m') = Ok false).
Proof.
  apply (Insert_grows_before_increment (helpers := specHelpers)
           Spec_savePathForRoot_size Spec_grow_size
           256 (IInt 16) (IInt 1600) Fixture.fifteen).
  - vm_compute. reflexivity.
  - apply pair_of_fst. vm_compute. reflexivity.
Defined.

(** C4: the code at a failing input.  [Insert(16, 1600)] on the tree of 1..15
    adds an entry and returns with size 16, [growAfterSize] 16 and height 0,
    although the root holds the key 10, whose layer is 1: on return the size
    is not below the threshold and the root can grow. *)
Lemma Insert_returns_at_threshold :
  let out := Insert (helpers := specHelpers) 256 (IInt 16) (IInt 1600)
                    Fixture.fifteen in
  let m' := snd out in
  fst out = Ok tt
  /\ size Fixture.fifteen = 15 /\ size m' = 16
  /\ growAfterSize m' = 16 /\ height m' = 0
  /\ ~ size m' < growAfterSize m'
  /\ exists n, root m' = LNode n
       /\ canGrow (Helpers := specHelpers) n (height m') (keyLayer m')
                  (branchFactor m') = Ok true.
Proof.
  split; [vm_compute; reflexivity|].
  split; [vm_compute; reflexivity|].
  split; [vm_compute; reflexivity|].
  split; [vm_compute; reflexivity|].
  split; [vm_compute; reflexivity|].
  split; [vm_compute; discriminate|].
  eexists. split; [vm_compute; reflexivity|].
  vm_compute. reflexivity.
Qed.

(** What the late increment costs: the entries 1..16 make a tree of height 0
    when inserted one after the other, and a tree of height 1 when 17 is
    inserted as well and deleted again, whereas [Delete] shrinks on the size
    after its decrement. *)
Lemma height_depends_on_history :
  let m16 := snd (Fixture.insertInts (map Z.of_nat (seq 1 16)) Fixture.empty) in
  let m17 := snd (Fixture.insertInts (map Z.of_nat (seq 1 17)) Fixture.empty) in
  let out := Delete (helpers := specHelpers) 256 (IInt 17) (IInt 1700) m17 in
  fst out = Ok tt
  /\ size m16 = 16 /\ height m16 = 0
  /\ size (snd out) = 16 /\ height (snd out) = 1.
Proof. vm_compute. repeat split. Qed.

(** The key 77 is not in the tree of 1..15, and no key is in the empty
    tree. *)
Lemma Get_absent_witness :
  Get (helpers := specHelpers) (IInt 77) (Some (IInt 0)) Fixture.fifteen
  = (Ok (false, Some (IInt 0)), Fixture.fifteen)
  /\ Get (helpers := specHelpers) (IInt 1) None Fixture.empty
     = (Ok (false, None), Fixture.empty).
Proof.
  split; apply (Get_absent (helpers := specHelpers)).
  - right. eexists (_, _, _). split; [vm_compute; reflexivity|].
    right. right. exists (IInt 8), 1. split; [reflexivity|].
    split; [vm_compute; reflexivity|discriminate].
  - right. eexists (_, _, _). split; [vm_compute; reflexivity|].
    right. left. reflexivity.
Defined.

(** The key 5 is in [Fixture.withNil] with a nil value. *)
Lemma Get_nil_value_witness :
  Get (helpers := specHelpers) (IInt 5) (Some (IInt 42)) Fixture.withNil
  = (Ok (true, Some (IInt 42)), Fixture.withNil).
Proof.
  apply (Get_nil_value (helpers := specHelpers)).
  eexists (_, _, _). split; [vm_compute; reflexivity|].
  split; [reflexivity|]. exists (IInt 5). split; [reflexivity|].
  split; [vm_compute; reflexivity|reflexivity].
Defined.

(** Scenario S2 on the tree of 1..15: a wrong value and an absent key are
    refused and leave the tree alone; the right value removes the entry. *)
Lemma Delete_examples :
  let m := Fixture.fifteen in
  let del k v := Delete (helpers := specHelpers) 256 (IInt k) (IInt v) m in
  fst (del 7 2) = Err (valueMismatch (IInt 700) (IInt 2))
  /\ observable (snd (del 7 2)) = observable m
  /\ fst (del 77 2) = Err (notPresent (IInt 77))
  /\ observable (snd (del 77 2)) = observable m
  /\ fst (del 7 700) = Ok tt
  /\ size (snd (del 7 700)) = 14
  /\ fst (Get (helpers := specHelpers) (IInt 7) None (snd (del 7 700)))
     = Ok (false, None).
Proof. vm_compute. repeat split. Qed.

(** The blob [badvalue], with a prototype for values: the second value does
    not decode, and the error says so. *)
Lemma contentHash_Load_decoding_witness :
  contentHash_Load "badvalue" Fixture.malformedTree
  = Err (Wrapf (atValue 1 "badvalue") Spec.codecError)
  /\ message (Wrapf (atValue 1 "badvalue") Spec.codecError)
     = "cannot unmarshal value[1] in badvalue: invalid character".
Proof.
  split; [|vm_compute; reflexivity].
  refine (proj1 (proj2 (proj2
            (contentHash_Load_decoding "badvalue" Fixture.malformedTree
               Fixture.malformed
               (Fixture.encode ["1"; "2"] ["100"; "y"] (Some ["a"; ""; "c"]))
               Fixture.badvalueNode _ _ _)))
            1%nat (Spec.bytesOf "2") (Spec.bytesOf "y") (IInt 2)
            Spec.codecError _ _ _ _ _ _ _ _).
  - reflexivity.
  - vm_compute. reflexivity.
  - vm_compute. reflexivity.
  - reflexivity.
  - vm_compute. discriminate.
  - vm_compute. discriminate.
  - intros j Hj. assert (j = 0%nat) as -> by lia.
    split; [vm_compute; discriminate|].
    split; [exists (Spec.bytesOf "1"), (IInt 1)|right; exists (Spec.bytesOf "100"), (IInt 100)];
      split; vm_compute; reflexivity.
  - reflexivity.
  - vm_compute. reflexivity.
  - reflexivity.
  - vm_compute. reflexivity.
Defined.

(** C8, as stated, fails.  Without a [ValuesLike] prototype the blob
    [badvalue] loads, although its second value blob decodes against no
    prototype at all. *)
Lemma contentHash_Load_skips_values :
  let m := Fixture.malformedKeysOnly in
  snValue Fixture.badvalueNode !! 1%nat = Some (Spec.bytesOf "y")
  /\ (forall proto, isOk (intoLike (unmarshal m) proto (Spec.bytesOf "y")) = false)
  /\ (exists p nodeBytes,
        persist m = Some p /\ PersistLoad p "badvalue" = Ok nodeBytes
        /\ intoNode (unmarshal m) nodeBytes = Ok Fixture.badvalueNode)
  /\ contentHash_Load "badvalue" m
     = Ok (MkNode [IInt 1; IInt 2] [INil; INil] [LHash "a"; LNil; LHash "c"]).
Proof.
  split; [reflexivity|].
  split; [intros [|z|s]; vm_compute; reflexivity|].
  split; [|vm_compute; reflexivity].
  eexists _, _. split; [reflexivity|]. split; vm_compute; reflexivity.
Qed.

(** The blob [long]: no entry, two links. *)
Lemma contentHash_Load_long_Link_panics_witness :
  contentHash_Load "long" Fixture.malformedTree = Panic index_panic.
Proof.
  apply (contentHash_Load_long_Link_panics "long" Fixture.malformedTree
           Fixture.malformed (Fixture.encode [] [] (Some ["a"; "b"]))
           Fixture.longNode) with (links := ["a"; "b"]).
  - reflexivity.
  - vm_compute. reflexivity.
  - vm_compute. reflexivity.
  - reflexivity.
  - simpl. intros j Hj. lia.
  - reflexivity.
  - simpl. lia.
Defined.

(** ** The search of the model, and the nodes of the tree *)

Lemma findNodeFrom_nodeOf (fuel : nat) :
  forall (n : mastNode) (m : Mast) (key : iface) (o : findOptions)
         (n' : mastNode) (i : nat) (o' : findOptions),
    createMissingNodes o = false ->
    Spec.findNodeFrom fuel n m key o = Ok (n', i, o') ->
    rtc (child m) n n'.
Proof.
  induction fuel as [|fuel IH]; intros n m key o n' i o' Hc E; simpl in E;
    apply bindR_Ok in E as (j & _ & E);
    (destruct (currentHeight o =? targetLayer o);
     [injection E as <- _ _; apply rtc_refl|]);
    apply bindR_Ok in E as (l & Hl & E); apply index_Ok in Hl;
    rewrite Hc in E; simpl in E; rewrite andb_true_r in E;
    (destruct (isNil l) eqn:Hnil;
     [injection E as <- _ _; apply rtc_refl|]);
    apply bindR_Ok in E as (c & Hload & E).
  - discriminate.
  - eapply rtc_l; [exists j, l; eauto|].
    eapply IH; [|exact E]. reflexivity.
Qed.

(** For the search of the model, [Get] answers true only for a key that some
    node of the tree holds: a key held by no node is reported with false. *)
Lemma Get_true_holdsKey (k : iface) (ptr ptr' : option iface) (m m' : Mast) :
  Get (helpers := specHelpers) k ptr m = (Ok (true, ptr'), m') ->
  holdsKey m k.
Proof.
  unfold Get, bindM, getM, retM, liftR.
  destruct (isNil (root m)); [discriminate|].
  destruct (load m (root m)) as [n0| | |] eqn:Hload; try discriminate.
  destruct (keyLayer m k (branchFactor m)) as [layer| | |]; try discriminate.
  simpl.
  match goal with |- context [Spec.findNode n0 m k ?o] =>
    destruct (Spec.findNode n0 m k o) as [[[n i] o']| | |] eqn:Ef end;
    try discriminate.
  apply findNodeFrom_nodeOf in Ef; [|reflexivity].
  destruct (_ || _); [discriminate|].
  unfold index. destruct (Key n !! i) as [ki|] eqn:Hki; [|discriminate].
  destruct (keyOrder m ki k) as [c| | |] eqn:Hc; try discriminate. simpl.
  destruct (Z.eqb_spec c 0) as [->|]; [|discriminate]. simpl.
  intros _. exists n, i, ki. split; [exists n0; auto|]. auto.
Qed.

(** ** Further properties of Get *)

Section Get_properties.
Context {helpers : Helpers}.

Lemma reach_intro (create : bool) (m : Mast) (key : iface) (n0 : mastNode)
    (layer : Z) (place : mastNode * nat * findOptions) :
  load m (root m) = Ok n0 ->
  keyLayer m key (branchFactor m) = Ok layer ->
  findNode n0 m key {| targetLayer := uint8min layer (height m);
                       currentHeight := height m;
                       createMissingNodes := create;
                       path := [] |} = Ok place ->
  reach create m key = Ok place.
Proof. intros Hl Hk Hf. unfold reach. rewrite Hl, Hk. simpl. exact Hf. Qed.

(** What [Get] computes once the search has reached [(n, i, o)]. *)
Lemma Get_at (k : iface) (ptr : option iface) (m : Mast) (n : mastNode)
    (i : nat) (o : findOptions) :
  reach false m k = Ok (n, i, o) ->
  Get k ptr m
  = if (length (Key n) <=? i)%nat || negb (targetLayer o =? currentHeight o)
    then (Ok (false, ptr), m)
    else match index (Key n) i with
         | Ok ki =>
             match wrapR "keyCompare" (keyOrder m ki k) with
             | Ok cmp =>
                 if negb (cmp =? 0) then (Ok (false, ptr), m) else
                 match ptr with
                 | Some old =>
                     match index (Value n) i with
                     | Ok vi => if bool_decide (vi = INil)
                                then (Ok (true, Some old), m)
                                else (Ok (true, Some vi), m)
                     | Err e => (Err e, m)
                     | Panic msg => (Panic msg, m)
                     | OutOfFuel => (OutOfFuel, m)
                     end
                 | None => (Ok (true, None), m)
                 end
             | Err e => (Err e, m)
             | Panic msg => (Panic msg, m)
             | OutOfFuel => (OutOfFuel, m)
             end
         | Err e => (Err e, m)
         | Panic msg => (Panic msg, m)
         | OutOfFuel => (OutOfFuel, m)
         end.
Proof.
  intros Hreach.
  apply reach_inv in Hreach as (n0 & layer & Hroot & Hload & Hlayer & Hfind).
  unfold Get, bindM, getM, retM, liftR.
  rewrite Hroot, Hload, Hlayer. simpl. rewrite Hfind.
  destruct (_ || _); [reflexivity|].
  destruct (index (Key n) i) as [ki| | |]; try reflexivity.
  destruct (wrapR "keyCompare" (keyOrder m ki k)) as [cmp| | |]; try reflexivity.
  destruct (negb (cmp =? 0)); [reflexivity|].
  destruct ptr as [old|]; [|reflexivity].
  destruct (index (Value n) i) as [vi| | |]; try reflexivity.
  destruct (bool_decide (vi = INil)); reflexivity.
Qed.

(** Whenever [Get] returns without error or panic, the search has reached a
    place. *)
Lemma Get_Ok_reach (k : iface) (ptr ptr' : option iface) (m m' : Mast) :
  Get k ptr m = (Ok (true, ptr'), m') ->
  exists place, reach false m k = Ok place.
Proof.
  unfold Get, bindM, getM, retM, liftR.
  destruct (isNil (root m)); [discriminate|].
  destruct (load m (root m)) as [n0| | |] eqn:Hload; try discriminate.
  destruct (keyLayer m k (branchFactor m)) as [layer| | |] eqn:Hlayer;
    try discriminate.
  simpl.
  match goal with |- context [findNode n0 m k ?o] =>
    destruct (findNode n0 m k o) as [place| | |] eqn:Ef end;
    try discriminate.
  intros _. exists place. eapply reach_intro; eassumption.
Qed.

(** X2.  Called with a nil value pointer, [Get] is a membership test: it
    returns true exactly when the search lands on a key that compares equal,
    whatever the value slice of that node holds, and the tree is as it was. *)
Theorem Get_membership (k : iface) (m m' : Mast) (ptr' : option iface) :
  Get k None m = (Ok (true, ptr'), m') <->
  lands m k /\ ptr' = None /\ m' = m.
Proof.
  split.
  - intros E. destruct (Get_Ok_reach _ _ _ _ _ E) as ([[n i] o] & Hreach).
    rewrite (Get_at _ _ _ _ _ _ Hreach) in E.
    destruct (Nat.leb_spec (length (Key n)) i); [discriminate|]. simpl in E.
    destruct (Z.eqb_spec (targetLayer o) (currentHeight o)) as [Hl|];
      [|discriminate]. simpl in E.
    unfold index in E.
    destruct (Key n !! i) as [ki|] eqn:Hki; [|discriminate].
    destruct (keyOrder m ki k) as [c| | |] eqn:Hc; try discriminate.
    simpl in E. destruct (Z.eqb_spec c 0) as [->|]; [|discriminate].
    simpl in E. injection E as <- <-.
    split; [|auto]. exists n, i, o, ki. auto.
  - intros ((n & i & o & ki & Hreach & Hl & Hki & Hc) & -> & ->).
    rewrite (Get_at _ _ _ _ _ _ Hreach).
    assert (Hlt : (i < length (Key n))%nat) by (eapply lookup_lt_Some; eassumption).
    destruct (Nat.leb_spec (length (Key n)) i); [lia|]. simpl.
    rewrite Hl, Z.eqb_refl. simpl.
    apply index_Ok in Hki. rewrite Hki, Hc. reflexivity.
Qed.

(** X3.  An error of [Get] is the error of loading the root or of
    [findNode], handed on as it is, or the error of [keyLayer] or [keyOrder]
    under the prefix [layer] or [keyCompare]; the tree is as it was. *)
Theorem Get_errors (k : iface) (ptr : option iface) (m m' : Mast) (e : error) :
  Get k ptr m = (Err e, m') ->
  m' = m
  /\ (load m (root m) = Err e
      \/ (exists cause, keyLayer m k (branchFactor m) = Err cause
                        /\ e = Wrapf "layer" cause)
      \/ (exists n0 options, findNode n0 m k options = Err e)
      \/ (exists ki cause, keyOrder m ki k = Err cause
                           /\ e = Wrapf "keyCompare" cause)).
Proof.
  intros E. split; [eapply Get_readonly; eassumption|].
  eapply Get_Err. eassumption.
Qed.

End Get_properties.

Section Get_reflect.
Context {helpers : Helpers}.

(** What [Reflect.Get] computes once the search has reached [(n, i, o)]. *)
Lemma Reflect_Get_at (k : iface) (value : Reflect.target) (m : Mast)
    (n : mastNode) (i : nat) (o : findOptions) :
  reach false m k = Ok (n, i, o) ->
  Reflect.Get k value m
  = if (length (Key n) <=? i)%nat || negb (targetLayer o =? currentHeight o)
    then (Ok (false, value), m)
    else
      (let* ki := liftR (index (Key n) i) in
       let* cmp := liftR (wrapR "keyCompare" (keyOrder m ki k)) in
       if negb (cmp =? 0) then retM (false, value) else
       match value with
       | Reflect.ArgNil => retM (true, Reflect.ArgNil)
       | _ =>
           let* vi := liftR (index (Value n) i) in
           if bool_decide (vi = INil) then retM (true, value)
           else
             let* value := liftR (Reflect.reflectSet value vi) in
             retM (true, value)
       end)%mast m.
Proof.
  intros Hreach.
  apply reach_inv in Hreach as (n0 & layer & Hroot & Hload & Hlayer & Hfind).
  unfold Reflect.Get, bindM at 1 2 3 4, getM, liftR at 1 2 3.
  rewrite Hroot, Hload, Hlayer. simpl. rewrite Hfind.
  destruct (_ || _); reflexivity.
Qed.

Lemma Reflect_Get_Ok_reach (k : iface) (value value' : Reflect.target)
    (m m' : Mast) :
  Reflect.Get k value m = (Ok (true, value'), m') ->
  exists place, reach false m k = Ok place.
Proof.
  unfold Reflect.Get, bindM, getM, retM, liftR.
  destruct (isNil (root m)); [discriminate|].
  destruct (load m (root m)) as [n0| | |] eqn:Hload; try discriminate.
  destruct (keyLayer m k (branchFactor m)) as [layer| | |] eqn:Hlayer;
    try discriminate.
  simpl.
  match goal with |- context [findNode n0 m k ?o] =>
    destruct (findNode n0 m k o) as [place| | |] eqn:Ef end;
    try discriminate.
  intros _. exists place. eapply reach_intro; eassumption.
Qed.

(** [Get] is [Reflect.Get] for nil and for a pointer to a variable of type
    [interface{}]. *)
Lemma Reflect_Get_ofPointer (k : iface) (ptr : option iface) (m : Mast) :
  Reflect.Get k (Reflect.ofPointer ptr) m
  = let '(r, m') := Get k ptr m in
    ((let* '(found, ptr') := r in Ok (found, Reflect.ofPointer ptr'))%res, m').
Proof.
  unfold Reflect.Get, Get, bindM, getM, retM, liftR.
  destruct (isNil (root m)); [reflexivity|].
  destruct (load m (root m)) as [n0| | |]; try reflexivity.
  destruct (wrapR "layer" (keyLayer m k (branchFactor m))) as [layer| | |];
    try reflexivity.
  match goal with |- context [findNode n0 m k ?o] =>
    destruct (findNode n0 m k o) as [[[n i] o']| | |] end; try reflexivity.
  destruct (_ || _); [reflexivity|].
  destruct (index (Key n) i) as [ki| | |]; try reflexivity.
  destruct (wrapR "keyCompare" (keyOrder m ki k)) as [cmp| | |]; try reflexivity.
  destruct (negb (cmp =? 0)); [reflexivity|].
  destruct ptr as [old|]; [|reflexivity]. simpl.
  destruct (index (Value n) i) as [vi| | |]; try reflexivity.
  destruct (bool_decide (vi = INil)); reflexivity.
Qed.

(** X1.  Called with a value argument that is not nil, [Get] returns true
    exactly when the search for the key lands on an entry whose key compares
    equal and either the value of the entry is nil, and the argument is left
    alone, or the argument is a pointer to a variable to which the value can
    be assigned, and the variable then holds the value; the tree is as it
    was.  When the value of the entry is not nil and the argument is no
    pointer, a nil pointer, or a pointer to a variable to which the value
    cannot be assigned, [Get] panics in package [reflect], and the tree is
    as it was. *)
Theorem Get_found_value (k : iface) (value : Reflect.target) (m : Mast) :
  value <> Reflect.ArgNil ->
  (forall value' m',
     Reflect.Get k value m = (Ok (true, value'), m') <->
     exists v,
       present m k v /\ m' = m
       /\ ((v = INil /\ value' = value)
           \/ (v <> INil
               /\ exists ty old,
                    value = Reflect.ArgPointer ty old
                    /\ Reflect.assignable v ty = true
                    /\ value' = Reflect.ArgPointer ty v)))
  /\ (forall v,
        present m k v -> v <> INil ->
        (forall ty old, value = Reflect.ArgPointer ty old ->
                        Reflect.assignable v ty = false) ->
        exists msg, Reflect.Get k value m = (Panic msg, m)).
Proof.
  intros Hvalue. split.
  - intros value' m'. split.
    + intros E.
      destruct (Reflect_Get_Ok_reach _ _ _ _ _ E) as ([[n i] o] & Hreach).
      rewrite (Reflect_Get_at _ _ _ _ _ _ Hreach) in E.
      destruct (Nat.leb_spec (length (Key n)) i); [discriminate|]. simpl in E.
      destruct (Z.eqb_spec (targetLayer o) (currentHeight o)) as [Hl|];
        [|discriminate]. simpl in E.
      unfold bindM, liftR, retM, index in E.
      destruct (Key n !! i) as [ki|] eqn:Hki; [|discriminate].
      destruct (keyOrder m ki k) as [c| | |] eqn:Hc; try discriminate.
      simpl in E. destruct (Z.eqb_spec c 0) as [->|]; [|discriminate].
      simpl in E.
      assert (Hpresent : forall v, Value n !! i = Some v -> present m k v).
      { intros v Hv. exists (n, i, o). split; [assumption|].
        split; [assumption|]. eauto. }
      destruct value as [|kind| |ty old]; [contradiction| | |];
        (destruct (Value n !! i) as [vi|] eqn:Hvi; [|discriminate]);
        (destruct (bool_decide_reflect (vi = INil)) as [->|Hne];
         [injection E as <- <-; exists INil; auto|]);
        simpl in E; try discriminate.
      destruct (Reflect.assignable vi ty) eqn:Ha; [|discriminate].
      injection E as <- <-. exists vi. split; [auto|]. split; [reflexivity|].
      right. split; [assumption|]. eauto.
    + intros (v & ([[n i] o] & Hreach & Hl & ki & Hki & Hc & Hv) & -> & Hcase).
      rewrite (Reflect_Get_at _ _ _ _ _ _ Hreach).
      assert (Hlt : (i < length (Key n))%nat) by (eapply lookup_lt_Some; eassumption).
      destruct (Nat.leb_spec (length (Key n)) i); [lia|]. simpl.
      rewrite Hl, Z.eqb_refl. simpl.
      apply index_Ok in Hki, Hv. unfold bindM, liftR, retM.
      rewrite Hki, Hc. simpl. 
      destruct Hcase as [(-> & ->)|(Hne & ty & old & -> & Ha & ->)].
      * destruct value; [contradiction| | |]; rewrite Hv;
          rewrite bool_decide_eq_true_2 by reflexivity; reflexivity.
      * rewrite Hv. rewrite bool_decide_eq_false_2 by assumption.
        simpl. rewrite Ha. reflexivity.
  - intros v ([[n i] o] & Hreach & Hl & ki & Hki & Hc & Hv) Hne Hno.
    rewrite (Reflect_Get_at _ _ _ _ _ _ Hreach).
    assert (Hlt : (i < length (Key n))%nat) by (eapply lookup_lt_Some; eassumption).
    destruct (Nat.leb_spec (length (Key n)) i); [lia|]. simpl.
    rewrite Hl, Z.eqb_refl. simpl.
    apply index_Ok in Hki, Hv. unfold bindM, liftR, retM.
    rewrite Hki, Hc. simpl.
    destruct value as [|kind| |ty old]; [contradiction| | |]; rewrite Hv;
      rewrite bool_decide_eq_false_2 by assumption; simpl; eauto.
    rewrite (Hno ty old eq_refl). eauto.
Qed.

End Get_reflect.

(** ** MakeRoot, LoadMast, NewRoot and NewInMemory *)

Section Handle_properties.
Context {helpers : Helpers}.

Lemma flush_Ok (m m' : Mast) (str : string) :
  flush m = (Ok str, m') <->
  exists p n, persist m = Some p
              /\ load m (root m) = Ok n
              /\ mastNode_store n p (nodeCache m) (marshal m) = Ok str
              /\ m' = set_root (LHash str) m.
Proof.
  unfold flush, bindM, getM, failM, liftR, modifyM, retM. split.
  - destruct (persist m) as [p|]; [|discriminate].
    destruct (load m (root m)) as [n| | |]; simpl; try discriminate.
    destruct (mastNode_store n p (nodeCache m) (marshal m)) as [s| | |] eqn:Es;
      try discriminate.
    intros E. injection E as <- <-. eauto 6.
  - intros (p & n & -> & -> & Hs & ->). simpl. rewrite Hs. reflexivity.
Qed.

(** X4.  [MakeRoot] succeeds exactly when a [Persist] is configured, the root
    loads and the root node is stored; the handle then carries the identifier
    the store gave and the size, height and branch factor of the tree, and
    the only field of the tree that has changed is [root], which is now that
    identifier. *)
Theorem MakeRoot_Ok (m m' : Mast) (r : Root.t) :
  MakeRoot m = (Ok r, m') <->
  exists p n str,
    persist m = Some p
    /\ load m (root m) = Ok n
    /\ mastNode_store n p (nodeCache m) (marshal m) = Ok str
    /\ r = {| Root.Link := Some str; Root.Size := size m;
              Root.Height := height m; Root.BranchFactor := branchFactor m |}
    /\ m' = set_root (LHash str) m.
Proof.
  unfold MakeRoot, bindM, wrapM, getM, retM. split.
  - destruct (flush m) as [[str| | |] m1] eqn:Ef; simpl; try discriminate.
    apply flush_Ok in Ef as (p & n & Hp & Hl & Hs & ->).
    intros E. injection E as <- <-. exists p, n, str. auto.
  - intros (p & n & str & Hp & Hl & Hs & -> & ->).
    assert (Ef : flush m = (Ok str, set_root (LHash str) m))
      by (apply flush_Ok; eauto 6).
    rewrite Ef. reflexivity.
Qed.

(** X5.  Without a [Persist], [MakeRoot] returns the error of [flush] wrapped
    as [flush: no persistence mechanism set; ...] and leaves the tree as it
    was, whatever the root is. *)
Theorem MakeRoot_without_Persist (m : Mast) :
  persist m = None ->
  MakeRoot m = (Err (Wrapf "flush" noPersist), m)
  /\ message (Wrapf "flush" noPersist)
     = "flush: no persistence mechanism set; set RemoteConfig.StoreImmutablePartsWith".
Proof.
  intros Hp. split; [|reflexivity].
  unfold MakeRoot, flush, bindM, wrapM, getM, failM. rewrite Hp. reflexivity.
Qed.

Lemma LoadMast_Ok_inv (r : Root.t) (config : RemoteConfig.t) (m : Mast) :
  LoadMast r config = Ok m ->
  root m = match Root.Link r with
           | Some l => LHash l
           | None => LNode (emptyNodePointer (Root.BranchFactor r))
           end
  /\ size m = 0
  /\ height m = Root.Height r
  /\ branchFactor m = Root.BranchFactor r
  /\ shrinkBelowSize m = shrinkSizeLoop (Root.Height r) (Root.BranchFactor r)
  /\ growAfterSize m
     = wrap64 (shrinkSizeLoop (Root.Height r) (Root.BranchFactor r)
               * Root.BranchFactor r)
  /\ persist m = RemoteConfig.StoreImmutablePartsWith config
  /\ zeroKey m = RemoteConfig.KeysLike config
  /\ zeroValue m = RemoteConfig.ValuesLike config
  /\ checkRoot m = Ok tt.
Proof.
  unfold LoadMast. intros E. apply bindR_Ok in E as ([] & Hc & E).
  apply wrapR_Ok in Hc. injection E as <-. simpl. split_and!; try reflexivity.
  exact Hc.
Qed.

(** X6.  A handle made by [MakeRoot] and loaded again by [LoadMast] gives a
    tree with the same root identifier, height and branch factor, reading
    from the store of the configuration -- but with size 0: the handle
    carries the size of the tree, and [LoadMast] does not read it. *)
Theorem MakeRoot_LoadMast (m m1 m2 : Mast) (r : Root.t) (config : RemoteConfig.t) :
  MakeRoot m = (Ok r, m1) ->
  LoadMast r config = Ok m2 ->
  root m2 = root m1
  /\ height m2 = height m
  /\ branchFactor m2 = branchFactor m
  /\ persist m2 = RemoteConfig.StoreImmutablePartsWith config
  /\ Root.Size r = size m
  /\ Size m2 = 0.
Proof.
  intros Hm Hl. unfold MakeRoot, bindM, wrapM, getM, retM in Hm.
  destruct (flush m) as [[str| | |] m0] eqn:Ef; simpl in Hm; try discriminate.
  apply flush_Ok in Ef as (p & n & _ & _ & _ & ->). injection Hm as <- <-.
  apply LoadMast_Ok_inv in Hl as (Hr & Hs & Hh & Hb & _ & _ & Hp & _).
  simpl in *. unfold Size. split_and!; congruence.
Qed.

(** X7.  A tree loaded from the handle of [NewRoot] is empty and in memory:
    its root is the empty node, its size and height are 0, it shrinks below
    1 entry and grows after [BranchFactor] entries, where the branch factor
    is the one of the options, or 16 when there are no options or they give
    0.  For no options these are the observable fields of [NewInMemory()]. *)
Theorem NewRoot_LoadMast (o : option CreateRemoteOptions)
    (config : RemoteConfig.t) (m : Mast) :
  (forall c, o = Some c -> 0 <= BranchFactor c < 2 ^ 64) ->
  LoadMast (NewRoot o) config = Ok m ->
  let b := match o with
           | Some c => if decide (BranchFactor c = 0) then 16 else BranchFactor c
           | None => 16
           end in
  branchFactor m = b
  /\ observable m = (LNode (MkNode [] [] [LNil]), 0, 0, b, 1)
  /\ (o = None -> observable m = observable NewInMemory).
Proof.
  intros Hrange Hl b.
  apply LoadMast_Ok_inv in Hl as (Hr & Hs & Hh & Hb & Hsh & Hg & _).
  assert (Eb : Root.BranchFactor (NewRoot o) = b /\ 0 < b < 2 ^ 64).
  { subst b. unfold NewRoot. simpl. destruct o as [c|]; simpl.
    - specialize (Hrange c eq_refl).
      unfold DefaultBranchFactor.
      destruct (decide (BranchFactor c = 0)) as [E0|Hne];
        destruct (Z.ltb_spec 0 (BranchFactor c)); lia.
    - unfold DefaultBranchFactor. lia. }
  destruct Eb as [Eb Hb0].
  unfold NewRoot in Hr, Hh, Hsh, Hg. simpl in Hr, Hh, Hsh, Hg.
  unfold shrinkSizeLoop in Hsh, Hg. simpl in Hsh, Hg.
  rewrite Eb in Hb. unfold NewRoot in Eb. simpl in Eb. rewrite Eb in Hg.
  assert (Hg' : growAfterSize m = b).
  { rewrite Hg. unfold wrap64. rewrite Z.mod_small; lia. }
  split; [assumption|]. unfold observable.
  rewrite Hr, Hs, Hh, Hg', Hsh. split; [reflexivity|].
  intros ->. reflexivity.
Qed.

End Handle_properties.

(** ** store and load (store.go) *)

Section Store_properties.
Context {helpers : Helpers}.

(** X8.  For a node that [validateNode] accepts, [store] returns the node
    itself as the link -- never nil, never a hash -- unless the node is the
    empty node (one link, which is nil), for which it returns an error; and
    [load] of the link [store] returns is that node, without any call of
    [Persist]. *)
Theorem store_load (m : Mast) (n : mastNode) :
  validateNode n m = Ok tt ->
  (Link n = [LNil] ->
   store m n = Err (Errorf "bug! shouldn't be storing empty nodes"))
  /\ (Link n <> [LNil] -> store m n = Ok (LNode n))
  /\ (forall l, store m n = Ok l ->
        l = LNode n /\ Link n <> [LNil]
        /\ forall m', load m' l = Ok n).
Proof.
  intros Hv. unfold store. rewrite Hv. simpl.
  set (b := (length (Link n) =? 1)%nat
            && isNil (default (LHash "") (Link n !! 0%nat))).
  assert (Hempty : b = true <-> Link n = [LNil]).
  { subst b. destruct (Link n) as [|l [|l' ls]]; simpl.
    - split; discriminate.
    - destruct l; simpl; split; congruence.
    - split; discriminate. }
  clearbody b. split_and!.
  - intros E. apply Hempty in E. rewrite E. reflexivity.
  - intros Hne. destruct b; [|reflexivity].
    exfalso. apply Hne, Hempty. reflexivity.
  - intros l. destruct b; [discriminate|].
    intros El. injection El as <-. split; [reflexivity|]. split.
    + intros Hl. apply Hempty in Hl. discriminate.
    + reflexivity.
Qed.

End Store_properties.

(** ** Shape of the node that Insert and Delete save *)

Section Shape.
Context {A : Type}.

Lemma splice_shape (s : list A) (i : nat) (v : A) :
  (i <= length s)%nat ->
  length (take i s ++ v :: drop i s) = S (length s)
  /\ (take i s ++ v :: drop i s) !! i = Some v
  /\ (forall j, (j < i)%nat -> (take i s ++ v :: drop i s) !! j = s !! j)
  /\ (forall j, (i <= j)%nat -> (take i s ++ v :: drop i s) !! S j = s !! j).
Proof.
  intros Hi. split_and!.
  - rewrite length_app, length_take. simpl. rewrite length_drop. lia.
  - rewrite lookup_app_r by (rewrite length_take; lia).
    rewrite length_take, Nat.min_l, Nat.sub_diag by lia. reflexivity.
  - intros j Hj. rewrite lookup_app_l by (rewrite length_take; lia).
    apply lookup_take_lt. assumption.
  - intros j Hj. rewrite lookup_app_r by (rewrite length_take; lia).
    rewrite length_take, Nat.min_l by lia.
    replace (S j - i)%nat with (S (j - i)) by lia. simpl.
    rewrite lookup_drop. f_equal. lia.
Qed.

Lemma splice2_shape (s : list A) (i : nat) (a b : A) :
  (i < length s)%nat ->
  length (take i s ++ a :: b :: drop (S i) s) = S (length s)
  /\ (take i s ++ a :: b :: drop (S i) s) !! i = Some a
  /\ (take i s ++ a :: b :: drop (S i) s) !! S i = Some b
  /\ (forall j, (j < i)%nat -> (take i s ++ a :: b :: drop (S i) s) !! j = s !! j)
  /\ (forall j, (i < j)%nat -> (take i s ++ a :: b :: drop (S i) s) !! S j = s !! j).
Proof.
  intros Hi. split_and!.
  - rewrite length_app, length_take. simpl. rewrite length_drop. lia.
  - rewrite lookup_app_r by (rewrite length_take; lia).
    rewrite length_take, Nat.min_l, Nat.sub_diag by lia. reflexivity.
  - rewrite lookup_app_r by (rewrite length_take; lia).
    rewrite length_take, Nat.min_l by lia.
    replace (S i - i)%nat with 1%nat by lia. reflexivity.
  - intros j Hj. rewrite lookup_app_l by (rewrite length_take; lia).
    apply lookup_take_lt. assumption.
  - intros j Hj. rewrite lookup_app_r by (rewrite length_take; lia).
    rewrite length_take, Nat.min_l by lia.
    replace (S j - i)%nat with (S (S (j - S i))) by lia. simpl.
    rewrite lookup_drop. f_equal. lia.
Qed.

End Shape.

Lemma setLastNode_last (p p' : list pathEntry.t) (n : mastNode) :
  setLastNode p n = Ok p' ->
  length p' = length p
  /\ (exists e, last p' = Some e /\ pathEntry.node e = n)
  /\ (forall j, (S j < length p)%nat -> p' !! j = p !! j).
Proof.
  unfold setLastNode. destruct (length p) as [|k] eqn:Hlen; [discriminate|].
  intros E. apply bindR_Ok in E as (e & He & E).
  apply assign_Ok_inv in E as (Hk & ->). split_and!.
  - rewrite length_insert. assumption.
  - eexists. rewrite last_lookup, length_insert, Hlen. simpl.
    rewrite list_lookup_insert_eq by lia. split; reflexivity.
  - intros j Hj. apply list_lookup_insert_ne. lia.
Qed.

Section Shape_properties.
Context {helpers : Helpers}.

(** X9.  The path [Insert] hands to [savePathForRoot] when it adds an entry
    ends in a copy of the node the search reached with the new key and value
    at index [i]: the entries before [i] are where they were, those from [i]
    on have moved up by one, the links before [i] are kept, the links after
    [i] have moved up by one, and a node with as many values as keys and one
    link more stays so. *)
Theorem Insert_adds_at_index (key value : iface) (m : Mast) (p : list pathEntry.t) :
  Insert_plan key value m = Ok (Add p) ->
  exists n i o e,
    reach true m key = Ok (n, i, o)
    /\ last p = Some e
    /\ (i <= length (Key n))%nat
    /\ length (Key (pathEntry.node e)) = S (length (Key n))
    /\ Key (pathEntry.node e) !! i = Some key
    /\ (forall j, (j < i)%nat ->
          Key (pathEntry.node e) !! j = Key n !! j
          /\ Link (pathEntry.node e) !! j = Link n !! j)
    /\ (forall j, (i <= j)%nat -> Key (pathEntry.node e) !! S j = Key n !! j)
    /\ (forall j, (i < j)%nat -> Link (pathEntry.node e) !! S j = Link n !! j)
    /\ (wellFormed n ->
        wellFormed (pathEntry.node e)
        /\ Value (pathEntry.node e) !! i = Some value
        /\ (forall j, (j < i)%nat -> Value (pathEntry.node e) !! j = Value n !! j)
        /\ (forall j, (i <= j)%nat ->
              Value (pathEntry.node e) !! S j = Value n !! j)).
Proof.
  intros E. apply Insert_plan_Ok_inv in E as (n & i & o & Hreach & Hl & Hno & E).
  destruct E as (leftLink & rightLink & Hp & Hlinks).
  apply setLastNode_last in Hp as (_ & (e & He & Hnode) & _).
  exists n, i, o, e. rewrite Hnode. unfold withEntry. simpl.
  assert (HiL : (i < length (Link n))%nat).
  { destruct Hlinks as [(Hi & _)|(c & ch & Hi & _)];
      eapply lookup_lt_Some; eassumption. }
  assert (HiK : (i <= length (Key n))%nat).
  { destruct Hno as [Hne|[->|(ki & c & Hki & _)]]; [contradiction|lia|].
    apply lookup_lt_Some in Hki. lia. }
  destruct (splice_shape (Key n) i key HiK) as (K1 & K2 & K3 & K4).
  destruct (splice2_shape (Link n) i leftLink rightLink HiL)
    as (L1 & L2 & L3 & L4 & L5).
  split_and!; try assumption.
  - intros j Hj. split; [apply K3|apply L4]; assumption.
  - intros [HV HL].
    assert (HiV : (i <= length (Value n))%nat) by lia.
    destruct (splice_shape (Value n) i value HiV) as (V1 & V2 & V3 & V4).
    split_and!; try assumption.
    unfold wellFormed. simpl. lia.
Qed.

(** X10.  The path [Insert] hands to [savePathForRoot] when it replaces a
    value ends in a copy of the node the search reached that differs from it
    in the value at index [i] only: the keys and the links are the same, and
    so are the other values. *)
Theorem Insert_replaces_value_only (key value : iface) (m : Mast)
    (p : list pathEntry.t) :
  Insert_plan key value m = Ok (Replace p) ->
  exists n i o e old,
    reach true m key = Ok (n, i, o)
    /\ last p = Some e
    /\ Value n !! i = Some old /\ old <> value
    /\ Key (pathEntry.node e) = Key n
    /\ Link (pathEntry.node e) = Link n
    /\ length (Value (pathEntry.node e)) = length (Value n)
    /\ Value (pathEntry.node e) !! i = Some value
    /\ (forall j, j <> i -> Value (pathEntry.node e) !! j = Value n !! j).
Proof.
  intros E. apply Insert_plan_Ok_inv in E as (n & i & o & Hreach & Hl & E).
  destruct E as (old & (_ & ki & Hki & Hc & Hv) & Hne & Hp).
  apply setLastNode_last in Hp as (_ & (e & He & Hnode) & _).
  exists n, i, o, e, old. rewrite Hnode. unfold withValue. simpl.
  split_and!; try assumption; try reflexivity.
  - apply length_insert.
  - apply list_lookup_insert_eq. eapply lookup_lt_Some; eassumption.
  - intros j Hj. apply list_lookup_insert_ne. congruence.
Qed.

(** X11.  The path [Delete] hands to [savePathForRoot] ends in a node that is
    the node the search reached without entry [i]: the entries before [i]
    are where they were, those after [i] have moved down by one, link [i] is
    the merge of the two links around the removed entry, the other links are
    kept in order, and a node with as many values as keys and one link more
    stays so. *)
Theorem Delete_removes_at_index (key value : iface) (m : Mast)
    (p : list pathEntry.t) :
  Delete_plan key value m = Ok p ->
  exists n i o e a b mergedLink,
    reach false m key = Ok (n, i, o)
    /\ last p = Some e
    /\ Value n !! i = Some value
    /\ Link n !! i = Some a /\ Link n !! S i = Some b
    /\ mergeNodes m a b = Ok mergedLink
    /\ S (length (Key (pathEntry.node e))) = length (Key n)
    /\ S (length (Value (pathEntry.node e))) = length (Value n)
    /\ S (length (Link (pathEntry.node e))) = length (Link n)
    /\ (wellFormed n -> wellFormed (pathEntry.node e))
    /\ Link (pathEntry.node e) !! i = Some mergedLink
    /\ (forall j, (j < i)%nat ->
          Key (pathEntry.node e) !! j = Key n !! j
          /\ Value (pathEntry.node e) !! j = Value n !! j
          /\ Link (pathEntry.node e) !! j = Link n !! j)
    /\ (forall j, (i <= j)%nat ->
          Key (pathEntry.node e) !! j = Key n !! S j
          /\ Value (pathEntry.node e) !! j = Value n !! S j)
    /\ (forall j, (i < j)%nat -> Link (pathEntry.node e) !! j = Link n !! S j).
Proof.
  intros E. apply Delete_plan_Ok in E
    as (n & i & o & a & b & mergedLink & Hreach & Hentry & Ha & Hb & Hm & _ & Hp).
  destruct Hentry as (_ & ki & Hki & _ & Hv).
  apply setLastNode_last in Hp as (_ & (e & He & Hnode) & _).
  exists n, i, o, e, a, b, mergedLink. rewrite Hnode. unfold without. simpl.
  assert (HK : (i < length (Key n))%nat) by (eapply lookup_lt_Some; eassumption).
  assert (HV : (i < length (Value n))%nat) by (eapply lookup_lt_Some; eassumption).
  assert (HL : (S i < length (Link n))%nat) by (eapply lookup_lt_Some; eassumption).
  assert (LK : S (length (delete i (Key n))) = length (Key n)).
  { rewrite length_delete by eauto. lia. }
  assert (LV : S (length (delete i (Value n))) = length (Value n)).
  { rewrite length_delete by eauto. lia. }
  assert (LL : S (length (delete i (Link n))) = length (Link n)).
  { rewrite length_delete by eauto. lia. }
  split_and!; try assumption.
  - rewrite length_insert. assumption.
  - intros [W1 W2]. unfold wellFormed. simpl. rewrite length_insert. lia.
  - apply list_lookup_insert_eq. lia.
  - intros j Hj. split_and!.
    + apply list_lookup_delete_lt. assumption.
    + apply list_lookup_delete_lt. assumption.
    + rewrite list_lookup_insert_ne by lia. apply list_lookup_delete_lt. assumption.
  - intros j Hj. split; apply list_lookup_delete_ge; assumption.
  - intros j Hj. rewrite list_lookup_insert_ne by lia.
    apply list_lookup_delete_ge. lia.
Qed.

End Shape_properties.

(** ** Delete: the size and the shrink loop *)

Section Delete_size_properties.
Context {helpers : Helpers}.

Lemma Delete_Ok_inv (fuel : nat) (key value : iface) (m m' : Mast) :
  Delete fuel key value m = (Ok tt, m') ->
  exists p p' m1,
    Delete_plan key value m = Ok p
    /\ savePathForRoot p m = (Ok p', m1)
    /\ shrinkLoop fuel (set_size (wrap64 (size m1 - 1)) m1) = (Ok tt, m').
Proof.
  unfold Delete, bindM, getM, liftR, wrapM, modifyM.
  destruct (Delete_plan key value m) as [p| | |]; try discriminate.
  destruct (savePathForRoot p m) as [[p'| | |] m1] eqn:Es; simpl;
    try discriminate.
  intros E. eauto 6.
Qed.

Lemma shrinkLoop_exit (fuel : nat) : forall m m',
  shrinkLoop fuel m = (Ok tt, m') ->
  shrinkBelowSize m' <= size m' \/ height m' <= 0.
Proof.
  induction fuel as [|fuel IH]; intros m m'; simpl;
    destruct (Z.ltb_spec (size m) (shrinkBelowSize m)) as [Hs|Hs]; simpl;
    try (intros E; injection E as <-; left; assumption);
    destruct (Z.ltb_spec 0 (height m)) as [Hh|Hh];
    try (intros E; injection E as <-; right; assumption).
  - discriminate.
  - unfold bindM, wrapM. destruct (shrink m) as [[[]| | |] m1]; simpl;
      try discriminate.
    apply IH.
Qed.

(** X12.  On return from a [Delete] that removed an entry, the size is not
    below [shrinkBelowSize], or the height is 0: the size is decremented
    before the shrink loop tests it. *)
Theorem Delete_returns_above_threshold (fuel : nat) (key value : iface)
    (m m' : Mast) :
  Delete fuel key value m = (Ok tt, m') ->
  shrinkBelowSize m' <= size m' \/ height m' <= 0.
Proof.
  intros E. apply Delete_Ok_inv in E as (p & p' & m1 & _ & _ & E).
  eapply shrinkLoop_exit. eassumption.
Qed.

Hypothesis savePathForRoot_size :
  forall p m r m', savePathForRoot p m = (r, m') -> size m' = size m.
Hypothesis shrink_size :
  forall m r m', shrink m = (r, m') -> size m' = size m.

Lemma shrinkLoop_size (fuel : nat) :
  forall m r m', shrinkLoop fuel m = (r, m') -> size m' = size m.
Proof.
  induction fuel as [|fuel IH]; intros m r m'; simpl;
    destruct ((size m <? shrinkBelowSize m) && (0 <? height m));
    try (intros E; injection E as _ <-; reflexivity).
  unfold bindM, wrapM. destruct (shrink m) as [[[]| | |] m1] eqn:Es; simpl;
    try (intros E; injection E as _ <-; eapply shrink_size; eassumption).
  intros E. apply IH in E. rewrite E. eapply shrink_size; eassumption.
Qed.

Lemma Delete_size (fuel : nat) (key value : iface) (m m' : Mast) :
  Delete fuel key value m = (Ok tt, m') ->
  size m' = wrap64 (size m - 1).
Proof.
  intros E. apply Delete_Ok_inv in E as (p & p' & m1 & _ & Hs & E).
  apply shrinkLoop_size in E. rewrite E. simpl.
  apply savePathForRoot_size in Hs. rewrite Hs. reflexivity.
Qed.

(** X13.  When [savePathForRoot] and [shrink] leave the size alone, a
    [Delete] that removed an entry has decremented the size by one, modulo
    2^64: one less for a size between 1 and 2^64 - 1, and 2^64 - 1 for the
    size 0. *)
Theorem Delete_decrements_size (fuel : nat) (key value : iface) (m m' : Mast) :
  Delete fuel key value m = (Ok tt, m') ->
  size m' = wrap64 (size m - 1)
  /\ (0 < size m < 2 ^ 64 -> size m' = size m - 1)
  /\ (size m = 0 -> size m' = 2 ^ 64 - 1).
Proof.
  intros E. apply Delete_size in E. split_and!.
  - assumption.
  - intros H. rewrite E. unfold wrap64. apply Z.mod_small. lia.
  - intros H. rewrite E, H. reflexivity.
Qed.

End Delete_size_properties.

(** ** What Insert and Delete leave alone *)

Section Frame_properties.
Context {helpers : Helpers}.

Lemma set_root_same (m : Mast) : set_root (root m) m = m.
Proof. destruct m; reflexivity. Qed.

Hypothesis savePathForRoot_onlyRoot : forall p, onlyRoot (savePathForRoot p).

Lemma growLoop_skip (fuel : nat) (p : list pathEntry.t) (m : Mast) :
  size m < growAfterSize m -> growLoop fuel p m = (Ok tt, m).
Proof.
  intros H. destruct fuel; simpl;
    destruct (Z.leb_spec (growAfterSize m) (size m)); try lia; reflexivity.
Qed.

Lemma shrinkLoop_skip (fuel : nat) (m : Mast) :
  shrinkBelowSize m <= size m \/ height m <= 0 ->
  shrinkLoop fuel m = (Ok tt, m).
Proof.
  intros H. destruct fuel; simpl;
    destruct (Z.ltb_spec (size m) (shrinkBelowSize m));
    destruct (Z.ltb_spec 0 (height m)); simpl; try lia; reflexivity.
Qed.

(** X14.  When [savePathForRoot] assigns to the root only, an [Insert] into a
    tree whose size is below [growAfterSize] changes nothing but the root
    and the size: the grow loop is not entered, so the height, both
    thresholds, the branch factor and the configuration are as before, and
    the size is the same (the key was there) or one more (modulo 2^64). *)
Theorem Insert_below_threshold (fuel : nat) (key value : iface) (m m' : Mast) :
  size m < growAfterSize m ->
  Insert fuel key value m = (Ok tt, m') ->
  m' = set_root (root m') m
  \/ m' = set_size (wrap64 (size m + 1)) (set_root (root m') m).
Proof.
  intros Hlt. unfold Insert, bindM, getM, liftR, wrapM, modifyM, retM.
  destruct (Insert_plan key value m) as [[|p|p]| | |]; try discriminate.
  - intros E. injection E as <-. left. symmetry. apply set_root_same.
  - destruct (savePathForRoot p m) as [[p'| | |] m1] eqn:Es; try discriminate.
    intros E. injection E as <-. left.
    eapply savePathForRoot_onlyRoot. eassumption.
  - destruct (savePathForRoot p m) as [[p'| | |] m1] eqn:Es; simpl;
      try discriminate.
    apply savePathForRoot_onlyRoot in Es.
    rewrite growLoop_skip by (rewrite Es; simpl; assumption).
    intros E. injection E as <-. right. simpl.
    rewrite Es at 1 2. reflexivity.
Qed.

(** X15.  When [savePathForRoot] assigns to the root only, a [Delete] that
    leaves the size at or above [shrinkBelowSize], or that works on a tree
    of height 0, changes nothing but the root and the size: the shrink loop
    is not entered. *)
Theorem Delete_above_threshold (fuel : nat) (key value : iface) (m m' : Mast) :
  shrinkBelowSize m <= wrap64 (size m - 1) \/ height m <= 0 ->
  Delete fuel key value m = (Ok tt, m') ->
  m' = set_size (wrap64 (size m - 1)) (set_root (root m') m).
Proof.
  intros Hge E. apply Delete_Ok_inv in E as (p & p' & m1 & _ & Hs & E).
  apply savePathForRoot_onlyRoot in Hs.
  rewrite shrinkLoop_skip in E by (rewrite Hs; simpl; assumption).
  injection E as <-. simpl. rewrite Hs at 1 2. reflexivity.
Qed.

End Frame_properties.

(** ** A tree without a root *)

Section Nil_root.
Context {helpers : Helpers} {traversal : Traversal}.

(** X16.  On a tree whose root is nil, [Get] reports the key absent and
    [Delete] returns the error [key ... not present in tree], both leaving
    the tree alone; [Insert] (once [keyLayer] has answered), [MakeRoot]
    (with a [Persist] configured) and [Iter] load the root without testing
    it and panic on the nil interface, before any other effect. *)
Theorem nil_root (fuel : nat) (key value : iface) (ptr : option iface)
    (m : Mast) :
  root m = LNil ->
  Get key ptr m = (Ok (false, ptr), m)
  /\ Delete fuel key value m = (Err (notPresent key), m)
  /\ (forall layer, keyLayer m key (branchFactor m) = Ok layer ->
        Insert fuel key value m = (Panic nil_panic, m))
  /\ (forall p, persist m = Some p -> MakeRoot m = (Panic nil_panic, m))
  /\ (forall (St : Type) (f : callback St) (s : St),
        Iter f m s = Panic nil_panic).
Proof.
  intros Hr. split_and!.
  - unfold Get, bindM, getM, retM. rewrite Hr. reflexivity.
  - unfold Delete, Delete_plan, bindM, getM, liftR. rewrite Hr. reflexivity.
  - intros layer Hl.
    unfold Insert, Insert_plan, bindM, getM, liftR. rewrite Hl, Hr. reflexivity.
  - intros p Hp.
    unfold MakeRoot, flush, bindM, wrapM, getM, liftR. rewrite Hp, Hr.
    reflexivity.
  - intros St f s. unfold Iter. rewrite Hr. reflexivity.
Qed.

End Nil_root.

(** ** The errors of Delete *)

Lemma bindR_Err {A B} (c : res A) (k : A -> res B) (e : error) :
  bindR c k = Err e -> c = Err e \/ exists a, c = Ok a /\ k a = Err e.
Proof.
  destruct c as [a|e0| |]; simpl; intros E; try discriminate.
  - right. eauto.
  - injection E as ->. left. reflexivity.
Qed.

Lemma wrapR_Err {A} (msg : string) (c : res A) (e : error) :
  wrapR msg c = Err e -> exists cause, c = Err cause /\ e = Wrapf msg cause.
Proof. destruct c; simpl; intros E; try discriminate. injection E as <-. eauto. Qed.

Lemma index_not_Err {A} (s : list A) (i : nat) (e : error) : index s i <> Err e.
Proof. unfold index. destruct (s !! i); discriminate. Qed.

Lemma assign_not_Err {A} (s : list A) (i : nat) (v : A) (e : error) :
  assign s i v <> Err e.
Proof. unfold assign. destruct (decide _); discriminate. Qed.

Lemma sliceTo_not_Err {A} (s : list A) (i : nat) (e : error) : sliceTo s i <> Err e.
Proof. unfold sliceTo. destruct (decide _); discriminate. Qed.

Lemma sliceFrom_not_Err {A} (s : list A) (i : nat) (e : error) :
  sliceFrom s i <> Err e.
Proof. unfold sliceFrom. destruct (decide _); discriminate. Qed.

Lemma setLastNode_not_Err (p : list pathEntry.t) (n : mastNode) (e : error) :
  setLastNode p n <> Err e.
Proof.
  unfold setLastNode. destruct (length p); [discriminate|].
  intros E. apply bindR_Err in E as [E|(a & _ & E)].
  - exact (index_not_Err _ _ _ E).
  - exact (assign_not_Err _ _ _ _ E).
Qed.

Section Delete_errors.
Context {helpers : Helpers}.

(** [validateNode] has no result in Go: it returns or panics. *)
Hypothesis validateNode_no_error : forall n m e, validateNode n m <> Err e.

Lemma DeleteError_wrapped (key value : iface) (prefix : string) (cause : error) :
  In prefix ["load root"; "layer"; "findNode"; "keyCompare"; "merge";
             "savePathForRoot"; "shrink"] ->
  DeleteError key value (Wrapf prefix cause).
Proof. intros H. right. right. eauto. Qed.

Ltac wrapped_by H :=
  apply wrapR_Err in H as (? & _ & ->); apply DeleteError_wrapped; simpl; auto 10.

Ltac never H :=
  first [ exact (False_ind _ (index_not_Err _ _ _ H))
        | exact (False_ind _ (assign_not_Err _ _ _ _ H))
        | exact (False_ind _ (sliceTo_not_Err _ _ _ H))
        | exact (False_ind _ (sliceFrom_not_Err _ _ _ H))
        | exact (False_ind _ (setLastNode_not_Err _ _ _ H))
        | exact (False_ind _ (validateNode_no_error _ _ _ H)) ].

Lemma Delete_plan_errors (key value : iface) (m : Mast) (e : error) :
  Delete_plan key value m = Err e -> DeleteError key value e.
Proof.
  unfold Delete_plan. intros E.
  destruct (isNil (root m)); [injection E as <-; left; reflexivity|].
  apply bindR_Err in E as [E|(n0 & _ & E)]; [wrapped_by E|].
  apply bindR_Err in E as [E|(layer & _ & E)]; [wrapped_by E|].
  apply bindR_Err in E as [E|([[n i] o] & _ & E)]; [wrapped_by E|].
  destruct (_ || _); [injection E as <-; left; reflexivity|].
  apply bindR_Err in E as [E|(ki & _ & E)]; [never E|].
  apply bindR_Err in E as [E|(cmp & _ & E)]; [wrapped_by E|].
  destruct (negb (cmp =? 0)); [injection E as <-; left; reflexivity|].
  apply bindR_Err in E as [E|(vi & _ & E)]; [never E|].
  destruct (negb (bool_decide (vi = value)));
    [injection E as <-; right; left; eauto|].
  apply bindR_Err in E as [E|(k1 & _ & E)]; [never E|].
  apply bindR_Err in E as [E|(k2 & _ & E)]; [never E|].
  apply bindR_Err in E as [E|(v1 & _ & E)]; [never E|].
  apply bindR_Err in E as [E|(v2 & _ & E)]; [never E|].
  apply bindR_Err in E as [E|(l1 & _ & E)]; [never E|].
  apply bindR_Err in E as [E|(l2 & _ & E)]; [never E|].
  apply bindR_Err in E as [E|(a & _ & E)]; [never E|].
  apply bindR_Err in E as [E|(b & _ & E)]; [never E|].
  apply bindR_Err in E as [E|(mergedLink & _ & E)]; [wrapped_by E|].
  apply bindR_Err in E as [E|(ls & _ & E)]; [never E|].
  apply bindR_Err in E as [E|(u & _ & E)]; [never E|].
  never E.
Qed.

Lemma shrinkLoop_errors (key value : iface) (fuel : nat) :
  forall m e m', shrinkLoop fuel m = (Err e, m') -> DeleteError key value e.
Proof.
  induction fuel as [|fuel IH]; intros m e m'; simpl;
    destruct ((size m <? shrinkBelowSize m) && (0 <? height m));
    try discriminate.
  unfold bindM, wrapM. destruct (shrink m) as [[[]|c| |] m1]; simpl;
    try discriminate.
  - apply IH.
  - intros E. injection E as <- _. apply DeleteError_wrapped. simpl. auto 10.
Qed.

(** X17.  Every error that [Delete] returns is one of its own two -- [key
    ... not present in tree], [value not present for given key ...] -- or
    the error of a function it calls under the prefix of that call: [load
    root], [layer], [findNode], [keyCompare], [merge], [savePathForRoot] or
    [shrink].  It never hands on a bare error of a collaborator. *)
Theorem Delete_errors_are_wrapped (fuel : nat) (key value : iface)
    (m m' : Mast) (e : error) :
  Delete fuel key value m = (Err e, m') ->
  DeleteError key value e.
Proof.
  unfold Delete, bindM, getM, liftR, wrapM, modifyM.
  destruct (Delete_plan key value m) as [p|c| |] eqn:Ep; try discriminate.
  - destruct (savePathForRoot p m) as [[p'|c| |] m1]; simpl; try discriminate.
    + apply shrinkLoop_errors.
    + intros E. injection E as <- _. apply DeleteError_wrapped. simpl. auto 10.
  - intros E. injection E as <- _. eapply Delete_plan_errors. eassumption.
Qed.

End Delete_errors.

(** ** The node loader: outcomes *)

Section Loader_outcomes.
Variables (l : string) (m : Mast) (sn : stringNodeT).

Hypothesis intoLike_returns :
  forall proto blob, returns (intoLike (unmarshal m) proto blob).

Lemma loadEntry_returns (n : mastNode) (i : nat) :
  zeroKey m <> INil ->
  (i < length (snKey sn))%nat -> (i < length (snValue sn))%nat ->
  (i < length (Key n))%nat -> (i < length (Value n))%nat ->
  (exists n', loadEntry l m sn n i = Ok n'
              /\ length (Key n') = length (Key n)
              /\ length (Value n') = length (Value n)
              /\ Link n' = Link n)
  \/ exists e, loadEntry l m sn n i = Err e.
Proof.
  intros Hz Hk Hv HK HV. unfold loadEntry.
  destruct (decide (zeroKey m = INil)); [contradiction|].
  destruct (lookup_lt_is_Some_2 _ _ Hk) as (kb & Hkb).
  destruct (lookup_lt_is_Some_2 _ _ Hv) as (vb & Hvb).
  unfold index. rewrite Hkb. simpl.
  destruct (intoLike_returns (zeroKey m) kb) as [(k & ->)|(e & ->)];
    [|right; eexists; reflexivity].
  simpl.
  assert (Hval : (exists v,
            (if decide (zeroValue m = INil) then Ok INil else
             bindR match snValue sn !! i with
                   | Some a => Ok a
                   | None => Panic index_panic
                   end
                   (fun valueBlob =>
                      wrapR (atValue i l)
                            (intoLike (unmarshal m) (zeroValue m) valueBlob)))
            = Ok v)
          \/ exists e,
            (if decide (zeroValue m = INil) then Ok INil else
             bindR match snValue sn !! i with
                   | Some a => Ok a
                   | None => Panic index_panic
                   end
                   (fun valueBlob =>
                      wrapR (atValue i l)
                            (intoLike (unmarshal m) (zeroValue m) valueBlob)))
            = Err e).
  { destruct (decide (zeroValue m = INil)); [left; eauto|].
    rewrite Hvb. simpl.
    destruct (intoLike_returns (zeroValue m) vb) as [(v & ->)|(e & ->)];
      simpl; eauto. }
  destruct Hval as [(v & ->)|(e & ->)]; [|right; eexists; reflexivity].
  simpl. rewrite !assign_Ok by assumption. simpl.
  left. eexists. split; [reflexivity|]. simpl.
  rewrite !length_insert. auto.
Qed.

Lemma entries_loop_returns (cnt : nat) : forall (k : nat) (n : mastNode),
  zeroKey m <> INil ->
  (k + cnt <= length (snKey sn))%nat -> (k + cnt <= length (snValue sn))%nat ->
  (k + cnt <= length (Key n))%nat -> (k + cnt <= length (Value n))%nat ->
  (exists n', foldR (loadEntry l m sn) (seq k cnt) n = Ok n'
              /\ Link n' = Link n)
  \/ exists e, foldR (loadEntry l m sn) (seq k cnt) n = Err e.
Proof.
  induction cnt as [|cnt IH]; intros k n Hz H1 H2 H3 H4; simpl.
  - left. eauto.
  - destruct (loadEntry_returns n k Hz) as [(n1 & -> & L1 & L2 & L3)|(e & ->)];
      try lia; [|right; eauto].
    simpl.
    destruct (IH (S k) n1 Hz) as [(n2 & -> & L4)|(e & ->)]; try lia;
      [left|right]; eauto.
    eexists. split; [reflexivity|]. congruence.
Qed.

End Loader_outcomes.

Section Loader_outcome_properties.

(** X18.  With a [Persist] and [KeysLike] configured, collaborators that
    return a value or an error, and serialized nodes whose [Link] has at
    most one element more than [Key], [contentHash.Load] returns a node or
    an error: it does not panic. *)
Theorem contentHash_Load_returns (l : string) (m : Mast) (p : Persist) :
  persist m = Some p ->
  zeroKey m <> INil ->
  returns (PersistLoad p l) ->
  (forall blob, returns (intoNode (unmarshal m) blob)) ->
  (forall proto blob, returns (intoLike (unmarshal m) proto blob)) ->
  (forall blob sn links,
     PersistLoad p l = Ok blob -> intoNode (unmarshal m) blob = Ok sn ->
     snLink sn = Some links -> (length links <= length (snKey sn) + 1)%nat) ->
  returns (contentHash_Load l m).
Proof.
  intros Hp Hz Hload Hnode Hlike Hfit.
  destruct Hload as [(blob & Hload)|(e & Hload)];
    [|right; unfold contentHash_Load; rewrite Hp, Hload; simpl; eauto].
  destruct (Hnode blob) as [(sn & Hsn)|(e & Hsn)];
    [|right; unfold contentHash_Load; rewrite Hp, Hload; simpl; rewrite Hsn;
      simpl; eauto].
  rewrite (contentHash_Load_unfold l m p blob sn Hp Hload Hsn).
  destruct (Nat.eqb_spec (length (snKey sn)) (length (snValue sn))) as [Hlen|];
    simpl; [|right; eauto].
  destruct (entries_loop_returns l m sn Hlike (length (snKey sn)) 0 (blank sn) Hz)
    as [(n & -> & HL)|(e & ->)]; simpl;
    rewrite ?length_replicate; try lia; [|right; eauto].
  destruct (snLink sn) as [links|] eqn:Hlinks; [|left; eauto].
  destruct (loadLinks_Ok links 0 n) as (n' & ->); [|left; eauto].
  rewrite HL. simpl. rewrite length_replicate.
  specialize (Hfit blob sn links Hload Hsn Hlinks). lia.
Qed.

(** X19.  Without [KeysLike] (a nil [zeroKey]), [contentHash.Load] panics in
    [reflect.New] on every serialized node that has an entry, and loads the
    nodes that have none. *)
Theorem contentHash_Load_without_KeysLike (l : string) (m : Mast) (p : Persist)
    (blob : bytes) (sn : stringNodeT) :
  persist m = Some p ->
  PersistLoad p l = Ok blob ->
  intoNode (unmarshal m) blob = Ok sn ->
  length (snKey sn) = length (snValue sn) ->
  zeroKey m = INil ->
  (snKey sn <> [] -> contentHash_Load l m = Panic "reflect: New(nil)")
  /\ (snKey sn = [] -> snLink sn = None ->
      contentHash_Load l m = Ok (MkNode [] [] [LNil])).
Proof.
  intros Hp Hload Hsn Hlen Hz.
  rewrite (contentHash_Load_unfold l m p blob sn Hp Hload Hsn).
  rewrite Hlen, Nat.eqb_refl. simpl. split.
  - intros Hne. rewrite <- Hlen.
    destruct (snKey sn) as [|kb ks]; [contradiction|]. simpl.
    unfold loadEntry. rewrite Hz. reflexivity.
  - intros Hnil Hlink. unfold blank. rewrite <- Hlen, Hnil, Hlink. reflexivity.
Qed.

End Loader_outcome_properties.

(** ** Iter, keys and toSlice *)

Lemma take_S_insert {A} (s : list A) (i : nat) (v : A) :
  (i < length s)%nat -> take (S i) (<[i:=v]> s) = take i s ++ [v].
Proof.
  revert i. induction s as [|a s IH]; intros i Hi; simpl in Hi; [lia|].
  destruct i as [|i]; simpl; [rewrite take_0; reflexivity|].
  rewrite IH by lia. reflexivity.
Qed.

Section Collect.
Context {A : Type} (g : iface -> iface -> A).

Lemma collect_fold (es : list (iface * iface)) :
  forall (array : list A) (i : nat),
    (i <= length array)%nat ->
    foldR (fun s e => collect g s e.1 e.2) es (array, i)
    = if decide (i + length es <= length array)%nat
      then Ok (take i array ++ map (fun e => g e.1 e.2) es
               ++ drop (i + length es) array, (i + length es)%nat)
      else Panic index_panic.
Proof.
  induction es as [|e es IH]; intros array i Hi; simpl.
  - rewrite Nat.add_0_r. destruct (decide _); [|lia].
    rewrite take_drop. reflexivity.
  - unfold assign. destruct (decide (i < length array)%nat) as [Hlt|Hge]; simpl.
    + rewrite IH by (rewrite length_insert; lia). rewrite length_insert.
      destruct (decide (S i + length es <= length array)%nat);
        destruct (decide (i + S (length es) <= length array)%nat); try lia;
        [|reflexivity].
      rewrite take_S_insert by assumption.
      rewrite drop_insert_lt by lia.
      rewrite <- app_assoc. simpl.
      replace (S (i + length es)) with (i + S (length es))%nat by lia.
      reflexivity.
    + destruct (decide _); [lia|reflexivity].
Qed.

End Collect.

Section Iteration_properties.
Context {traversal : Traversal}.

Lemma make_Ok {A} (elemSize : Z) (zero : A) (n : Z) :
  0 <= n < 2 ^ 63 -> n * elemSize <= maxAlloc ->
  make_ elemSize zero n = Ok (replicate (Z.to_nat n) zero).
Proof.
  intros Hn Ha. unfold make_.
  destruct (Z.ltb_spec n (2 ^ 63)); [|lia].
  destruct (Z.leb_spec (n * elemSize) maxAlloc); [|lia]. reflexivity.
Qed.

Lemma collect_Iter {A} (g : iface -> iface -> A) (zero : A) (m : Mast)
    (n : mastNode) (es : list (iface * iface)) (tail : option error) (k : nat) :
  load m (root m) = Ok n ->
  visits n m es tail ->
  bindR (Iter (collect g) m (replicate k zero, 0%nat))
        (fun '(array, _) => Ok array)
  = if decide (length es <= k)%nat
    then match tail with
         | None => Ok (map (fun e => g e.1 e.2) es
                       ++ replicate (k - length es) zero)
         | Some e => Err e
         end
    else Panic index_panic.
Proof.
  intros Hload Hvisits. unfold Iter. rewrite Hload. simpl.
  rewrite Hvisits, collect_fold by lia.
  rewrite length_replicate. simpl.
  destruct (decide (length es <= k)%nat); [|reflexivity].
  simpl. destruct tail; [reflexivity|].
  rewrite drop_replicate. reflexivity.
Qed.

(** X20.  [keys] fills a slice of [Size()] nils with the keys that [Iter]
    visits, in the order of the visit: when the root loads and the slice can
    be allocated, it returns those keys followed by nils up to [Size()]; it
    returns the error of the traversal, if there is one, once the entries
    before it have been stored; and it panics with an index out of range
    when the traversal visits more than [Size()] entries. *)
Theorem keys_collects (m : Mast) (n : mastNode) (es : list (iface * iface))
    (tail : option error) :
  load m (root m) = Ok n ->
  visits n m es tail ->
  0 <= size m < 2 ^ 63 ->
  size m * ifaceSize <= maxAlloc ->
  keys m
  = if decide (length es <= Z.to_nat (size m))%nat
    then match tail with
         | None => Ok (map fst es
                       ++ replicate (Z.to_nat (size m) - length es) INil)
         | Some e => Err e
         end
    else Panic index_panic.
Proof.
  intros Hload Hvisits Hsize Halloc. unfold keys.
  rewrite make_Ok by assumption. simpl.
  exact (collect_Iter (fun key _ => key) INil m n es tail _ Hload Hvisits).
Qed.

(** X21.  [toSlice] does the same with the entries: the entries that [Iter]
    visits, in order, followed by empty entries up to [Size()]; a panic when
    there are more than [Size()]. *)
Theorem toSlice_collects (m : Mast) (n : mastNode) (es : list (iface * iface))
    (tail : option error) :
  load m (root m) = Ok n ->
  visits n m es tail ->
  0 <= size m < 2 ^ 63 ->
  size m * entrySize <= maxAlloc ->
  toSlice m
  = if decide (length es <= Z.to_nat (size m))%nat
    then match tail with
         | None =>
             Ok (map (fun e => {| entry.Key := e.1; entry.Value := e.2 |}) es
                 ++ replicate (Z.to_nat (size m) - length es)
                              {| entry.Key := INil; entry.Value := INil |})
         | Some e => Err e
         end
    else Panic index_panic.
Proof.
  intros Hload Hvisits Hsize Halloc. unfold toSlice.
  rewrite make_Ok by assumption. simpl.
  exact (collect_Iter (fun key value => {| entry.Key := key; entry.Value := value |})
           _ m n es tail _ Hload Hvisits).
Qed.

Lemma make_out_of_range {A} (elemSize : Z) (zero : A) (n : Z) :
  2 ^ 63 <= n -> make_ elemSize zero n = Panic makeslice_panic.
Proof.
  intros H. unfold make_. destruct (Z.ltb_spec n (2 ^ 63)); [lia|]. reflexivity.
Qed.

End Iteration_properties.

Section Loaded_iteration.
Context {helpers : Helpers} {traversal : Traversal}.

(** X22.  On a tree that [LoadMast] has just built, [keys] and [toSlice]
    panic with an index out of range as soon as the traversal visits one
    entry: the slice they fill has the length [Size()], which is 0. *)
Theorem LoadMast_then_keys (r : Root.t) (config : RemoteConfig.t) (m : Mast)
    (n : mastNode) (es : list (iface * iface)) (tail : option error) :
  LoadMast r config = Ok m ->
  load m (root m) = Ok n ->
  visits n m es tail ->
  es <> [] ->
  0 <= maxAlloc ->
  keys m = Panic index_panic /\ toSlice m = Panic index_panic.
Proof.
  intros Hl Hload Hvisits Hne Ha.
  apply LoadMast_Ok_inv in Hl as (_ & Hs & _).
  assert (Hlen : ~ (length es <= Z.to_nat (size m))%nat).
  { rewrite Hs. destruct es; [contradiction|]. simpl. lia. }
  split.
  - unfold keys. rewrite make_Ok by (rewrite Hs; simpl; lia). simpl.
    rewrite (collect_Iter _ INil m n es tail _ Hload Hvisits).
    destruct (decide _); [contradiction|reflexivity].
  - unfold toSlice. rewrite make_Ok by (rewrite Hs; simpl; lia). simpl.
    rewrite (collect_Iter _ _ m n es tail _ Hload Hvisits).
    destruct (decide _); [contradiction|reflexivity].
Qed.

End Loaded_iteration.

Section Loaded_size.
Context {helpers : Helpers} {traversal : Traversal}.

Hypothesis savePathForRoot_size :
  forall p m r m', savePathForRoot p m = (r, m') -> size m' = size m.
Hypothesis shrink_size :
  forall m r m', shrink m = (r, m') -> size m' = size m.

(** X23.  [LoadMast] does not set the size of the tree it builds, so it is 0
    whatever the handle says.  When [savePathForRoot] and [shrink] leave the
    size alone, the first [Delete] that removes an entry from a loaded tree
    leaves [Size()] at 2^64 - 1, and [keys] and [toSlice] then panic in
    [make], before they read the tree. *)
Theorem LoadMast_then_Delete (r : Root.t) (config : RemoteConfig.t)
    (fuel : nat) (key value : iface) (m m' : Mast) :
  LoadMast r config = Ok m ->
  Delete fuel key value m = (Ok tt, m') ->
  Size m = 0
  /\ Size m' = 18446744073709551615
  /\ keys m' = Panic makeslice_panic
  /\ toSlice m' = Panic makeslice_panic.
Proof.
  intros Hl E.
  apply (Delete_size savePathForRoot_size shrink_size) in E.
  apply LoadMast_Ok_inv in Hl as (_ & Hs & _).
  rewrite Hs in E. change (wrap64 (0 - 1)) with 18446744073709551615 in E.
  unfold Size, keys, toSlice. rewrite Hs, E.
  rewrite !make_out_of_range by lia. split_and!; reflexivity.
Qed.

End Loaded_size.

(** ** Delete after Insert *)

Section Undo.
Context {helpers : Helpers}.

Lemma delete_at_length {A} (l1 l2 : list A) (x : A) (i : nat) :
  length l1 = i -> delete i (l1 ++ x :: l2) = l1 ++ l2.
Proof. intros <-. apply delete_middle. Qed.

Lemma delete_spliced {A} (s : list A) (i : nat) (v : A) :
  (i <= length s)%nat -> delete i (take i s ++ v :: drop i s) = s.
Proof.
  intros Hi. rewrite delete_at_length by (rewrite length_take; lia).
  apply take_drop.
Qed.

(** X24.  [Delete] undoes [Insert] on the node: when [Insert] has added an
    entry at index [i] of a well-formed node, and a later [Delete] of the
    same key and value finds the node [Insert] built at that index, the node
    [Delete] builds has the keys and the values of the node before the
    [Insert], and its links too, but for link [i], which is the merge of the
    two links [Insert] put around the entry. *)
Theorem Delete_undoes_Insert (key value : iface) (m m' : Mast)
    (p p' : list pathEntry.t) (e : pathEntry.t) (n : mastNode) (i : nat)
    (o o' : findOptions) :
  Insert_plan key value m = Ok (Add p) ->
  reach true m key = Ok (n, i, o) ->
  last p = Some e ->
  wellFormed n ->
  reach false m' key = Ok (pathEntry.node e, i, o') ->
  Delete_plan key value m' = Ok p' ->
  exists e',
    last p' = Some e'
    /\ Key (pathEntry.node e') = Key n
    /\ Value (pathEntry.node e') = Value n
    /\ length (Link (pathEntry.node e')) = length (Link n)
    /\ (forall j, j <> i -> Link (pathEntry.node e') !! j = Link n !! j).
Proof.
  intros Hins Hreach He [HV HL] Hreach' Hdel.
  apply Insert_plan_Ok_inv in Hins as (n0 & i0 & o0 & Hr0 & Hl0 & Hno & Hadd).
  rewrite Hreach in Hr0. injection Hr0 as <- <- <-.
  destruct Hadd as (leftLink & rightLink & Hp & Hlinks).
  apply setLastNode_last in Hp as (_ & (e0 & He0 & Hnode) & _).
  rewrite He in He0. injection He0 as <-.
  assert (HiL : (i < length (Link n))%nat).
  { destruct Hlinks as [(Hi & _)|(c & ch & Hi & _)];
      eapply lookup_lt_Some; eassumption. }
  assert (HiK : (i <= length (Key n))%nat) by lia.
  assert (HiV : (i <= length (Value n))%nat) by lia.
  apply Delete_plan_Ok in Hdel
    as (n1 & i1 & o1 & a & b & mergedLink & Hr1 & _ & _ & _ & _ & _ & Hp').
  rewrite Hreach' in Hr1. injection Hr1 as <- <- <-.
  apply setLastNode_last in Hp' as (_ & (e' & He' & Hnode') & _).
  exists e'. split; [assumption|]. rewrite Hnode', Hnode.
  unfold without, withEntry. simpl.
  rewrite !delete_spliced by assumption.
  rewrite (delete_at_length (take i (Link n))
             (rightLink :: drop (S i) (Link n)) leftLink i)
    by (rewrite length_take; lia).
  split_and!; try reflexivity.
  - rewrite length_insert, length_app, length_take. simpl.
    rewrite length_drop. lia.
  - intros j Hj. rewrite list_lookup_insert_ne by congruence.
    destruct (Nat.lt_ge_cases j i) as [Hlt|Hge].
    + rewrite lookup_app_l by (rewrite length_take; lia).
      apply lookup_take_lt. assumption.
    + rewrite lookup_app_r by (rewrite length_take; lia).
      rewrite length_take, Nat.min_l by lia.
      replace (j - i)%nat with (S (j - S i)) by lia. simpl.
      rewrite lookup_drop. f_equal. lia.
Qed.

End Undo.

(** ** The helpers and the traversal of the model meet the assumptions *)

Lemma Spec_shrink_size (m : Mast) (r : res unit) (m' : Mast) :
  shrink (Helpers := specHelpers) m = (r, m') -> size m' = size m.
Proof.
  simpl. unfold Spec.shrink, bindM, getM, liftR, modifyM, panicM.
  destruct (load m (root m)) as [n| | |]; try (intros E; injection E as _ <-; reflexivity).
  destruct (Spec.foldDown _ _ _ _) as [n'| | |];
    try (intros E; injection E as _ <-; reflexivity).
  destruct (branchFactor m =? 0); intros E; injection E as _ <-; reflexivity.
Qed.

Lemma Spec_savePathForRoot_onlyRoot (p : list pathEntry.t) :
  onlyRoot (savePathForRoot (Helpers := specHelpers) p).
Proof.
  intros m r m'. simpl. unfold Spec.savePathForRoot, bindM, liftR, modifyM, retM.
  destruct (Spec.relink p) as [p'| | |];
    try (intros E; injection E as _ <-; symmetry; apply set_root_same).
  destruct (index p' 0) as [e| | |]; intros E; injection E as _ <-;
    try (symmetry; apply set_root_same).
  reflexivity.
Qed.

Lemma Spec_validateNode_no_error (n : mastNode) (m : Mast) (e : error) :
  validateNode (Helpers := specHelpers) n m <> Err e.
Proof. simpl. unfold Spec.validateNode. destruct (_ && _); discriminate. Qed.

Lemma codec_items_returns (section : bytes) : returns (Spec.items section).
Proof.
  unfold Spec.items. destruct (List.last _ _); [left|right]; eauto.
Qed.

Lemma codec_intoNode_returns (blob : bytes) :
  returns (intoNode Spec.codecUnmarshal blob).
Proof.
  simpl. destruct (Spec.splitOn Spec.newline blob) as [|ks [|vs [|ls [|x rest]]]];
    try (right; eauto; fail).
  destruct (codec_items_returns ks) as [(keys_ & ->)|(e & ->)]; simpl;
    [|right; eauto].
  destruct (codec_items_returns vs) as [(values_ & ->)|(e & ->)]; simpl;
    [|right; eauto].
  destruct (decide (ls = [Spec.dash])); simpl; [left; eauto|].
  destruct (codec_items_returns ls) as [(links_ & ->)|(e & ->)]; simpl;
    [left|right]; eauto.
Qed.

Lemma codec_intoLike_returns (proto : iface) (blob : bytes) :
  returns (intoLike Spec.codecUnmarshal proto blob).
Proof.
  destruct proto as [|z|s]; simpl.
  - right. eauto.
  - unfold Spec.parseInt. destruct blob as [|b rest]; [right; eauto|].
    destruct (Byte.eqb b Spec.dash).
    + destruct rest; [right; eauto|].
      destruct (Spec.digitsFrom _ _); [left|right]; eauto.
    + destruct (Spec.digitsFrom _ _); [left|right]; eauto.
  - unfold Spec.parseString. destruct blob as [|b rest]; [right; eauto|].
    destruct (_ && _); [left|right]; eauto.
Qed.

Lemma bindR_ret {A} (c : res A) : bindR c (fun a => Ok a) = c.
Proof. destruct c; reflexivity. Qed.

Lemma SpecIter_walk_leaf {St : Type} (descend : link -> St -> res St)
    (f : callback St) (ks : list iface) :
  forall (links : list link) (vs : list iface) (s : St),
    Forall (fun l => l = LNil) links ->
    length links = S (length ks) -> length vs = length ks ->
    SpecIter.walk descend f links ks vs s
    = foldR (fun s e => f s e.1 e.2) (zip ks vs) s.
Proof.
  induction ks as [|k ks IH]; intros links vs s Hnil Hl Hv.
  - destruct links as [|l [|l' links]]; simpl in Hl; try lia.
    destruct vs; simpl in Hv; [|lia].
    apply Forall_cons in Hnil as [-> _]. reflexivity.
  - destruct links as [|l links]; simpl in Hl; [lia|].
    destruct vs as [|v vs]; simpl in Hv; [lia|].
    apply Forall_cons in Hnil as [-> Hnil]. simpl.
    destruct (f s k v) as [s1| | |]; simpl; try reflexivity.
    apply IH; [assumption|lia|lia].
Qed.

(** A node without children: the traversal of the model visits its entries
    in the order of the node. *)
Lemma SpecIter_leaf (n : mastNode) (m : Mast) :
  Forall (fun l => l = LNil) (Link n) ->
  wellFormed n ->
  visits (traversal := specTraversal) n m (zip (Key n) (Value n)) None.
Proof.
  intros Hnil [HV HL] St f s. simpl. unfold SpecIter.iter.
  change (SpecIter.iterFrom 256 f n m s)
    with (SpecIter.walk
            (fun l s => (let* c := load m l in SpecIter.iterFrom 255 f c m s)%res)
            f (Link n) (Key n) (Value n) s).
  rewrite SpecIter_walk_leaf by assumption.
  symmetry. apply bindR_ret.
Qed.

(** ** The further properties on concrete trees *)

(** The key 7 of the tree of 1..15 has the value 700, an [int]: a pointer to
    an [int] variable receives it. *)
Lemma Get_found_value_witness :
  let value := Reflect.ArgPointer Reflect.TInt (IInt 0) in
  let value' := Reflect.ArgPointer Reflect.TInt (IInt 700) in
  exists v,
    present (helpers := specHelpers) Fixture.fifteen (IInt 7) v
    /\ snd (Reflect.Get (helpers := specHelpers) (IInt 7) value Fixture.fifteen)
       = Fixture.fifteen
    /\ ((v = INil /\ value' = value)
        \/ (v <> INil
            /\ exists ty old,
                 value = Reflect.ArgPointer ty old
                 /\ Reflect.assignable v ty = true
                 /\ value' = Reflect.ArgPointer ty v)).
Proof.
  apply (proj1 (proj1 (Get_found_value (helpers := specHelpers) (IInt 7)
                         (Reflect.ArgPointer Reflect.TInt (IInt 0))
                         Fixture.fifteen ltac:(discriminate)) _ _)).
  apply pair_of_fst. vm_compute. reflexivity.
Defined.

(** The same key with a pointer to a [string] variable, with a nil pointer
    and with an [int] that is no pointer: three panics of [reflect]. *)
Lemma Get_reflect_panics :
  let get value :=
    fst (Reflect.Get (helpers := specHelpers) (IInt 7) value Fixture.fifteen) in
  get (Reflect.ArgPointer Reflect.TString (IStr "s"))
  = Panic "reflect.Set: value of type int is not assignable to type string"
  /\ get Reflect.ArgNilPointer
     = Panic "reflect: call of reflect.Value.Set on zero Value"
  /\ get (Reflect.ArgNotPointer "int")
     = Panic "reflect: call of reflect.Value.Elem on int Value"
  /\ get (Reflect.ArgPointer Reflect.TInterface (IStr "s"))
     = Ok (true, Reflect.ArgPointer Reflect.TInterface (IInt 700)).
Proof. vm_compute. repeat split. Qed.

Lemma Get_membership_witness :
  lands (helpers := specHelpers) Fixture.fifteen (IInt 7)
  /\ (None : option iface) = None
  /\ snd (Get (helpers := specHelpers) (IInt 7) None Fixture.fifteen)
     = Fixture.fifteen.
Proof.
  apply (proj1 (Get_membership (helpers := specHelpers) (IInt 7)
                  Fixture.fifteen _ _)).
  apply pair_of_fst. vm_compute. reflexivity.
Defined.

(** [MakeRoot] on the tree of 1..15 with a store. *)
Lemma MakeRoot_Ok_witness :
  let m := Sample.fifteenPersisted in
  exists p n str,
    persist m = Some p
    /\ load m (root m) = Ok n
    /\ mastNode_store (Helpers := specHelpers) n p (nodeCache m) (marshal m)
       = Ok str
    /\ Sample.handle15
       = {| Root.Link := Some str; Root.Size := size m;
            Root.Height := height m; Root.BranchFactor := branchFactor m |}
    /\ snd (MakeRoot (helpers := specHelpers) m) = set_root (LHash str) m.
Proof.
  apply (proj1 (MakeRoot_Ok (helpers := specHelpers) Sample.fifteenPersisted
                  _ Sample.handle15)).
  apply pair_of_fst. vm_compute. reflexivity.
Defined.

(** [NewInMemory()] has no [Persist]. *)
Lemma MakeRoot_without_Persist_witness :
  MakeRoot (helpers := specHelpers) Fixture.empty
  = (Err (Wrapf "flush" noPersist), Fixture.empty)
  /\ message (Wrapf "flush" noPersist)
     = "flush: no persistence mechanism set; set RemoteConfig.StoreImmutablePartsWith".
Proof.
  apply (MakeRoot_without_Persist (helpers := specHelpers) Fixture.empty).
  reflexivity.
Defined.

(** The tree of 1..15, persisted and loaded again: 15 entries in the handle,
    size 0 in the tree. *)
Lemma MakeRoot_LoadMast_witness :
  let m := Sample.fifteenPersisted in
  let m1 := snd (MakeRoot (helpers := specHelpers) m) in
  let config := Fixture.intConfig Sample.shelf in
  let m2 := Fixture.loaded Sample.handle15 config in
  root m2 = root m1
  /\ height m2 = height m
  /\ branchFactor m2 = branchFactor m
  /\ persist m2 = RemoteConfig.StoreImmutablePartsWith config
  /\ Root.Size Sample.handle15 = size m
  /\ Size m2 = 0.
Proof.
  apply (MakeRoot_LoadMast (helpers := specHelpers) Sample.fifteenPersisted
           (snd (MakeRoot (helpers := specHelpers) Sample.fifteenPersisted))
           (Fixture.loaded Sample.handle15 (Fixture.intConfig Sample.shelf))
           Sample.handle15 (Fixture.intConfig Sample.shelf)).
  - apply pair_of_fst. vm_compute. reflexivity.
  - apply loaded_Ok. vm_compute. reflexivity.
Defined.

(** Options with the branch factor 0: the tree gets 16. *)
Lemma NewRoot_LoadMast_witness :
  let o := Some {| BranchFactor := 0 |} in
  let m := Fixture.loaded (NewRoot o) (Fixture.intConfig Fixture.flaky) in
  branchFactor m = 16
  /\ observable m = (LNode (MkNode [] [] [LNil]), 0, 0, 16, 1)
  /\ (o = None -> observable m = observable (NewInMemory (helpers := specHelpers))).
Proof.
  apply (NewRoot_LoadMast (helpers := specHelpers) (Some {| BranchFactor := 0 |})
           (Fixture.intConfig Fixture.flaky)).
  - intros c E. injection E as <-. simpl. lia.
  - apply loaded_Ok. vm_compute. reflexivity.
Defined.

Lemma store_load_witness :
  let m := Fixture.empty in
  let n := MkNode [IInt 1] [IInt 100] [LNil; LNil] in
  (Link n = [LNil] ->
   store (helpers := specHelpers) m n
   = Err (Errorf "bug! shouldn't be storing empty nodes"))
  /\ (Link n <> [LNil] -> store (helpers := specHelpers) m n = Ok (LNode n))
  /\ (forall l, store (helpers := specHelpers) m n = Ok l ->
        l = LNode n /\ Link n <> [LNil]
        /\ forall m', load m' l = Ok n).
Proof.
  apply (store_load (helpers := specHelpers) Fixture.empty
           (MkNode [IInt 1] [IInt 100] [LNil; LNil])).
  reflexivity.
Defined.

(** [Insert(16, 1600)] on the tree of 1..15. *)
Lemma Insert_adds_at_index_witness :
  let m := Fixture.fifteen in
  let key := IInt 16 in
  let value := IInt 1600 in
  exists n i o e,
    reach (helpers := specHelpers) true m key = Ok (n, i, o)
    /\ last Fixture.addPath = Some e
    /\ (i <= length (Key n))%nat
    /\ length (Key (pathEntry.node e)) = S (length (Key n))
    /\ Key (pathEntry.node e) !! i = Some key
    /\ (forall j, (j < i)%nat ->
          Key (pathEntry.node e) !! j = Key n !! j
          /\ Link (pathEntry.node e) !! j = Link n !! j)
    /\ (forall j, (i <= j)%nat -> Key (pathEntry.node e) !! S j = Key n !! j)
    /\ (forall j, (i < j)%nat -> Link (pathEntry.node e) !! S j = Link n !! j)
    /\ (wellFormed n ->
        wellFormed (pathEntry.node e)
        /\ Value (pathEntry.node e) !! i = Some value
        /\ (forall j, (j < i)%nat -> Value (pathEntry.node e) !! j = Value n !! j)
        /\ (forall j, (i <= j)%nat ->
              Value (pathEntry.node e) !! S j = Value n !! j)).
Proof.
  apply (Insert_adds_at_index (helpers := specHelpers) (IInt 16) (IInt 1600)
           Fixture.fifteen Fixture.addPath).
  vm_compute. reflexivity.
Defined.

(** [Insert(7, 1)] on the tree of 1..15, where 7 has the value 700. *)
Lemma Insert_replaces_value_only_witness :
  let m := Fixture.fifteen in
  let key := IInt 7 in
  let value := IInt 1 in
  exists n i o e old,
    reach (helpers := specHelpers) true m key = Ok (n, i, o)
    /\ last Sample.replacePath = Some e
    /\ Value n !! i = Some old /\ old <> value
    /\ Key (pathEntry.node e) = Key n
    /\ Link (pathEntry.node e) = Link n
    /\ length (Value (pathEntry.node e)) = length (Value n)
    /\ Value (pathEntry.node e) !! i = Some value
    /\ (forall j, j <> i -> Value (pathEntry.node e) !! j = Value n !! j).
Proof.
  apply (Insert_replaces_value_only (helpers := specHelpers) (IInt 7) (IInt 1)
           Fixture.fifteen Sample.replacePath).
  vm_compute. reflexivity.
Defined.

(** [Delete(7, 700)] on the tree of 1..15. *)
Lemma Delete_removes_at_index_witness :
  let m := Fixture.fifteen in
  let key := IInt 7 in
  let value := IInt 700 in
  exists n i o e a b mergedLink,
    reach (helpers := specHelpers) false m key = Ok (n, i, o)
    /\ last Sample.deletePath = Some e
    /\ Value n !! i = Some value
    /\ Link n !! i = Some a /\ Link n !! S i = Some b
    /\ mergeNodes (Helpers := specHelpers) m a b = Ok mergedLink
    /\ S (length (Key (pathEntry.node e))) = length (Key n)
    /\ S (length (Value (pathEntry.node e))) = length (Value n)
    /\ S (length (Link (pathEntry.node e))) = length (Link n)
    /\ (wellFormed n -> wellFormed (pathEntry.node e))
    /\ Link (pathEntry.node e) !! i = Some mergedLink
    /\ (forall j, (j < i)%nat ->
          Key (pathEntry.node e) !! j = Key n !! j
          /\ Value (pathEntry.node e) !! j = Value n !! j
          /\ Link (pathEntry.node e) !! j = Link n !! j)
    /\ (forall j, (i <= j)%nat ->
          Key (pathEntry.node e) !! j = Key n !! S j
          /\ Value (pathEntry.node e) !! j = Value n !! S j)
    /\ (forall j, (i < j)%nat -> Link (pathEntry.node e) !! j = Link n !! S j).
Proof.
  apply (Delete_removes_at_index (helpers := specHelpers) (IInt 7) (IInt 700)
           Fixture.fifteen Sample.deletePath).
  vm_compute. reflexivity.
Defined.

Lemma Delete_returns_above_threshold_witness :
  let m' := snd (Delete (helpers := specHelpers) 256 (IInt 7) (IInt 700)
                        Fixture.fifteen) in
  shrinkBelowSize m' <= size m' \/ height m' <= 0.
Proof.
  apply (Delete_returns_above_threshold (helpers := specHelpers) 256 (IInt 7)
           (IInt 700) Fixture.fifteen).
  apply pair_of_fst. vm_compute. reflexivity.
Defined.

Lemma Delete_decrements_size_witness :
  let m := Fixture.fifteen in
  let m' := snd (Delete (helpers := specHelpers) 256 (IInt 7) (IInt 700) m) in
  size m' = wrap64 (size m - 1)
  /\ (0 < size m < 2 ^ 64 -> size m' = size m - 1)
  /\ (size m = 0 -> size m' = 2 ^ 64 - 1).
Proof.
  apply (Delete_decrements_size (helpers := specHelpers)
           Spec_savePathForRoot_size Spec_shrink_size
           256 (IInt 7) (IInt 700) Fixture.fifteen).
  apply pair_of_fst. vm_compute. reflexivity.
Defined.

(** The leaf [A], loaded from its handle, then [Delete(1, 100)]. *)
Lemma LoadMast_then_Delete_witness :
  let m := Sample.leafTree in
  let m' := snd (Delete (helpers := specHelpers) 256 (IInt 1) (IInt 100) m) in
  Size m = 0
  /\ Size m' = 18446744073709551615
  /\ keys (traversal := specTraversal) m' = Panic makeslice_panic
  /\ toSlice (traversal := specTraversal) m' = Panic makeslice_panic.
Proof.
  apply (LoadMast_then_Delete (helpers := specHelpers) (traversal := specTraversal)
           Spec_savePathForRoot_size Spec_shrink_size
           Sample.handleA (Fixture.intConfig Fixture.flaky)
           256 (IInt 1) (IInt 100) Sample.leafTree).
  - apply loaded_Ok. vm_compute. reflexivity.
  - apply pair_of_fst. vm_compute. reflexivity.
Defined.

Lemma Insert_below_threshold_witness :
  let m := Fixture.fifteen in
  let m' := snd (Insert (helpers := specHelpers) 256 (IInt 16) (IInt 1600) m) in
  m' = set_root (root m') m
  \/ m' = set_size (wrap64 (size m + 1)) (set_root (root m') m).
Proof.
  apply (Insert_below_threshold (helpers := specHelpers)
           Spec_savePathForRoot_onlyRoot
           256 (IInt 16) (IInt 1600) Fixture.fifteen).
  - vm_compute. reflexivity.
  - apply pair_of_fst. vm_compute. reflexivity.
Defined.

Lemma Delete_above_threshold_witness :
  let m := Fixture.fifteen in
  let m' := snd (Delete (helpers := specHelpers) 256 (IInt 7) (IInt 700) m) in
  m' = set_size (wrap64 (size m - 1)) (set_root (root m') m).
Proof.
  apply (Delete_above_threshold (helpers := specHelpers)
           Spec_savePathForRoot_onlyRoot
           256 (IInt 7) (IInt 700) Fixture.fifteen).
  - left. vm_compute. discriminate.
  - apply pair_of_fst. vm_compute. reflexivity.
Defined.

Lemma nil_root_witness :
  let m := Sample.noRoot in
  Get (helpers := specHelpers) (IInt 1) None m = (Ok (false, None), m)
  /\ Delete (helpers := specHelpers) 256 (IInt 1) (IInt 100) m
     = (Err (notPresent (IInt 1)), m)
  /\ (forall layer, keyLayer m (IInt 1) (branchFactor m) = Ok layer ->
        Insert (helpers := specHelpers) 256 (IInt 1) (IInt 100) m
        = (Panic nil_panic, m))
  /\ (forall p, persist m = Some p ->
        MakeRoot (helpers := specHelpers) m = (Panic nil_panic, m))
  /\ (forall (St : Type) (f : callback St) (s : St),
        Iter (traversal := specTraversal) f m s = Panic nil_panic).
Proof.
  apply (nil_root (helpers := specHelpers) (traversal := specTraversal)
           256 (IInt 1) (IInt 100) None Sample.noRoot).
  reflexivity.
Defined.

(** The error of [shrink] on the tree whose second leaf does not load. *)
Lemma Delete_errors_are_wrapped_witness :
  DeleteError (IInt (-5)) (IInt (-500))
    (Wrapf "shrink" (Wrapf "failed loading B" (Errorf "no blob named B"))).
Proof.
  apply (Delete_errors_are_wrapped (helpers := specHelpers)
           Spec_validateNode_no_error 256 (IInt (-5)) (IInt (-500))
           Fixture.flakyTree
           (snd (Delete (helpers := specHelpers) 256 (IInt (-5)) (IInt (-500))
                        Fixture.flakyTree))).
  apply pair_of_fst. vm_compute. reflexivity.
Defined.

(** The blob [badvalue], whose [Link] fits: an error, no panic. *)
Lemma contentHash_Load_returns_witness :
  returns (contentHash_Load "badvalue" Fixture.malformedTree).
Proof.
  apply (contentHash_Load_returns "badvalue" Fixture.malformedTree
           Fixture.malformed).
  - reflexivity.
  - vm_compute. discriminate.
  - left. exists (Fixture.encode ["1"; "2"] ["100"; "y"] (Some ["a"; ""; "c"])).
    vm_compute. reflexivity.
  - intros blob. apply codec_intoNode_returns.
  - intros proto blob. apply codec_intoLike_returns.
  - intros blob sn links Hload Hnode Hlinks.
    assert (Hb : blob = Fixture.encode ["1"; "2"] ["100"; "y"] (Some ["a"; ""; "c"])).
    { vm_compute in Hload. injection Hload as <-. vm_compute. reflexivity. }
    subst blob.
    assert (Hs : sn = Fixture.badvalueNode).
    { vm_compute in Hnode. injection Hnode as <-. vm_compute. reflexivity. }
    subst sn. injection Hlinks as <-. simpl. lia.
Defined.

(** The blob [badvalue] on a tree without [KeysLike]. *)
Lemma contentHash_Load_without_KeysLike_witness :
  (snKey Fixture.badvalueNode <> [] ->
   contentHash_Load "badvalue" Sample.untyped = Panic "reflect: New(nil)")
  /\ (snKey Fixture.badvalueNode = [] -> snLink Fixture.badvalueNode = None ->
      contentHash_Load "badvalue" Sample.untyped = Ok (MkNode [] [] [LNil])).
Proof.
  apply (contentHash_Load_without_KeysLike "badvalue" Sample.untyped
           Fixture.malformed
           (Fixture.encode ["1"; "2"] ["100"; "y"] (Some ["a"; ""; "c"]))
           Fixture.badvalueNode).
  - reflexivity.
  - vm_compute. reflexivity.
  - vm_compute. reflexivity.
  - reflexivity.
  - reflexivity.
Defined.

Lemma fifteen_visits :
  visits (traversal := specTraversal) Sample.fifteenRoot Fixture.fifteen
         Sample.fifteenEntries None.
Proof.
  apply (SpecIter_leaf Sample.fifteenRoot Fixture.fifteen).
  - repeat constructor.
  - split; reflexivity.
Qed.

(** The keys of the tree of 1..15, in the order of the serialized keys. *)
Lemma keys_collects_witness :
  keys (traversal := specTraversal) Fixture.fifteen
  = Ok [IInt 1; IInt 10; IInt 11; IInt 12; IInt 13; IInt 14; IInt 15; IInt 2;
        IInt 3; IInt 4; IInt 5; IInt 6; IInt 7; IInt 8; IInt 9].
Proof.
  rewrite (keys_collects (traversal := specTraversal) Fixture.fifteen
             Sample.fifteenRoot Sample.fifteenEntries None).
  - vm_compute. reflexivity.
  - vm_compute. reflexivity.
  - exact fifteen_visits.
  - assert (size Fixture.fifteen = 15) as -> by (vm_compute; reflexivity). lia.
  - assert (size Fixture.fifteen = 15) as -> by (vm_compute; reflexivity).
    vm_compute. discriminate.
Defined.

Lemma toSlice_collects_witness :
  toSlice (traversal := specTraversal) Fixture.fifteen
  = Ok (map (fun e => {| entry.Key := e.1; entry.Value := e.2 |})
            Sample.fifteenEntries).
Proof.
  rewrite (toSlice_collects (traversal := specTraversal) Fixture.fifteen
             Sample.fifteenRoot Sample.fifteenEntries None).
  - vm_compute. reflexivity.
  - vm_compute. reflexivity.
  - exact fifteen_visits.
  - assert (size Fixture.fifteen = 15) as -> by (vm_compute; reflexivity). lia.
  - assert (size Fixture.fifteen = 15) as -> by (vm_compute; reflexivity).
    vm_compute. discriminate.
Defined.

(** The leaf [A], loaded from its handle: one entry, size 0. *)
Lemma LoadMast_then_keys_witness :
  keys (traversal := specTraversal) Sample.leafTree = Panic index_panic
  /\ toSlice (traversal := specTraversal) Sample.leafTree = Panic index_panic.
Proof.
  apply (LoadMast_then_keys (helpers := specHelpers) (traversal := specTraversal)
           Sample.handleA (Fixture.intConfig Fixture.flaky) Sample.leafTree
           (MkNode [IInt 1] [IInt 100] [LNil; LNil]) [(IInt 1, IInt 100)] None).
  - apply loaded_Ok. vm_compute. reflexivity.
  - vm_compute. reflexivity.
  - apply (SpecIter_leaf (MkNode [IInt 1] [IInt 100] [LNil; LNil])).
    + repeat constructor.
    + split; reflexivity.
  - discriminate.
  - vm_compute. discriminate.
Defined.

(** [Get(3)] on the tree whose second leaf does not load: the error of
    [findNode], as it is. *)
Lemma Get_errors_witness :
  let m := Sample.tallTree in
  let e := Wrapf "failed loading B" (Errorf "no blob named B") in
  snd (Get (helpers := specHelpers) (IInt 3) None m) = m
  /\ (load m (root m) = Err e
      \/ (exists cause, keyLayer m (IInt 3) (branchFactor m) = Err cause
                        /\ e = Wrapf "layer" cause)
      \/ (exists n0 options,
            findNode (Helpers := specHelpers) n0 m (IInt 3) options = Err e)
      \/ (exists ki cause, keyOrder m ki (IInt 3) = Err cause
                           /\ e = Wrapf "keyCompare" cause)).
Proof.
  apply (Get_errors (helpers := specHelpers) (IInt 3) None Sample.tallTree).
  apply pair_of_fst. vm_compute. reflexivity.
Defined.

(** [Insert(16, 1600)] on the tree of 1..15, then [Delete(16, 1600)]. *)
Lemma Delete_undoes_Insert_witness :
  exists e',
    last Sample.undoPath = Some e'
    /\ Key (pathEntry.node e') = Key Sample.fifteenRoot
    /\ Value (pathEntry.node e') = Value Sample.fifteenRoot
    /\ length (Link (pathEntry.node e')) = length (Link Sample.fifteenRoot)
    /\ (forall j, j <> 7%nat ->
          Link (pathEntry.node e') !! j = Link Sample.fifteenRoot !! j).
Proof.
  eapply (Delete_undoes_Insert (helpers := specHelpers) (IInt 16) (IInt 1600)
            Fixture.fifteen Sample.sixteen Fixture.addPath Sample.undoPath
            _ Sample.fifteenRoot 7%nat).
  - vm_compute. reflexivity.
  - vm_compute. reflexivity.
  - reflexivity.
  - split; reflexivity.
  - vm_compute. reflexivity.
  - vm_compute. reflexivity.
Defined.
